(** * The live recompiler of [src/pages/examples/ExamplePage.jsx]

    The page lets the user edit the source text of an example and re-renders
    the edited component.  The [useMemo] callback of [ExamplePage] rewrites
    the import and export declarations of the edited text with a sequence of
    regular-expression replacements, hands the result to Babel, runs the
    compiled text through [new Function] and keeps the default export when it
    is a function; a [try]/[catch] around the whole turns a thrown value into
    an error message next to the original component.

    The development has four layers:
    - [jsstring], [Regex]: JavaScript strings as sequences of UTF-16 code
      units and the backtracking matcher for the regular expressions the
      source writes;
    - [Rewriter]: steps 0 to 6.7 of the callback, replacement by replacement;
    - [JS], [Recompiler]: values, the heap, the exception-and-state monad, the
      callback itself and the editing session, over an arbitrary host (Babel
      and the engine behind [new Function] are taken as variables);
    - [MiniJS]: a small instance of the host, a parser, printer and evaluator
      for the statements that the concrete texts below are made of. *)

(** Beside the recompiler, the development covers the rest of the page and
    the flows of the examples:
    - [Number], [Resize]: binary64 numbers and the separator between the
      code and the preview, with its clamp of the width;
    - [CodeViewer]: what the editor and its reset button hand to the page;
    - [Page]: the state [previewError], the effect that sets it and the
      banner that shows it;
    - [Node], [Edge], [Flow], [InteractiveFlow], [DynamicLayout],
      [CopyPaste]: the handlers that add, delete, copy and paste nodes and
      edges. *)

From Stdlib Require Import String Ascii.
From Stdlib Require Import DecimalString.
From Stdlib Require DecimalZ.
From Stdlib Require Import List NArith ZArith Bool Lia.
From Stdlib Require SpecFloat.
Import ListNotations.

Set Implicit Arguments.

(** ** JavaScript strings *)

(** A string value is a sequence of 16-bit code units. *)
Definition jschar := N.
Definition jsstring := list jschar.

(** An ASCII literal as a JavaScript string. *)
Definition js (s : String.string) : jsstring :=
  map N_of_ascii (String.list_ascii_of_string s).
Arguments js s%_string.

Definition dquote : jsstring := [34%N].

Fixpoint jseqb (a b : jsstring) : bool :=
  match a, b with
  | [], [] => true
  | x :: a', y :: b' => N.eqb x y && jseqb a' b'
  | _, _ => false
  end.

(** ** Regular expressions *)

Module Regex.

(** Character classes of the source's patterns. *)

(** [\s]: WhiteSpace and LineTerminator code units of ECMAScript. *)
Definition is_space (c : jschar) : bool :=
  ((9 <=? c) && (c <=? 13) || (c =? 32) || (c =? 160) || (c =? 5760)
   || ((8192 <=? c) && (c <=? 8202)) || (c =? 8232) || (c =? 8233)
   || (c =? 8239) || (c =? 8287) || (c =? 12288) || (c =? 65279))%N.

(** [\w]: [A-Za-z0-9_]. *)
Definition is_word (c : jschar) : bool :=
  ((65 <=? c) && (c <=? 90) || (97 <=? c) && (c <=? 122)
   || (48 <=? c) && (c <=? 57) || (c =? 95))%N.

(** The class of the two quote characters (single and double), and its
    complement. *)
Definition is_quote (c : jschar) : bool := ((c =? 39) || (c =? 34))%N.
Definition not_quote (c : jschar) : bool := negb (is_quote c).

(** [^}]. *)
Definition not_rbrace (c : jschar) : bool := negb (c =? 125)%N.

(** LineTerminator, where [$] matches under the [m] flag. *)
Definition is_line_terminator (c : jschar) : bool :=
  ((c =? 10) || (c =? 13) || (c =? 8232) || (c =? 8233))%N.

(** The pattern language: what the thirteen patterns of the callback use.
    Quantifiers apply to character classes ([\s+], [\w+], [[^}]+] and the
    non-quote class) and the optional to a literal ([;?], [\n?]). *)
Inductive regex : Type :=
| Str (s : jsstring)               (* literal characters *)
| Cls (p : jschar -> bool)         (* one character of a class *)
| Star (p : jschar -> bool)        (* class*, greedy *)
| Plus (p : jschar -> bool)        (* class+, greedy *)
| Opt (r : regex)                  (* r?, greedy *)
| Seq (r1 r2 : regex)
| Alt (r1 r2 : regex)              (* r1|r2, left first *)
| Grp (i : nat) (r : regex)        (* capture group number i *)
| Eol (multiline : bool).          (* $ *)

(** Captures: group number to captured text, group 0 is the whole match. *)
Definition captures := list (nat * jsstring).

Fixpoint group (i : nat) (m : captures) : jsstring :=
  match m with
  | [] => []
  | (j, s) :: m' => if Nat.eqb i j then s else group i m'
  end.

Fixpoint strip_prefix (l s : jsstring) : option jsstring :=
  match l, s with
  | [], _ => Some s
  | x :: l', y :: s' => if N.eqb x y then strip_prefix l' s' else None
  | _ :: _, [] => None
  end.

Section Matcher.
Variable R : Type.

(** Greedy repetition of a class with backtracking: the longest run is
    tried first, then shorter ones. *)
Fixpoint star (p : jschar -> bool) (s : jsstring)
         (k : jsstring -> option R) : option R :=
  match s with
  | c :: s' =>
      if p c then
        match star p s' k with
        | Some x => Some x
        | None => k s
        end
      else k s
  | [] => k s
  end.

Definition at_eol (multiline : bool) (s : jsstring) : bool :=
  match s with
  | [] => true
  | c :: _ => multiline && is_line_terminator c
  end.

(** The backtracking matcher in continuation-passing style: [rmatch r s
    caps k] matches [r] at the start of [s] and gives the rest of the text
    and the captures to [k]; when [k] fails, the next alternative of [r]
    is tried. *)
Fixpoint rmatch (r : regex) (s : jsstring) (caps : captures)
         (k : jsstring -> captures -> option R) : option R :=
  match r with
  | Str l =>
      match strip_prefix l s with
      | Some s' => k s' caps
      | None => None
      end
  | Cls p =>
      match s with
      | c :: s' => if p c then k s' caps else None
      | [] => None
      end
  | Star p => star p s (fun s' => k s' caps)
  | Plus p =>
      match s with
      | c :: s' => if p c then star p s' (fun s'' => k s'' caps) else None
      | [] => None
      end
  | Opt r1 =>
      match rmatch r1 s caps k with
      | Some x => Some x
      | None => k s caps
      end
  | Seq r1 r2 => rmatch r1 s caps (fun s' caps' => rmatch r2 s' caps' k)
  | Alt r1 r2 =>
      match rmatch r1 s caps k with
      | Some x => Some x
      | None => rmatch r2 s caps k
      end
  | Grp i r1 =>
      rmatch r1 s caps
        (fun s' caps' =>
           k s' ((i, firstn (length s - length s') s) :: caps'))
  | Eol ml => if at_eol ml s then k s caps else None
  end.
End Matcher.

(** A match of [r] starting at the first character of [s]: the length of
    the matched text and the captures. *)
Definition match_at (r : regex) (s : jsstring) : option (nat * captures) :=
  rmatch r s []
    (fun s' caps =>
       let n := length s - length s' in
       Some (n, (0, firstn n s) :: caps)).

(** [String.prototype.match] with a pattern without the [g] flag: the
    leftmost match, or [null]. *)
Fixpoint exec (r : regex) (s : jsstring) : option captures :=
  match match_at r s with
  | Some (_, m) => Some m
  | None =>
      match s with
      | [] => None
      | _ :: s' => exec r s'
      end
  end.

(** Replacement texts: literal pieces and group references ([$1], or
    [${name}] inside a template literal of a replacer function). *)
Inductive piece : Type :=
| Lit (s : jsstring)
| Ref (i : nat).

Definition template := list piece.

Definition expand (t : template) (m : captures) : jsstring :=
  flat_map (fun p => match p with Lit s => s | Ref i => group i m end) t.

(** [String.prototype.replace] with a pattern with the [g] flag.  The text
    is scanned from the left; [skip] counts the characters of the current
    match that are still to be passed over.  An empty match is replaced
    and the scan moves on by one character. *)
Fixpoint replace_from (r : regex) (t : template) (s : jsstring)
         (skip : nat) {struct s} : jsstring :=
  match skip with
  | S n =>
      match s with
      | [] => []
      | _ :: s' => replace_from r t s' n
      end
  | O =>
      match match_at r s with
      | Some (len, m) =>
          expand t m ++
          match s with
          | [] => []
          | c :: s' =>
              match len with
              | O => c :: replace_from r t s' 0
              | S l => replace_from r t s' l
              end
          end
      | None =>
          match s with
          | [] => []
          | c :: s' => c :: replace_from r t s' 0
          end
      end
  end.

Definition replace (r : regex) (t : template) (s : jsstring) : jsstring :=
  replace_from r t s 0.

End Regex.

Import Regex.

Declare Scope regex_scope.
Delimit Scope regex_scope with re.
Notation "a >> b" := (Seq a b) (at level 60, right associativity) : regex_scope.
Notation "a || b" := (Alt a b) : regex_scope.

(** ** The declaration rewriter (steps 0 to 6.7 of the callback) *)

Module Rewriter.
Local Open Scope regex_scope.

Definition ws1 : regex := Plus is_space.    (* \s+ *)
Definition ws0 : regex := Star is_space.    (* \s* *)
Definition word : regex := Plus is_word.    (* \w+ *)
Definition quote : regex := Cls is_quote.
Definition kw (s : string) : regex := Str (js s).

(** Step 0: a style-sheet import, the quoted name ending in .css, .scss,
    .sass or .less, an optional semicolon, white space, an optional line
    feed. *)
Definition re_css : regex :=
  kw "import" >> ws1 >> quote >> Star not_quote >> kw "." >>
  Grp 1 (kw "css" || kw "scss" || kw "sass" || kw "less") >>
  quote >> Opt (kw ";") >> ws0 >> Opt (Str [10%N]).

Definition tpl_css : template := [Lit (js "// CSS import removed" ++ [10%N])].

(** The quoted module name that ends every import pattern. *)
Definition from_module (i : nat) : regex :=
  kw "from" >> ws1 >> quote >> Grp i (Plus not_quote) >> quote.

(** Step 1: import A, { B, C } from 'module'. *)
Definition re_mixed : regex :=
  kw "import" >> ws1 >> Grp 1 word >> ws0 >> kw "," >> ws0 >>
  kw "{" >> Grp 2 (Plus not_rbrace) >> kw "}" >> ws1 >> from_module 3.

Definition tpl_mixed : template :=
  [Lit (js "const "); Ref 1; Lit (js " = require('"); Ref 3;
   Lit (js "').default || require('"); Ref 3; Lit (js "'); const {"); Ref 2;
   Lit (js "} = require('"); Ref 3; Lit (js "')")].

(** Step 2: import * as A from 'module'. *)
Definition re_namespace : regex :=
  kw "import" >> ws1 >> kw "*" >> ws1 >> kw "as" >> ws1 >> Grp 1 word >>
  ws1 >> from_module 2.

Definition tpl_namespace : template :=
  [Lit (js "const "); Ref 1; Lit (js " = require('"); Ref 2; Lit (js "')")].

(** Step 3: import { A, B } from 'module'. *)
Definition re_named : regex :=
  kw "import" >> ws1 >> kw "{" >> Grp 1 (Plus not_rbrace) >> kw "}" >>
  ws1 >> from_module 2.

Definition tpl_named : template :=
  [Lit (js "const {"); Ref 1; Lit (js "} = require('"); Ref 2; Lit (js "')")].

(** Step 4: import A from 'module'. *)
Definition re_default : regex :=
  kw "import" >> ws1 >> Grp 1 word >> ws1 >> from_module 2.

Definition tpl_default : template :=
  [Lit (js "const "); Ref 1; Lit (js " = require('"); Ref 2;
   Lit (js "').default || require('"); Ref 2; Lit (js "')")].

(** Step 5: import 'module'. *)
Definition re_side_effect : regex :=
  kw "import" >> ws1 >> quote >> Grp 1 (Plus not_quote) >> quote >>
  Opt (kw ";") >> ws0 >> Opt (Str [10%N]).

Definition tpl_side_effect : template :=
  [Lit (js "// Side effect import removed" ++ [10%N])].

(** Steps 0 to 5, in the order of the source. *)
Definition rewriteImports (editedCode : jsstring) : jsstring :=
  let processedCode := editedCode in
  let processedCode := replace re_css tpl_css processedCode in
  let processedCode := replace re_mixed tpl_mixed processedCode in
  let processedCode := replace re_namespace tpl_namespace processedCode in
  let processedCode := replace re_named tpl_named processedCode in
  let processedCode := replace re_default tpl_default processedCode in
  replace re_side_effect tpl_side_effect processedCode.

(** Step 6.1 to 6.3: export default function|const|class Name. *)
Definition re_export_default_decl (keyword : string) : regex :=
  kw "export" >> ws1 >> kw "default" >> ws1 >> kw keyword >> ws1 >>
  Grp 1 word.

Definition tpl_decl (keyword : string) : template :=
  [Lit (js keyword ++ js " "); Ref 1].

(** Step 6.4: export default Name at the end; [$] is the end of the text in
    the test and, with the [m] flag, the end of a line in the replacement. *)
Definition re_export_default_expr (multiline : bool) : regex :=
  kw "export" >> ws1 >> kw "default" >> ws1 >> Grp 1 word >> ws0 >>
  Opt (kw ";") >> ws0 >> Eol multiline.

(** Step 6.5: export const|let|var|function|class Name. *)
Definition re_export_named : regex :=
  kw "export" >> ws1 >>
  Grp 1 (kw "const" || kw "let" || kw "var" || kw "function" || kw "class") >>
  ws1 >> Grp 2 word.

Definition tpl_export_named : template := [Ref 1; Lit (js " "); Ref 2].

(** Step 6.6: export { A, B }. *)
Definition re_export_list : regex :=
  kw "export" >> ws1 >> kw "{" >> Grp 1 (Plus not_rbrace) >> kw "}" >>
  ws0 >> Opt (kw ";").

Definition tpl_export_list : template := [Lit (js "// Named exports removed")].

(** Step 6.7: a remaining export default. *)
Definition re_export_default : regex :=
  kw "export" >> ws1 >> kw "default" >> ws1.

(** [defaultExportName] is [null] or a string; a string is truthy when it
    is not empty. *)
Definition truthy_name (name : option jsstring) : bool :=
  match name with
  | Some (_ :: _) => true
  | _ => false
  end.

(** The text and the default export name, as steps 6.1 to 6.4 update them. *)
Record rewritten : Type := mkRewritten {
  processedCode : jsstring;
  defaultExportName : option jsstring
}.

(** Steps 6.1, 6.2 and 6.3: when the pattern matches, the name is assigned
    (whatever it was) and every occurrence is rewritten. *)
Definition exportDefaultDecl (keyword : string) (st : rewritten) : rewritten :=
  match exec (re_export_default_decl keyword) (processedCode st) with
  | Some m =>
      {| processedCode :=
           replace (re_export_default_decl keyword) (tpl_decl keyword)
                   (processedCode st);
         defaultExportName := Some (group 1 m) |}
  | None => st
  end.

(** Step 6.4: only when no name has been assigned yet. *)
Definition exportDefaultExpr (st : rewritten) : rewritten :=
  match exec (re_export_default_expr false) (processedCode st) with
  | Some m =>
      if negb (truthy_name (defaultExportName st)) then
        {| processedCode :=
             replace (re_export_default_expr true) [] (processedCode st);
           defaultExportName := Some (group 1 m) |}
      else st
  | None => st
  end.

Definition rewriteExports (processed : jsstring) : rewritten :=
  let st := {| processedCode := processed; defaultExportName := None |} in
  let st := exportDefaultDecl "function" st in
  let st := exportDefaultDecl "const" st in
  let st := exportDefaultDecl "class" st in
  let st := exportDefaultExpr st in
  let code := processedCode st in
  let code := replace re_export_named tpl_export_named code in
  let code := replace re_export_list tpl_export_list code in
  let code := replace re_export_default [] code in
  {| processedCode := code; defaultExportName := defaultExportName st |}.

(** The whole preprocessing of the edited text. *)
Definition rewrite (editedCode : jsstring) : rewritten :=
  rewriteExports (rewriteImports editedCode).

(** The statement appended after Babel's output when a default export name
    was found. *)
Definition exportDefaultStatement (name : jsstring) : jsstring :=
  [10%N] ++ js "if (typeof " ++ name ++
  js " !== 'undefined') { module.exports.default = " ++ name ++ js "; }".

Definition appendDefaultExport (transformedCode : jsstring)
           (name : option jsstring) : jsstring :=
  if truthy_name name then
    match name with
    | Some n => transformedCode ++ exportDefaultStatement n
    | None => transformedCode
    end
  else transformedCode.

End Rewriter.

Import Rewriter.

(** ** JavaScript values, the heap and the monad of the callback *)

Module JS.

(** Values.  Objects and functions live in the heap and are named by their
    address; [VHost] is a value the page gets from outside, opaque to the
    callback: an imported module or component, a built-in of the engine.
    Numbers are the integers that the literals of the texts denote. *)
Inductive value : Type :=
| VUndefined
| VNull
| VBool (b : bool)
| VNumber (n : Z)
| VString (s : jsstring)
| VObject (a : nat)
| VHost (name : jsstring) (callable : bool).

Definition properties := list (jsstring * value).

Fixpoint lookup (k : jsstring) (l : properties) : option value :=
  match l with
  | [] => None
  | (k', v) :: l' => if jseqb k k' then Some v else lookup k l'
  end.

Fixpoint update (k : jsstring) (v : value) (l : properties) : properties :=
  match l with
  | [] => [(k, v)]
  | (k', v') :: l' =>
      if jseqb k k' then (k, v) :: l' else (k', v') :: update k v l'
  end.

(** What every object inherits from [Object.prototype]. *)
Definition object_prototype : properties :=
  [ (js "constructor", VHost (js "Object") true);
    (js "__defineGetter__", VHost (js "Object.prototype.__defineGetter__") true);
    (js "__defineSetter__", VHost (js "Object.prototype.__defineSetter__") true);
    (js "hasOwnProperty", VHost (js "Object.prototype.hasOwnProperty") true);
    (js "__lookupGetter__", VHost (js "Object.prototype.__lookupGetter__") true);
    (js "__lookupSetter__", VHost (js "Object.prototype.__lookupSetter__") true);
    (js "isPrototypeOf", VHost (js "Object.prototype.isPrototypeOf") true);
    (js "propertyIsEnumerable",
     VHost (js "Object.prototype.propertyIsEnumerable") true);
    (js "toString", VHost (js "Object.prototype.toString") true);
    (js "valueOf", VHost (js "Object.prototype.valueOf") true);
    (js "__proto__", VHost (js "Object.prototype") false);
    (js "toLocaleString", VHost (js "Object.prototype.toLocaleString") true) ].

(** [o[k]] for an object literal with the own properties [own]: the own
    property, else the inherited one, else [undefined]. *)
Definition get_property (own : properties) (k : jsstring) : value :=
  match lookup k own with
  | Some v => v
  | None =>
      match lookup k object_prototype with
      | Some v => v
      | None => VUndefined
      end
  end.

(** Names a function object answers to without an own data property of the
    model: its own [length], [name] and [prototype], and what it inherits
    from [Function.prototype] and [Object.prototype]. *)
Definition function_names : list jsstring :=
  [js "length"; js "name"; js "prototype"; js "arguments"; js "caller";
   js "apply"; js "bind"; js "call"] ++ map fst object_prototype.

Definition truthy (v : value) : bool :=
  match v with
  | VUndefined | VNull => false
  | VBool b => b
  | VNumber n => negb (n =? 0)%Z
  | VString s => match s with [] => false | _ => true end
  | VObject _ | VHost _ _ => true
  end.

(** [ToString] of a primitive; an object would run its own conversion. *)
Definition digits (n : Z) : jsstring :=
  js (DecimalString.NilZero.string_of_int (Z.to_int n)).

Definition to_string (v : value) : option jsstring :=
  match v with
  | VUndefined => Some (js "undefined")
  | VNull => Some (js "null")
  | VBool true => Some (js "true")
  | VBool false => Some (js "false")
  | VNumber n => Some (digits n)
  | VString s => Some s
  | VObject _ | VHost _ _ => None
  end.

Section Heap.
(** The engine's representation of the code of a function. *)
Variable fn : Type.

Record object : Type := mkObject {
  props : properties;
  call : option fn
}.

Definition heap := list object.

(** A computation returns, throws a value, or leaves the model: it does
    not terminate, or it needs a part of the language or of the host that
    is not described. *)
Inductive outcome (A : Type) : Type :=
| Return (h : heap) (a : A)
| Throw (h : heap) (v : value)
| Stuck.

Definition M (A : Type) : Type := heap -> outcome A.

Definition ret {A} (a : A) : M A := fun h => Return h a.
Definition throw {A} (v : value) : M A := fun h => Throw A h v.
Definition stuck {A} : M A := fun _ => Stuck A.

Definition bind {A B} (m : M A) (f : A -> M B) : M B :=
  fun h =>
    match m h with
    | Return h' a => f a h'
    | Throw _ h' v => Throw B h' v
    | Stuck _ => Stuck B
    end.

(** [try { m } catch (error) { handler error }]. *)
Definition try_catch {A} (m : M A) (handler : value -> M A) : M A :=
  fun h =>
    match m h with
    | Throw _ h' v => handler v h'
    | o => o
    end.

Definition alloc (o : object) : M value :=
  fun h => Return (h ++ [o]) (VObject (length h)).

(** An object literal. *)
Definition new_object (own : properties) : M value :=
  alloc {| props := own; call := None |}.

(** [new Error(message)] and the engine's own errors. *)
Definition new_error (name message : jsstring) : M value :=
  new_object [(js "message", VString message); (js "name", VString name)].

Definition throw_error {A} (name message : jsstring) : M A :=
  bind (new_error name message) (fun e => throw e).

Definition type_error_read (v : value) (k : jsstring) : jsstring :=
  js "Cannot read properties of " ++
  (match v with VNull => js "null" | _ => js "undefined" end) ++
  js " (reading '" ++ k ++ js "')".

(** What a host value answers to a property read, when the model knows. *)
Variable host_get : jsstring -> jsstring -> option value.

(** [v.k] (or [v[k]]): a read of a data property.  On [undefined] and
    [null] it throws; on a primitive value it gives [undefined] (the callback
    reads [default] and [message], which no prototype of a primitive has);
    on an object it gives the own property, else the inherited one.  The
    objects of the model have no accessors, so a read of an object runs no
    code and does not throw. *)
Definition get (v : value) (k : jsstring) : M value :=
  match v with
  | VUndefined | VNull => throw_error (js "TypeError") (type_error_read v k)
  | VBool _ | VNumber _ | VString _ => ret VUndefined
  | VObject a =>
      fun h =>
        match nth_error h a with
        | Some o =>
            match call o with
            | None => Return h (get_property (props o) k)
            | Some _ =>
                match lookup k (props o) with
                | Some v' => Return h v'
                | None =>
                    if existsb (jseqb k) function_names
                    then Stuck value
                    else Return h VUndefined
                end
            end
        | None => Stuck value
        end
  | VHost name _ =>
      match host_get name k with
      | Some v' => ret v'
      | None => stuck
      end
  end.

Fixpoint set_nth (a : nat) (o : object) (h : heap) : heap :=
  match a, h with
  | O, _ :: h' => o :: h'
  | S a', x :: h' => x :: set_nth a' o h'
  | _, [] => []
  end.

(** [v.k = w] on an object of the heap. *)
Definition set (v : value) (k : jsstring) (w : value) : M unit :=
  match v with
  | VObject a =>
      fun h =>
        match nth_error h a with
        | Some o =>
            Return (set_nth a {| props := update k w (props o);
                                 call := call o |} h) tt
        | None => Stuck unit
        end
  | _ => stuck
  end.

(** [typeof v]. *)
Definition typeof (v : value) : M jsstring :=
  match v with
  | VUndefined => ret (js "undefined")
  | VNull => ret (js "object")
  | VBool _ => ret (js "boolean")
  | VNumber _ => ret (js "number")
  | VString _ => ret (js "string")
  | VObject a =>
      fun h =>
        match nth_error h a with
        | Some o =>
            Return h (match call o with
                      | Some _ => js "function"
                      | None => js "object"
                      end)
        | None => Stuck jsstring
        end
  | VHost _ callable =>
      ret (if callable then js "function" else js "object")
  end.

End Heap.

Arguments Return {fn A} h a.
Arguments Throw {fn A} h v.
Arguments Stuck {fn A}.
Arguments stuck {fn A}.
Arguments ret {fn A} a.
Arguments throw {fn A} v.
Arguments throw_error {fn A} name message.
Arguments get : clear implicits.
Arguments set : clear implicits.
Arguments typeof : clear implicits.
Arguments alloc : clear implicits.
Arguments new_object : clear implicits.
Arguments new_error : clear implicits.

(** What an outcome returned or threw, and the heap it left. *)
Definition returned {fn A} (o : outcome fn A) : option A :=
  match o with
  | Return _ a => Some a
  | _ => None
  end.

Definition thrown {fn A} (o : outcome fn A) : option value :=
  match o with
  | Throw _ v => Some v
  | _ => None
  end.

Definition heap_after {fn A} (o : outcome fn A) : heap fn :=
  match o with
  | Return h _ | Throw h _ => h
  | Stuck => []
  end.

End JS.

Import JS.

Declare Scope js_scope.
Delimit Scope js_scope with js.
Notation "x <- m ;; k" := (bind m (fun x => k))
  (at level 100, m at next level, right associativity) : js_scope.
Notation "m ;;; k" := (bind m (fun _ => k))
  (at level 100, right associativity) : js_scope.

(** ** The recompiler: the [useMemo] callback of [ExamplePage] *)

Module Recompiler.

Local Open Scope js_scope.

(** The modules the page imports and hands to the edited text. *)
Definition React : value := VHost (js "react") false.
Definition ReactFlow : value := VHost (js "@xyflow/react") false.
Definition dagre : value := VHost (js "dagre") false.

(** The object literal [moduleMap]; [reactDom] is the object
    [{ default: null }] written in it. *)
Definition moduleMap (reactDom : value) : properties :=
  [ (js "react", React);
    (js "react-dom", reactDom);
    (js "@xyflow/react", ReactFlow);
    (js "dagre", dagre) ].

(** The message of the error thrown when the export is not a function:
    the nine characters of the source's string literal. *)
Definition not_a_function_message : jsstring :=
  [32452; 20214; 24517; 39035; 26159; 19968; 20010; 20989; 25968]%N.

(** Which way the callback went. *)
Inductive path : Type := Skipped | Succeeded | Failed.

(** The object the callback returns. *)
Record result : Type := mkResult {
  component : value;
  error : value
}.

Section Host.
Variable fn : Type.

(** The two libraries the callback calls. *)
Record host : Type := mkHost {
  (* property reads of host values *)
  host_get : jsstring -> jsstring -> option value;
  (* transform(processedCode, { presets: ["react"], plugins: [] }).code *)
  transform : jsstring -> M fn jsstring;
  (* new Function("React", "require", "module", "exports", body) and
     its call with (React, requireFn, module, exports) *)
  run_function :
    jsstring -> value -> (value -> M fn value) -> value -> value ->
    M fn unit
}.

Variable H : host.

Definition get_ := get fn (host_get H).

(** [requireFn]: [moduleMap[moduleName]] when it is truthy, else the
    error. *)
Definition requireFn (map : properties) (moduleName : value) : M fn value :=
  match to_string moduleName with
  | Some name =>
      if truthy (get_property map name)
      then ret (get_property map name)
      else throw_error (js "Error") (js "Cannot find module: " ++ name)
  | None => stuck
  end.

(** The text handed to [new Function]: the rewritten text through Babel,
    and the statement that sets the default export. *)
Definition compile (editedCode : jsstring) : M fn jsstring :=
  let r := rewrite editedCode in
  transformedCode <- transform H (processedCode r) ;;
  ret (appendDefaultExport transformedCode (defaultExportName r)).

(** The execution: the module map, [exports] and [module], the function
    and its call.  The value is the object [module]. *)
Definition execute (transformedCode : jsstring) : M fn value :=
  reactDom <- new_object fn [(js "default", VNull)] ;;
  exports <- new_object fn [] ;;
  module <- new_object fn [(js "exports", exports)] ;;
  run_function H transformedCode React (requireFn (moduleMap reactDom))
               module exports ;;;
  ret module.

(** [module.exports.default || module.exports], when it is a function. *)
Definition exported (module : value) : M fn value :=
  module_exports <- get_ module (js "exports") ;;
  default <- get_ module_exports (js "default") ;;
  Component <- (if truthy default then ret default
                else get_ module (js "exports")) ;;
  type <- typeof fn Component ;;
  if jseqb type (js "function") then ret Component
  else throw_error (js "Error") not_a_function_message.

(** The body of the [try] block. *)
Definition pipeline (editedCode : jsstring) : M fn value :=
  transformedCode <- compile editedCode ;;
  module <- execute transformedCode ;;
  exported module.

(** The test before the [try] block. *)
Definition skips (OriginalComponent : value) (code editedCode : jsstring)
  : bool :=
  negb (truthy OriginalComponent) || negb (truthy (VString editedCode))
  || jseqb editedCode code.

(** The callback, with the way it went. *)
Definition recompile (OriginalComponent : value) (code editedCode : jsstring)
  : M fn (path * result) :=
  if skips OriginalComponent code editedCode
  then ret (Skipped, {| component := OriginalComponent; error := VNull |})
  else
    try_catch
      (Component <- pipeline editedCode ;;
       ret (Succeeded, {| component := Component; error := VNull |}))
      (fun error =>
         message <- get_ error (js "message") ;;
         ret (Failed, {| component := OriginalComponent;
                         error := message |})).

Definition useMemoCallback (OriginalComponent : value)
           (code editedCode : jsstring) : M fn result :=
  pr <- recompile OriginalComponent code editedCode ;; ret (snd pr).

(** *** The editing session *)

(** The state of the page between two renders: the heap, the two state
    variables, the dependencies and value [useMemo] holds, and two
    counters kept for the proofs: the number of runs of the pipeline and
    the text and component of its last success. *)
Record session : Type := mkSession {
  store : heap fn;
  code : jsstring;
  editedCode : jsstring;
  memo : option (jsstring * jsstring * result);
  pipelineRuns : nat;
  lastSuccess : option (jsstring * value)
}.

Definition initial : session :=
  {| store := []; code := []; editedCode := []; memo := None;
     pipelineRuns := 0; lastSuccess := None |}.

(** The value [useMemo] holds after a render: the page takes it apart
    into [DynamicComponent], the component it renders, and [compileError],
    which an effect copies into the state [previewError] of the banner
    (see [Page]). *)
Definition displayed (s : session) : option result :=
  option_map snd (memo s).

Inductive rendering : Type :=
| Rendered (s : session)
| Crashed (v : value)        (* the render threw *)
| Hung.                      (* the render left the model *)

(** [useMemo(callback, [editedCode, code, OriginalComponent])]: the held
    value when the dependencies are those of the last render, else a call
    of the callback.  [OriginalComponent] is that of the example and does
    not change during its session. *)
Definition render (OriginalComponent : value) (s : session) : rendering :=
  let recompute :=
    match recompile OriginalComponent (code s) (editedCode s) (store s) with
    | Return h (p, r) =>
        Rendered
          {| store := h; code := code s; editedCode := editedCode s;
             memo := Some (editedCode s, code s, r);
             pipelineRuns :=
               match p with
               | Skipped => pipelineRuns s
               | _ => S (pipelineRuns s)
               end;
             lastSuccess :=
               match p with
               | Succeeded => Some (editedCode s, component r)
               | _ => lastSuccess s
               end |}
    | Throw _ v => Crashed v
    | Stuck => Hung
    end in
  match memo s with
  | Some (e, c, _) =>
      if jseqb e (editedCode s) && jseqb c (code s)
      then Rendered s
      else recompute
  | None => recompute
  end.

(** The events of a session: the source text of the example arrives
    ([setCode] and [setEditedCode] with the same text), or the editor
    reports a new text ([setEditedCode]). *)
Inductive event : Type :=
| Loaded (text : jsstring)
| Edited (text : jsstring).

Definition apply (ev : event) (s : session) : session :=
  match ev with
  | Loaded text =>
      {| store := store s; code := text; editedCode := text;
         memo := memo s; pipelineRuns := pipelineRuns s;
         lastSuccess := lastSuccess s |}
  | Edited text =>
      {| store := store s; code := code s; editedCode := text;
         memo := memo s; pipelineRuns := pipelineRuns s;
         lastSuccess := lastSuccess s |}
  end.

Definition step (OriginalComponent : value) (ev : event) (s : session)
  : rendering :=
  render OriginalComponent (apply ev s).

Fixpoint run (OriginalComponent : value) (evs : list event) (s : session)
  : rendering :=
  match evs with
  | [] => Rendered s
  | ev :: evs' =>
      match step OriginalComponent ev s with
      | Rendered s' => run OriginalComponent evs' s'
      | r => r
      end
  end.

(** A session from the first render on. *)
Definition play (OriginalComponent : value) (evs : list event) : rendering :=
  match render OriginalComponent initial with
  | Rendered s0 => run OriginalComponent evs s0
  | r => r
  end.

Definition after (OriginalComponent : value) (evs : list event) : session :=
  match play OriginalComponent evs with
  | Rendered s => s
  | _ => initial
  end.

(** The states of a session: the first render and what events lead to. *)
Inductive reachable (OriginalComponent : value) : session -> Prop :=
| reachable_first s :
    render OriginalComponent initial = Rendered s ->
    reachable OriginalComponent s
| reachable_step s ev s' :
    reachable OriginalComponent s ->
    step OriginalComponent ev s = Rendered s' ->
    reachable OriginalComponent s'.

(** What holds after every render: [useMemo] holds the value for the
    current texts; a skipped text shows the original component without an
    error; the component shown is the original one or the one the last
    success produced from the current text. *)
Definition consistent (OriginalComponent : value) (s : session) : Prop :=
  exists r,
    memo s = Some (editedCode s, code s, r)
    /\ (skips OriginalComponent (code s) (editedCode s) = true ->
        r = {| component := OriginalComponent; error := VNull |})
    /\ (component r = OriginalComponent
        \/ lastSuccess s = Some (editedCode s, component r)).

End Host.

End Recompiler.

Import Recompiler.

(** ** A host for a fragment of JavaScript

    Babel and the engine behind [new Function] are libraries outside the
    repository.  [MiniJS] describes them on a fragment of the language:
    constant declarations (a name, or an object pattern of names), function
    declarations, [if] with a block, [return], [throw], expression
    statements; literals, names, property reads, calls, [typeof], [===],
    [!==], [||] and assignments to a property.  On a text outside the
    fragment, or where the answer depends on a part of the engine that is not
    described (a global, a method of a prototype, an early error), the
    outcome is [Stuck]: the instance says what the libraries do, or
    nothing. *)

Module MiniJS.

#[local] Set Warnings "-register-all".

Local Open Scope js_scope.

(** *** Tokens *)

Inductive token : Type :=
| TIdent (s : jsstring)
| TNum (n : Z)
| TStr (q : jschar) (s : jsstring)
| TPunct (s : jsstring).

(** A token and whether a line terminator comes before it. *)
Definition tokens := list (bool * token).

Definition is_digit (c : jschar) : bool := ((48 <=? c) && (c <=? 57))%N.
Definition is_ident_start (c : jschar) : bool :=
  ((65 <=? c) && (c <=? 90) || (97 <=? c) && (c <=? 122)
   || (c =? 95) || (c =? 36))%N.
Definition is_ident_part (c : jschar) : bool :=
  is_ident_start c || is_digit c.

Fixpoint span (p : jschar -> bool) (s : jsstring) : jsstring * jsstring :=
  match s with
  | c :: s' =>
      if p c then let (a, b) := span p s' in (c :: a, b) else ([], s)
  | [] => ([], [])
  end.

Definition number_of (ds : jsstring) : Z :=
  fold_left (fun acc d => (acc * 10 + Z.of_N (d - 48))%Z) ds 0%Z.

Definition starts_with (p : jschar -> bool) (s : jsstring) : bool :=
  match s with
  | c :: _ => p c
  | [] => false
  end.

(** The punctuators of the fragment, the longest first. *)
Definition puncts : list jsstring :=
  [js "!=="; js "==="; js "||"; js "="; js "."; js "("; js ")"; js "{";
   js "}"; js ";"; js ","].

Fixpoint first_punct (ps : list jsstring) (s : jsstring)
  : option (jsstring * jsstring) :=
  match ps with
  | [] => None
  | p :: ps' =>
      match strip_prefix p s with
      | Some rest => Some (p, rest)
      | None => first_punct ps' s
      end
  end.

(** Longer punctuators that begin like one of the fragment: [==], [=>],
    a dot before a digit or another dot. *)
Definition unsupported_punct (s : jsstring) : bool :=
  match s with
  | 61 :: 61 :: 61 :: _ => false
  | 61 :: x :: _ => (x =? 61) || (x =? 62)
  | 46 :: x :: _ => is_digit x || (x =? 46)
  | _ => false
  end%N.

(** The lexer: white space and line comments are skipped; a character the
    fragment has no token for ends the analysis with [None]. *)
Fixpoint lex (fuel : nat) (nl : bool) (s : jsstring) : option tokens :=
  match fuel with
  | O => None
  | S fuel' =>
      match s with
      | [] => Some []
      | c :: s' =>
          if is_line_terminator c then lex fuel' true s'
          else if is_space c then lex fuel' nl s'
          else if is_ident_start c then
            let (w, rest) := span is_ident_part s in
            option_map (cons (nl, TIdent w)) (lex fuel' false rest)
          else if is_digit c then
            let (ds, rest) := span is_digit s in
            if starts_with (fun x => is_ident_part x || (x =? 46)%N) rest
               || ((c =? 48)%N && negb (length ds =? 1)%nat)
            then None
            else option_map (cons (nl, TNum (number_of ds)))
                            (lex fuel' false rest)
          else if is_quote c then
            let (body, rest) :=
              span (fun x => negb ((x =? c)%N || (x =? 92)%N
                                   || is_line_terminator x)) s' in
            match rest with
            | q :: rest' =>
                if (q =? c)%N
                then option_map (cons (nl, TStr c body))
                                (lex fuel' false rest')
                else None
            | [] => None
            end
          else
            match strip_prefix (js "//") s with
            | Some rest =>
                lex fuel' nl
                    (snd (span (fun x => negb (is_line_terminator x)) rest))
            | None =>
                if unsupported_punct s then None
                else
                  match first_punct puncts s with
                  | Some (p, rest) =>
                      option_map (cons (nl, TPunct p)) (lex fuel' false rest)
                  | None => None
                  end
            end
      end
  end.

Definition tokenize (s : jsstring) : option tokens :=
  lex (S (length s)) false s.

(** *** Syntax *)

Inductive expr : Type :=
| ENum (n : Z)
| EStr (q : jschar) (s : jsstring)
| ENull
| EBool (b : bool)
| EVar (x : jsstring)
| EMember (e : expr) (p : jsstring)
| ECall (f : expr) (args : list expr)
| ETypeof (e : expr)
| EStrictEq (negated : bool) (a b : expr)
| EOr (a b : expr)
| EAssign (target : expr) (p : jsstring) (e : expr).

Inductive stmt : Type :=
| SConst (x : jsstring) (e : expr)
| SConstPattern (xs : list jsstring) (e : expr)
| SFunction (name : jsstring) (params : list jsstring) (body : list stmt)
| SIf (c : expr) (body : list stmt)
| SReturn (e : option expr)
| SThrow (e : expr)
| SExpr (e : expr).

(** Words that are not names of the fragment: the reserved words of the
    language and the names with a meaning of their own. *)
Definition reserved : list jsstring :=
  map js
    ["break"; "case"; "catch"; "class"; "const"; "continue"; "debugger";
     "default"; "delete"; "do"; "else"; "enum"; "export"; "extends";
     "false"; "finally"; "for"; "function"; "if"; "import"; "in";
     "instanceof"; "new"; "null"; "return"; "super"; "switch"; "this";
     "throw"; "true"; "try"; "typeof"; "var"; "void"; "while"; "with";
     "yield"; "let"; "static"; "await"; "async"; "implements"; "interface";
     "package"; "private"; "protected"; "public"; "arguments"; "eval"]%string.

Definition is_name (w : jsstring) : bool := negb (existsb (jseqb w) reserved).

Definition punct_is (p : string) (t : bool * token) : bool :=
  match snd t with
  | TPunct q => jseqb (js p) q
  | _ => false
  end.

Definition word_is (w : string) (t : bool * token) : bool :=
  match snd t with
  | TIdent q => jseqb (js w) q
  | _ => false
  end.

(** *** The parser: recursive descent, [fuel] bounds the depth. *)

Fixpoint p_assign (fuel : nat) (ts : tokens) {struct fuel}
  : option (expr * tokens) :=
  match fuel with
  | O => None
  | S f =>
      match p_or f ts with
      | Some (lhs, t :: ts') =>
          if punct_is "=" t then
            match lhs with
            | EMember o p =>
                match p_assign f ts' with
                | Some (rhs, ts'') => Some (EAssign o p rhs, ts'')
                | None => None
                end
            | _ => None
            end
          else Some (lhs, t :: ts')
      | r => r
      end
  end
with p_or (fuel : nat) (ts : tokens) {struct fuel} : option (expr * tokens) :=
  match fuel with
  | O => None
  | S f =>
      match p_equality f ts with
      | Some (a, ts') => p_or_tail f a ts'
      | None => None
      end
  end
with p_or_tail (fuel : nat) (a : expr) (ts : tokens) {struct fuel}
  : option (expr * tokens) :=
  match fuel with
  | O => None
  | S f =>
      match ts with
      | t :: ts' =>
          if punct_is "||" t then
            match p_equality f ts' with
            | Some (b, ts'') => p_or_tail f (EOr a b) ts''
            | None => None
            end
          else Some (a, ts)
      | [] => Some (a, [])
      end
  end
with p_equality (fuel : nat) (ts : tokens) {struct fuel}
  : option (expr * tokens) :=
  match fuel with
  | O => None
  | S f =>
      match p_unary f ts with
      | Some (a, ts') => p_equality_tail f a ts'
      | None => None
      end
  end
with p_equality_tail (fuel : nat) (a : expr) (ts : tokens) {struct fuel}
  : option (expr * tokens) :=
  match fuel with
  | O => None
  | S f =>
      match ts with
      | t :: ts' =>
          if punct_is "!==" t || punct_is "===" t then
            match p_unary f ts' with
            | Some (b, ts'') =>
                p_equality_tail f (EStrictEq (punct_is "!==" t) a b) ts''
            | None => None
            end
          else Some (a, ts)
      | [] => Some (a, [])
      end
  end
with p_unary (fuel : nat) (ts : tokens) {struct fuel}
  : option (expr * tokens) :=
  match fuel with
  | O => None
  | S f =>
      match ts with
      | t :: ts' =>
          if word_is "typeof" t then
            match p_unary f ts' with
            | Some (e, ts'') => Some (ETypeof e, ts'')
            | None => None
            end
          else
            match p_primary f ts with
            | Some (e, ts'') => p_postfix_tail f e ts''
            | None => None
            end
      | [] => None
      end
  end
with p_postfix_tail (fuel : nat) (e : expr) (ts : tokens) {struct fuel}
  : option (expr * tokens) :=
  match fuel with
  | O => None
  | S f =>
      match ts with
      | t :: ts' =>
          if punct_is "." t then
            match ts' with
            | (_, TIdent p) :: ts'' => p_postfix_tail f (EMember e p) ts''
            | _ => None
            end
          else if punct_is "(" t then
            match p_args f ts' with
            | Some (args, ts'') => p_postfix_tail f (ECall e args) ts''
            | None => None
            end
          else Some (e, ts)
      | [] => Some (e, [])
      end
  end
with p_args (fuel : nat) (ts : tokens) {struct fuel}
  : option (list expr * tokens) :=
  match fuel with
  | O => None
  | S f =>
      match ts with
      | t :: ts' =>
          if punct_is ")" t then Some ([], ts')
          else
            match p_assign f ts with
            | Some (a, t' :: ts'') =>
                if punct_is ")" t' then Some ([a], ts'')
                else if punct_is "," t' then
                  match ts'' with
                  | t'' :: _ =>
                      if punct_is ")" t'' then None
                      else
                        match p_args f ts'' with
                        | Some (args, r) => Some (a :: args, r)
                        | None => None
                        end
                  | [] => None
                  end
                else None
            | _ => None
            end
      | [] => None
      end
  end
with p_primary (fuel : nat) (ts : tokens) {struct fuel}
  : option (expr * tokens) :=
  match fuel with
  | O => None
  | S f =>
      match ts with
      | (_, TNum n) :: ts' => Some (ENum n, ts')
      | (_, TStr q s) :: ts' => Some (EStr q s, ts')
      | (_, TIdent w) :: ts' =>
          if jseqb w (js "null") then Some (ENull, ts')
          else if jseqb w (js "true") then Some (EBool true, ts')
          else if jseqb w (js "false") then Some (EBool false, ts')
          else if is_name w then Some (EVar w, ts')
          else None
      | t :: ts' =>
          if punct_is "(" t then
            match p_assign f ts' with
            | Some (e, t' :: ts'') =>
                if punct_is ")" t' then Some (e, ts'') else None
            | _ => None
            end
          else None
      | [] => None
      end
  end.

(** The end of a statement: a semicolon, or where one is inserted (before
    a closing brace, at the end of the text, before a token on a new
    line). *)
Definition terminator (ts : tokens) : option tokens :=
  match ts with
  | [] => Some []
  | t :: ts' =>
      if punct_is ";" t then Some ts'
      else if punct_is "}" t || fst t then Some ts
      else None
  end.

Definition starts_else (ts : tokens) : bool :=
  match ts with
  | t :: _ => word_is "else" t
  | [] => false
  end.

(** Names separated by commas up to [close]. *)
Fixpoint p_names (close : string) (ts : tokens) {struct ts}
  : option (list jsstring * tokens) :=
  match ts with
  | (_, TIdent x) :: ts' =>
      if is_name x then
        match ts' with
        | t :: ts'' =>
            if punct_is close t then Some ([x], ts'')
            else if punct_is "," t then
              match p_names close ts'' with
              | Some (xs, r) => Some (x :: xs, r)
              | None => None
              end
            else None
        | [] => None
        end
      else None
  | _ => None
  end.

Definition p_params (ts : tokens) : option (list jsstring * tokens) :=
  match ts with
  | t :: ts' => if punct_is ")" t then Some ([], ts') else p_names ")" ts
  | [] => None
  end.

Definition expr_then_end (fuel : nat) (ts : tokens) (mk : expr -> stmt)
  : option (stmt * tokens) :=
  match p_assign fuel ts with
  | Some (e, ts') => option_map (pair (mk e)) (terminator ts')
  | None => None
  end.

Fixpoint p_stmt (fuel : nat) (ts : tokens) {struct fuel}
  : option (stmt * tokens) :=
  match fuel with
  | O => None
  | S f =>
      match ts with
      | [] => None
      | t :: ts' =>
          if word_is "const" t then
            match ts' with
            | (_, TIdent x) :: eq :: ts2 =>
                if is_name x && punct_is "=" eq
                then expr_then_end f ts2 (SConst x)
                else None
            | lb :: ts2 =>
                if punct_is "{" lb then
                  match p_names "}" ts2 with
                  | Some (xs, eq :: ts3) =>
                      if punct_is "=" eq
                      then expr_then_end f ts3 (SConstPattern xs)
                      else None
                  | _ => None
                  end
                else None
            | [] => None
            end
          else if word_is "function" t then
            match ts' with
            | (_, TIdent name) :: lp :: ts2 =>
                if is_name name && punct_is "(" lp then
                  match p_params ts2 with
                  | Some (params, lb :: ts3) =>
                      if punct_is "{" lb then
                        match p_stmts f true ts3 with
                        | Some (body, r) => Some (SFunction name params body, r)
                        | None => None
                        end
                      else None
                  | _ => None
                  end
                else None
            | _ => None
            end
          else if word_is "if" t then
            match ts' with
            | lp :: ts2 =>
                if punct_is "(" lp then
                  match p_assign f ts2 with
                  | Some (c, rp :: lb :: ts3) =>
                      if punct_is ")" rp && punct_is "{" lb then
                        match p_stmts f true ts3 with
                        | Some (body, r) =>
                            if starts_else r then None
                            else Some (SIf c body, r)
                        | None => None
                        end
                      else None
                  | _ => None
                  end
                else None
            | [] => None
            end
          else if word_is "return" t then
            match ts' with
            | [] => Some (SReturn None, [])
            | t2 :: ts2 =>
                if punct_is ";" t2 then Some (SReturn None, ts2)
                else if punct_is "}" t2 || fst t2 then Some (SReturn None, ts')
                else expr_then_end f ts' (fun e => SReturn (Some e))
            end
          else if word_is "throw" t then
            match ts' with
            | t2 :: _ => if fst t2 then None else expr_then_end f ts' SThrow
            | [] => None
            end
          else expr_then_end f ts SExpr
      end
  end
with p_stmts (fuel : nat) (closing : bool) (ts : tokens) {struct fuel}
  : option (list stmt * tokens) :=
  match fuel with
  | O => None
  | S f =>
      match ts with
      | [] => if closing then None else Some ([], [])
      | t :: ts' =>
          if punct_is "}" t then (if closing then Some ([], ts') else None)
          else if punct_is ";" t then p_stmts f closing ts'
          else
            match p_stmt f ts with
            | Some (s, ts'') =>
                match p_stmts f closing ts'' with
                | Some (ss, r) => Some (s :: ss, r)
                | None => None
                end
            | None => None
            end
      end
  end.

(** The text of a function body as a list of statements. *)
Definition parse (s : jsstring) : option (list stmt) :=
  match tokenize s with
  | Some ts =>
      match p_stmts (16 + 16 * length ts) false ts with
      | Some (body, _) => Some body
      | None => None
      end
  | None => None
  end.

(** *** Early errors

    A body is accepted when the names it declares are distinct from each
    other and from the parameters, and no function is declared inside a
    block: other bodies are left to the engine. *)

Definition declared (body : list stmt) : list jsstring :=
  flat_map (fun s => match s with
                     | SConst x _ => [x]
                     | SConstPattern xs _ => xs
                     | SFunction name _ _ => [name]
                     | _ => []
                     end) body.

Fixpoint distinct (l : list jsstring) : bool :=
  match l with
  | [] => true
  | x :: l' => negb (existsb (jseqb x) l') && distinct l'
  end.

Fixpoint wf_stmt (in_block : bool) (s : stmt) {struct s} : bool :=
  match s with
  | SFunction _ params body =>
      negb in_block && distinct (declared body ++ params)
      && forallb (wf_stmt false) body
  | SIf _ body => distinct (declared body) && forallb (wf_stmt true) body
  | _ => true
  end.

Definition wf_body (params : list jsstring) (body : list stmt) : bool :=
  distinct (declared body ++ params) && forallb (wf_stmt false) body.

(** A [return] outside of a function, which Babel refuses. *)
Fixpoint has_return (s : stmt) : bool :=
  match s with
  | SReturn _ => true
  | SIf _ body => existsb has_return body
  | _ => false
  end.

(** *** The printer: the layout of Babel's generator *)

Fixpoint join (sep : jsstring) (l : list jsstring) : jsstring :=
  match l with
  | [] => []
  | [x] => x
  | x :: l' => x ++ sep ++ join sep l'
  end.

Definition newline : jsstring := [10%N].
Definition indent (n : nat) : jsstring := repeat 32%N (2 * n).

Fixpoint print_expr (ctx : nat) (e : expr) {struct e} : jsstring :=
  let wrap (p : nat) (s : jsstring) :=
    if (p <? ctx)%nat then js "(" ++ s ++ js ")" else s in
  match e with
  | ENum n => digits n
  | EStr q s => q :: s ++ [q]
  | ENull => js "null"
  | EBool b => if b then js "true" else js "false"
  | EVar x => x
  | EMember o p =>
      wrap 5 (match o with
              | ENum n => js "(" ++ digits n ++ js ")"
              | _ => print_expr 5 o
              end ++ js "." ++ p)
  | ECall f args =>
      wrap 5 (print_expr 5 f ++ js "(" ++
              join (js ", ") (map (print_expr 1) args) ++ js ")")
  | ETypeof a => wrap 4 (js "typeof " ++ print_expr 4 a)
  | EStrictEq negated a b =>
      wrap 3 (print_expr 3 a ++
              (if negated then js " !== " else js " === ") ++
              print_expr 4 b)
  | EOr a b => wrap 2 (print_expr 2 a ++ js " || " ++ print_expr 3 b)
  | EAssign o p a =>
      wrap 1 (match o with
              | ENum n => js "(" ++ digits n ++ js ")"
              | _ => print_expr 5 o
              end ++ js "." ++ p ++ js " = " ++ print_expr 1 a)
  end.

Fixpoint print_stmt (n : nat) (s : stmt) {struct s} : jsstring :=
  let block (body : list stmt) :=
    match body with
    | [] => js "{}"
    | _ => js "{" ++ newline ++
           join newline (map (print_stmt (S n)) body) ++
           newline ++ indent n ++ js "}"
    end in
  indent n ++
  match s with
  | SConst x e => js "const " ++ x ++ js " = " ++ print_expr 1 e ++ js ";"
  | SConstPattern xs e =>
      js "const {" ++ newline ++
      join (js "," ++ newline) (map (fun x => indent (S n) ++ x) xs) ++
      newline ++ indent n ++ js "} = " ++ print_expr 1 e ++ js ";"
  | SFunction name params body =>
      js "function " ++ name ++ js "(" ++ join (js ", ") params ++ js ") " ++
      block body
  | SIf c body => js "if (" ++ print_expr 1 c ++ js ") " ++ block body
  | SReturn None => js "return;"
  | SReturn (Some e) => js "return " ++ print_expr 1 e ++ js ";"
  | SThrow e => js "throw " ++ print_expr 1 e ++ js ";"
  | SExpr e => print_expr 1 e ++ js ";"
  end.

Definition print_program (body : list stmt) : jsstring :=
  join newline (map (print_stmt 0) body).

(** *** The evaluator *)

(** A name of a scope holds a value, is declared and not yet initialised,
    or belongs to a scope that has changed since it was captured. *)
Inductive binding : Type :=
| Bound (v : value)
| Uninitialised
| Unknown.

Definition env := list (jsstring * binding).

Fixpoint find (x : jsstring) (rho : env) : option binding :=
  match rho with
  | [] => None
  | (y, b) :: rho' => if jseqb x y then Some b else find x rho'
  end.

Fixpoint initialise (x : jsstring) (v : value) (rho : env) : env :=
  match rho with
  | [] => []
  | (y, b) :: rho' =>
      if jseqb x y then (y, Bound v) :: rho'
      else (y, b) :: initialise x v rho'
  end.

(** The code of a function object: a declared function with the scope it
    was created in, or the [requireFn] of the page. *)
Inductive func : Type :=
| Closure (params : list jsstring) (body : list stmt) (scope : env)
| NativeRequire.

(** What the model knows of the properties of host values: the built-ins
    inherited from [Object.prototype] have no property called [default] or
    [message]. *)
Definition host_get (name k : jsstring) : option value :=
  if existsb (fun kv => match snd kv with
                        | VHost n _ => jseqb n name
                        | _ => false
                        end) object_prototype
     && (jseqb k (js "default") || jseqb k (js "message"))
  then Some VUndefined
  else None.

Definition strict_equal (a b : value) : bool :=
  match a, b with
  | VUndefined, VUndefined => true
  | VNull, VNull => true
  | VBool x, VBool y => Bool.eqb x y
  | VNumber x, VNumber y => (x =? y)%Z
  | VString x, VString y => jseqb x y
  | VObject x, VObject y => (x =? y)%nat
  | VHost x _, VHost y _ => jseqb x y
  | _, _ => false
  end.

Definition reference_error {A} (x : jsstring) : M func A :=
  throw_error (js "ReferenceError")
              (js "Cannot access '" ++ x ++ js "' before initialization").

(** A name: the scopes of the function, then the global [undefined];
    other globals are not described. *)
Definition lookup_var (rho : env) (x : jsstring) : M func value :=
  match find x rho with
  | Some (Bound v) => ret v
  | Some Uninitialised => reference_error x
  | Some Unknown => stuck
  | None => if jseqb x (js "undefined") then ret VUndefined else stuck
  end.

(** A property read of the text; the members of the prototypes of
    primitive values are not described. *)
Definition read (v : value) (p : jsstring) : M func value :=
  match v with
  | VBool _ | VNumber _ | VString _ => stuck
  | _ => get func host_get v p
  end.

Definition write (o : value) (p : jsstring) (v : value) : M func unit :=
  match o with
  | VUndefined | VNull =>
      throw_error (js "TypeError")
        (js "Cannot set properties of " ++
         (match o with VNull => js "null" | _ => js "undefined" end) ++
         js " (setting '" ++ p ++ js "')")
  | VObject _ => set func o p v
  | _ => stuck
  end.

Inductive completion : Type :=
| Normal (rho : env)
| Returned (v : value).

Definition const_names (body : list stmt) : list jsstring :=
  flat_map (fun s => match s with
                     | SConst x _ => [x]
                     | SConstPattern xs _ => xs
                     | _ => []
                     end) body.

Definition functions (body : list stmt)
  : list (jsstring * list jsstring * list stmt) :=
  flat_map (fun s => match s with
                     | SFunction name params b => [(name, params, b)]
                     | _ => []
                     end) body.

Definition capture (rho : env) : env :=
  map (fun xb => (fst xb, match snd xb with
                          | Uninitialised => Unknown
                          | b => b
                          end)) rho.

Fixpoint number_from {A} (a : nat) (l : list A) : list (nat * A) :=
  match l with
  | [] => []
  | x :: l' => (a, x) :: number_from (S a) l'
  end.

(** Entering a body: its constants are declared, its functions are
    created. *)
Definition enter (rho : env) (body : list stmt) : M func env :=
  fun h =>
    let fs := number_from (length h) (functions body) in
    let rho' :=
      map (fun af => (fst (fst (snd af)), Bound (VObject (fst af)))) fs ++
      map (fun x => (x, Uninitialised)) (const_names body) ++ rho in
    Return
      (h ++ map (fun af =>
                   {| props := [];
                      call := Some (Closure (snd (fst (snd af)))
                                            (snd (snd af)) (capture rho')) |})
                fs)
      rho'.

Fixpoint bind_params (params : list jsstring) (args : list value) : env :=
  match params with
  | [] => []
  | x :: params' =>
      (x, Bound (hd VUndefined args)) :: bind_params params' (tl args)
  end.

Section Eval.
(** [requireFn], as the page defines it. *)
Variable require : value -> M func value.

Fixpoint eval (fuel : nat) (rho : env) (e : expr) {struct fuel}
  : M func value :=
  match fuel with
  | O => stuck
  | S f =>
      match e with
      | ENum n => ret (VNumber n)
      | EStr _ s => ret (VString s)
      | ENull => ret VNull
      | EBool b => ret (VBool b)
      | EVar x => lookup_var rho x
      | EMember o p => v <- eval f rho o ;; read v p
      | ECall g args =>
          callee <- eval f rho g ;;
          vs <- eval_list f rho args ;;
          invoke f callee vs
      | ETypeof a =>
          v <- match a with
               | EVar x =>
                   match find x rho with
                   | None =>
                       if jseqb x (js "undefined") then ret VUndefined
                       else stuck
                   | _ => lookup_var rho x
                   end
               | _ => eval f rho a
               end ;;
          t <- typeof func v ;;
          ret (VString t)
      | EStrictEq negated a b =>
          va <- eval f rho a ;;
          vb <- eval f rho b ;;
          ret (VBool (xorb negated (strict_equal va vb)))
      | EOr a b =>
          va <- eval f rho a ;;
          if truthy va then ret va else eval f rho b
      | EAssign o p a =>
          vo <- eval f rho o ;;
          v <- eval f rho a ;;
          write vo p v ;;;
          ret v
      end
  end
with eval_list (fuel : nat) (rho : env) (es : list expr) {struct fuel}
  : M func (list value) :=
  match fuel with
  | O => stuck
  | S f =>
      match es with
      | [] => ret []
      | e :: es' =>
          v <- eval f rho e ;;
          vs <- eval_list f rho es' ;;
          ret (v :: vs)
      end
  end
with invoke (fuel : nat) (callee : value) (args : list value) {struct fuel}
  : M func value :=
  match fuel with
  | O => stuck
  | S f =>
      match callee with
      | VObject a =>
          fun h =>
            match nth_error h a with
            | Some {| call := Some (Closure params body scope) |} =>
                (rho <- enter (bind_params params args ++ scope) body ;;
                 c <- exec_list f rho body ;;
                 match c with
                 | Normal _ => ret VUndefined
                 | Returned v => ret v
                 end) h
            | Some {| call := Some NativeRequire |} =>
                require (hd VUndefined args) h
            | _ => Stuck
            end
      | _ => stuck
      end
  end
with exec (fuel : nat) (rho : env) (s : stmt) {struct fuel}
  : M func completion :=
  match fuel with
  | O => stuck
  | S f =>
      match s with
      | SConst x e =>
          v <- eval f rho e ;;
          ret (Normal (initialise x v rho))
      | SConstPattern xs e =>
          v <- eval f rho e ;;
          match v with
          | VUndefined | VNull => stuck
          | _ =>
              fold_left
                (fun acc x =>
                   c <- acc ;;
                   match c with
                   | Normal r => w <- read v x ;;
                                 ret (Normal (initialise x w r))
                   | Returned u => ret (Returned u)
                   end)
                xs (ret (Normal rho))
          end
      | SFunction _ _ _ => ret (Normal rho)
      | SIf c body =>
          v <- eval f rho c ;;
          if truthy v then
            inner <- enter rho body ;;
            r <- exec_list f inner body ;;
            match r with
            | Normal _ => ret (Normal rho)
            | Returned u => ret (Returned u)
            end
          else ret (Normal rho)
      | SReturn None => ret (Returned VUndefined)
      | SReturn (Some e) => v <- eval f rho e ;; ret (Returned v)
      | SThrow e => v <- eval f rho e ;; throw v
      | SExpr e => eval f rho e ;;; ret (Normal rho)
      end
  end
with exec_list (fuel : nat) (rho : env) (ss : list stmt) {struct fuel}
  : M func completion :=
  match fuel with
  | O => stuck
  | S f =>
      match ss with
      | [] => ret (Normal rho)
      | s :: ss' =>
          c <- exec f rho s ;;
          match c with
          | Normal rho' => exec_list f rho' ss'
          | Returned v => ret (Returned v)
          end
      end
  end.
End Eval.

(** The depth the evaluator goes to before it gives up. *)
Definition depth : nat := 1000.

Definition parameters : list jsstring :=
  [js "React"; js "require"; js "module"; js "exports"].

(** The body of [new Function("React", "require", "module", "exports",
    body)] run with the four arguments, up to its completion. *)
Definition run_body (body : jsstring) (React : value)
           (requireFn : value -> M func value) (module exports : value)
  : M func completion :=
  match parse body with
  | Some prog =>
      if wf_body parameters prog then
        require <- alloc func {| props := []; call := Some NativeRequire |} ;;
        rho <- enter [(js "React", Bound React); (js "require", Bound require);
                      (js "module", Bound module);
                      (js "exports", Bound exports)] prog ;;
        exec_list requireFn depth rho prog
      else stuck
  | None => stuck
  end.

(** The call [func(React, requireFn, module, exports)], whose value the
    page does not use. *)
Definition run_function (body : jsstring) (React : value)
           (requireFn : value -> M func value) (module exports : value)
  : M func unit :=
  run_body body React requireFn module exports ;;; ret tt.

(** [transform(text, { presets: ["react"], plugins: [] }).code] on a text
    without markup: the statements are printed again. *)
Definition transform (text : jsstring) : M func jsstring :=
  match parse text with
  | Some prog =>
      if wf_body [] prog && negb (existsb has_return prog)
      then ret (print_program prog)
      else stuck
  | None => stuck
  end.

Definition host : Recompiler.host func :=
  {| Recompiler.host_get := host_get;
     Recompiler.transform := transform;
     Recompiler.run_function := run_function |}.

(** The call of a function value, as React calls a component. *)
Definition call (component : value) (args : list value) : M func value :=
  invoke (fun _ => stuck) depth component args.

End MiniJS.

(** ** The texts and sessions of the specification *)

(** A text with two default exports. *)
Definition two_defaults : jsstring :=
  js "export default function A(){}" ++ [10%N] ++ js "export default class B{}".

(** The text after step 6.1, and after steps 6.1 and 6.2. *)
Definition afterFunction (processed : jsstring) : rewritten :=
  exportDefaultDecl "function"
    {| processedCode := processed; defaultExportName := None |}.

Definition afterConst (processed : jsstring) : rewritten :=
  exportDefaultDecl "const" (afterFunction processed).

Definition afterClass (processed : jsstring) : rewritten :=
  exportDefaultDecl "class" (afterConst processed).

(** The name the first pattern that matches captures, the patterns taken in
    the order of the source: what the specification says is recorded. *)
Definition first_recognized (processed : jsstring) : option jsstring :=
  match exec (re_export_default_decl "function") processed with
  | Some m => Some (group 1 m)
  | None =>
      match exec (re_export_default_decl "const") processed with
      | Some m => Some (group 1 m)
      | None =>
          match exec (re_export_default_decl "class") processed with
          | Some m => Some (group 1 m)
          | None =>
              match exec (re_export_default_expr false) processed with
              | Some m => Some (group 1 m)
              | None => None
              end
          end
      end
  end.

(** The component the page imports for the example, and the text loaded
    for it. *)
Definition BasicNodes : value := VHost (js "BasicNodes") true.
Definition loaded : jsstring :=
  js "export default function BasicNodes(){ return 0 }".

Definition widget : jsstring :=
  js "export default function Widget(){ return 1 }".
Definition not_a_component : jsstring := js "export default 42".
Definition missing_module : jsstring :=
  js "import X from " ++ dquote ++ js "nonexistent-module" ++ dquote.
Definition import_constructor : jsstring :=
  js "import X from " ++ dquote ++ js "constructor" ++ dquote.
Definition throw_null : jsstring := js "throw null".
Definition mixed_import : jsstring :=
  js "import Foo, { a, b } from " ++ dquote ++ js "m" ++ dquote.


(** The text of the last success, the loaded one before any. *)
Definition last_success_text (s : session MiniJS.func) : jsstring :=
  match lastSuccess s with
  | Some (t, _) => t
  | None => code s
  end.

(** The stub registry of the specification: the module [m] is the object
    [{ default: X, a: 1, b: 2 }], at address 0 of the heap; [exports] and
    [module] follow it. *)
Definition stub_heap (X : value) : heap MiniJS.func :=
  [ {| props := [(js "default", X); (js "a", VNumber 1); (js "b", VNumber 2)];
       call := None |};
    {| props := []; call := None |};
    {| props := [(js "exports", VObject 1)]; call := None |} ].

Definition stub_registry : properties := [(js "m", VObject 0)].

(** The names a text binds when it runs as the body of the function, with
    [requireFn] over the stub registry. *)
Definition bindings (text : jsstring) (X : value) : option MiniJS.env :=
  match MiniJS.run_body text React (requireFn stub_registry)
                        (VObject 2) (VObject 1) (stub_heap X) with
  | Return _ (MiniJS.Normal rho) => Some rho
  | _ => None
  end.

Definition bound (x : string) (rho : option MiniJS.env) : option MiniJS.binding :=
  match rho with
  | Some r => MiniJS.find (js x) r
  | None => None
  end.

(** ** The code viewer *)

Module CodeViewer.
Import Recompiler.

Section Viewer.
Variable fn : Type.

(** The text the page hands to the viewer: [code={editedCode || code}]. *)
Definition codeProp (s : session fn) : jsstring :=
  if truthy (VString (editedCode s)) then editedCode s else code s.

(** [handleCodeChange]: the editor reports a text, or [undefined];
    [onCodeChange] is the page's [setEditedCode]. *)
Definition handleCodeChange (newCode : option jsstring) : event :=
  Edited (match newCode with
          | Some t => if truthy (VString t) then t else []
          | None => []
          end).

(** [handleReset]: [onCodeChange(code)], with the viewer's own [code]. *)
Definition handleReset (s : session fn) : event := Edited (codeProp s).

End Viewer.
End CodeViewer.

(** ** The banner of the preview *)

(** The page keeps the error in a state of its own, [previewError], which
    starts as [null]; the effect [setPreviewError(compileError)], with the
    dependency [compileError], runs after a render is committed.  The
    preview shows [previewError] in a banner when it is truthy, and
    [DynamicComponent] under it. *)
Module Page.
Import Recompiler.

(** What the page returns. *)
Inductive view : Type :=
| Navigate                        (* <Navigate to="/" replace /> *)
| Preview (DynamicComponent : value) (banner : option jsstring).

(** What the hooks and the commits of one render can come to. *)
Inductive outcome (page : Type) : Type :=
| Committed (before : view) (pg : page)
| Threw (v : value)               (* the callback of [useMemo] threw *)
| Outside.                        (* the render left the model *)

Arguments Committed {page} before pg.
Arguments Threw {page} v.
Arguments Outside {page}.

(** [Object.is], by which React compares dependencies and states. *)
Definition same_value (a b : value) : bool :=
  match a, b with
  | VUndefined, VUndefined => true
  | VNull, VNull => true
  | VBool x, VBool y => Bool.eqb x y
  | VNumber x, VNumber y => Z.eqb x y
  | VString x, VString y => jseqb x y
  | VObject x, VObject y => Nat.eqb x y
  | VHost x cx, VHost y cy => jseqb x y && Bool.eqb cx cy
  | _, _ => false
  end.

(** [{previewError && (<div>... {previewError} ...</div>)}]: no banner for
    [null], [undefined] and the empty string, the banner with the text for
    another string.  What React makes of a child that is a number, a
    boolean or an object is not described: there the model ends. *)
Definition banner (previewError : value) : option (option jsstring) :=
  match previewError with
  | VUndefined | VNull => Some None
  | VString text => Some (if truthy previewError then Some text else None)
  | _ => None
  end.

Section Page.
Variable fn : Type.
Variable H : host fn.
Variable OriginalComponent : value.

(** The hooks of the page between two events: those of the session, the
    value of the dependency the effect last ran with (none before the
    first commit), and the state [previewError]. *)
Record page : Type := mkPage {
  hooks : session fn;
  effectDeps : option value;
  previewError : value
}.

(** The two early returns and the preview. *)
Definition view_of (r : result) (previewError : value) : option view :=
  if negb (truthy OriginalComponent) then Some Navigate
  else
    match banner previewError with
    | Some b => Some (Preview (component r) b)
    | None => None
    end.

(** Whether the effect runs after a commit in which [compileError] is
    [compileError]. *)
Definition effect_runs (pg : page) (compileError : value) : bool :=
  match effectDeps pg with
  | Some last => negb (same_value last compileError)
  | None => true
  end.

(** A render whose hooks gave the session [s']: it is committed with the
    state [previewError] as it was, then the effect runs when its
    dependency changed, and a changed state is rendered and committed
    again.  [before] is the first of these commits. *)
Definition commit (pg : page) (s' : session fn) : outcome page :=
  match displayed s' with
  | Some r =>
      let compileError := error r in
      let runs := effect_runs pg compileError in
      let pg' :=
        {| hooks := s';
           effectDeps := if runs then Some compileError else effectDeps pg;
           previewError := if runs then compileError else previewError pg |} in
      match view_of r (previewError pg), view_of r (previewError pg') with
      | Some before, Some _ => Committed before pg'
      | _, _ => Outside
      end
  | None => Outside
  end.

(** What is on the page once the effect has run. *)
Definition shown (pg : page) : option view :=
  match displayed (hooks pg) with
  | Some r => view_of r (previewError pg)
  | None => None
  end.

Definition of_rendering (pg : page) (r : rendering fn) : outcome page :=
  match r with
  | Rendered s' => commit pg s'
  | Crashed _ v => Threw v
  | Hung _ => Outside
  end.

(** The first render of the page. *)
Definition mount : outcome page :=
  let pg := {| hooks := initial fn; effectDeps := None;
               previewError := VNull |} in
  of_rendering pg (render H OriginalComponent (initial fn)).

(** An event of the session, the render it causes and its commits. *)
Definition page_step (ev : event) (pg : page) : outcome page :=
  of_rendering pg (step H OriginalComponent ev (hooks pg)).

Fixpoint page_run (evs : list event) (before : view) (pg : page)
  : outcome page :=
  match evs with
  | [] => Committed before pg
  | ev :: evs' =>
      match page_step ev pg with
      | Committed before' pg' => page_run evs' before' pg'
      | o => o
      end
  end.

(** A session of the page from its first render on: the page after the
    last event, with the commit that came before its effect ran. *)
Definition page_play (evs : list event) : outcome page :=
  match mount with
  | Committed before pg => page_run evs before pg
  | o => o
  end.

Definition page_after (evs : list event) : page :=
  match page_play evs with
  | Committed _ pg => pg
  | _ => {| hooks := initial fn; effectDeps := None; previewError := VNull |}
  end.

(** The states of the page between two events. *)
Inductive settled : page -> Prop :=
| settled_mount before pg :
    mount = Committed before pg -> settled pg
| settled_step pg ev before pg' :
    settled pg ->
    page_step ev pg = Committed before pg' ->
    settled pg'.

End Page.

End Page.

(** ** Numbers *)

Module Number.

(** Numbers are IEEE 754 binary64 values. *)
Definition number : Type := SpecFloat.spec_float.
Definition prec : Z := 53.
Definition emax : Z := 1024.

Definition of_Z (z : Z) : number :=
  SpecFloat.binary_normalize prec emax z 0 false.
Definition add : number -> number -> number := SpecFloat.SFadd prec emax.
Definition sub : number -> number -> number := SpecFloat.SFsub prec emax.
Definition div : number -> number -> number := SpecFloat.SFdiv prec emax.
Definition mul : number -> number -> number := SpecFloat.SFmul prec emax.

(** [Math.min] and [Math.max] of two values: [NaN] when one of them is;
    of two zeros, [-0] is the smaller. *)
Definition Math_min (a b : number) : number :=
  match SpecFloat.SFcompare a b with
  | None => SpecFloat.S754_nan
  | Some Lt => a
  | Some Gt => b
  | Some Eq =>
      match a, b with
      | SpecFloat.S754_zero sa, SpecFloat.S754_zero sb =>
          SpecFloat.S754_zero (sa || sb)
      | _, _ => a
      end
  end.

Definition Math_max (a b : number) : number :=
  match SpecFloat.SFcompare a b with
  | None => SpecFloat.S754_nan
  | Some Lt => b
  | Some Gt => a
  | Some Eq =>
      match a, b with
      | SpecFloat.S754_zero sa, SpecFloat.S754_zero sb =>
          SpecFloat.S754_zero (sa && sb)
      | _, _ => a
      end
  end.

(** [a <= b] on numbers. *)
Definition leq (a b : number) : bool := SpecFloat.SFleb a b.

Definition is_nan (x : number) : bool :=
  match x with
  | SpecFloat.S754_nan => true
  | _ => false
  end.

(** The whole number a value is, when it is one. *)
Definition to_Z (x : number) : option Z :=
  match x with
  | SpecFloat.S754_zero _ => Some 0%Z
  | SpecFloat.S754_finite s m e =>
      if (0 <=? e)%Z then Some (SpecFloat.cond_Zopp s (Zpos m * 2 ^ e))%Z
      else
        let d := (2 ^ (- e))%Z in
        if (Zpos m mod d =? 0)%Z
        then Some (SpecFloat.cond_Zopp s (Zpos m / d))%Z
        else None
  | _ => None
  end.

End Number.

(** ** The separator between the code and the preview *)

Module Resize.
Import Number.

(** What [getBoundingClientRect] gives, as far as the handler reads it. *)
Record rect : Type := mkRect { left : number; width : number }.

(** The state [codeWidth] and the ref [isResizing]. *)
Record panes : Type := mkPanes { codeWidth : number; isResizing : bool }.

Definition initial : panes :=
  {| codeWidth := of_Z 50; isResizing := false |}.

(** [handleMouseMove]; [containerRef] is the rectangle of the container,
    or nothing while the ref is [null]. *)
Definition handleMouseMove (clientX : number) (containerRef : option rect)
           (s : panes) : panes :=
  if negb (isResizing s) then s
  else
    match containerRef with
    | None => s
    | Some containerRect =>
        let newWidth :=
          mul (div (sub clientX (left containerRect)) (width containerRect))
              (of_Z 100) in
        {| codeWidth := Math_max (of_Z 20) (Math_min (of_Z 80) newWidth);
           isResizing := isResizing s |}
    end.

Definition handleMouseUp (s : panes) : panes :=
  {| codeWidth := codeWidth s; isResizing := false |}.

(** [onMouseDown] of the separator. *)
Definition onMouseDown (s : panes) : panes :=
  {| codeWidth := codeWidth s; isResizing := true |}.

Inductive event : Type :=
| MouseDown
| MouseMove (clientX : number) (containerRef : option rect)
| MouseUp.

Definition handle (ev : event) (s : panes) : panes :=
  match ev with
  | MouseDown => onMouseDown s
  | MouseMove clientX containerRef => handleMouseMove clientX containerRef s
  | MouseUp => handleMouseUp s
  end.

Definition run (evs : list event) (s : panes) : panes :=
  fold_left (fun s ev => handle ev s) evs s.

(** The range the handler keeps the width in; [NaN] passes through. *)
Definition in_range (w : number) : Prop :=
  is_nan w = true
  \/ (leq (of_Z 20) w = true /\ leq w (of_Z 80) = true).

End Resize.

(** ** The flows of the examples *)

(** Nodes and edges, with the fields the handlers of the examples read or
    write; what else an object carries goes along with the spread.  A
    [selected] that is absent counts as [false]. *)
Module Node.
Record t : Type := mk {
  id : jsstring;
  position : Number.number * Number.number;
  label : jsstring;                      (* data.label *)
  selected : bool
}.
End Node.

Module Edge.
Record t : Type := mk {
  id : jsstring;
  source : jsstring;
  target : jsstring;
  selected : bool
}.
End Edge.

Module Flow.

Definition ids (nodes : list Node.t) : list jsstring := map Node.id nodes.

(** [Set.prototype.has] on a set of strings. *)
Definition has (l : list jsstring) (k : jsstring) : bool :=
  existsb (jseqb k) l.

(** Every edge starts and ends at a node. *)
Definition closed (nodes : list Node.t) (edges : list Edge.t) : Prop :=
  forall e,
    In e edges ->
    In (Edge.source e) (ids nodes) /\ In (Edge.target e) (ids nodes).

(** The label of a new node: two characters, a space and the number. *)
Definition node_label (n : jsstring) : jsstring := [33410; 28857; 32]%N ++ n.

End Flow.

(** *** InteractiveFlow *)

Module InteractiveFlow.
Import Flow.

(** The state of the component: [nodes], [edges], [selectedNode]. *)
Record flow : Type := mkFlow {
  nodes : list Node.t;
  edges : list Edge.t;
  selectedNode : option Node.t
}.

Definition initialNodes : list Node.t :=
  [ Node.mk (js "1") (Number.of_Z 100, Number.of_Z 100)
            (node_label (js "1")) false;
    Node.mk (js "2") (Number.of_Z 300, Number.of_Z 100)
            (node_label (js "2")) false;
    Node.mk (js "3") (Number.of_Z 500, Number.of_Z 100)
            (node_label (js "3")) false ].

Definition initial : flow :=
  {| nodes := initialNodes; edges := []; selectedNode := None |}.

(** [addNode]; [random1] and [random2] are what the two calls of
    [Math.random] return. *)
Definition addNode (random1 random2 : Number.number) (s : flow) : flow :=
  let n := digits (Z.of_nat (length (nodes s)) + 1) in
  let newNode :=
    {| Node.id := n;
       Node.position := (Number.mul random1 (Number.of_Z 400),
                         Number.mul random2 (Number.of_Z 400));
       Node.label := node_label n;
       Node.selected := false |} in
  {| nodes := nodes s ++ [newNode]; edges := edges s;
     selectedNode := selectedNode s |}.

Definition onNodeClick (node : Node.t) (s : flow) : flow :=
  {| nodes := nodes s; edges := edges s; selectedNode := Some node |}.

Definition deleteSelectedNode (s : flow) : flow :=
  match selectedNode s with
  | Some sel =>
      {| nodes :=
           filter (fun node => negb (jseqb (Node.id node) (Node.id sel)))
                  (nodes s);
         edges :=
           filter (fun edge =>
                     negb (jseqb (Edge.source edge) (Node.id sel))
                     && negb (jseqb (Edge.target edge) (Node.id sel)))
                  (edges s);
         selectedNode := None |}
  | None => s
  end.

(** The ids are the numbers from 1 to the number of nodes, in order. *)
Definition numbered (s : flow) : Prop :=
  ids (nodes s)
  = map (fun k => digits (Z.of_nat k)) (seq 1 (length (nodes s))).

End InteractiveFlow.

(** *** DynamicLayout *)

Module DynamicLayout.
Import Flow.

(** [nodes], [edges] and [nodeCounter]; the counter is a whole number,
    kept as the integer its binary64 value is. *)
Record flow : Type := mkFlow {
  nodes : list Node.t;
  edges : list Edge.t;
  nodeCounter : Z
}.

(** [prev + 1], the sum of binary64, on a counter that is a whole number.
    Every whole number from -2^53 to 2^53 is a number of binary64 and has
    its decimal numeral as its string; past them the model ends. *)
Definition increment (prev : Z) : option Z :=
  if (Z.abs prev <=? 2 ^ 53)%Z
  then Number.to_Z (Number.add (Number.of_Z prev) (Number.of_Z 1))
  else None.

Definition addNode (s : flow) : option flow :=
  let newNode :=
    {| Node.id := digits (nodeCounter s);
       Node.label := node_label (digits (nodeCounter s));
       Node.position := (Number.of_Z 0, Number.of_Z 0);
       Node.selected := false |} in
  match increment (nodeCounter s) with
  | Some next =>
      Some {| nodes := nodes s ++ [newNode]; edges := edges s;
              nodeCounter := next |}
  | None => None
  end.

Definition deleteSelectedNodes (s : flow) : flow :=
  let selectedNodes := filter Node.selected (nodes s) in
  if Nat.eqb (length selectedNodes) 0 then s
  else
    let selectedNodeIds := ids selectedNodes in
    {| nodes := filter (fun node => negb (Node.selected node)) (nodes s);
       edges :=
         filter (fun edge =>
                   negb (has selectedNodeIds (Edge.source edge))
                   && negb (has selectedNodeIds (Edge.target edge)))
                (edges s);
       nodeCounter := nodeCounter s |}.

(** Every id is the decimal numeral of a number from 0 up to the
    counter, the counter not included. *)
Definition below (s : flow) : Prop :=
  forall node,
    In node (nodes s) ->
    exists k, (0 <= k < nodeCounter s)%Z /\ Node.id node = digits k.

End DynamicLayout.

(** *** CopyPaste *)

Module CopyPaste.
Import Flow.

(** [nodes], [edges], the two refs of the copy, and whether
    [reactFlowInstanceRef] holds an instance. *)
Record flow : Type := mkFlow {
  nodes : list Node.t;
  edges : list Edge.t;
  copiedNodes : list Node.t;
  copiedEdges : list Edge.t;
  reactFlowInstance : bool
}.

Definition PASTE_OFFSET : Number.number := Number.of_Z 50.

Definition copySelected (s : flow) : flow :=
  let selectedNodes := filter Node.selected (nodes s) in
  let selectedNodeIds := ids selectedNodes in
  let selectedEdges :=
    filter (fun edge =>
              has selectedNodeIds (Edge.source edge)
              && has selectedNodeIds (Edge.target edge))
           (edges s) in
  if Nat.ltb 0 (length selectedNodes) then
    {| nodes := nodes s; edges := edges s;
       copiedNodes := selectedNodes; copiedEdges := selectedEdges;
       reactFlowInstance := reactFlowInstance s |}
  else s.

(** [nodeIdMap[k] = v] on the object [nodeIdMap]: an own property, but
    for the name [__proto__], whose setter drops a string. *)
Definition assign (k v : jsstring) (nodeIdMap : properties) : properties :=
  if jseqb k (js "__proto__") then nodeIdMap
  else update k (VString v) nodeIdMap.

(** [nodeIdMap[k]] where an id is expected: the string, or nothing when
    the read gives something else. *)
Definition read (nodeIdMap : properties) (k : jsstring) : option jsstring :=
  match get_property nodeIdMap k with
  | VString v => Some v
  | _ => None
  end.

(** The [forEach] that fills [nodeIdMap]; [generateNodeId i] is what call
    number [i] of [generateNodeId] returns. *)
Fixpoint fill (generateNodeId : nat -> jsstring) (copied : list Node.t)
         (calls : nat) (nodeIdMap : properties) : properties :=
  match copied with
  | [] => nodeIdMap
  | node :: rest =>
      fill generateNodeId rest (S calls)
           (assign (Node.id node) (generateNodeId calls) nodeIdMap)
  end.

Fixpoint newNodes (nodeIdMap : properties) (copied : list Node.t)
  : option (list Node.t) :=
  match copied with
  | [] => Some []
  | node :: rest =>
      match read nodeIdMap (Node.id node), newNodes nodeIdMap rest with
      | Some i, Some l =>
          Some ({| Node.id := i;
                   Node.position :=
                     (Number.add (fst (Node.position node)) PASTE_OFFSET,
                      Number.add (snd (Node.position node)) PASTE_OFFSET);
                   Node.label := Node.label node;
                   Node.selected := false |} :: l)
      | _, _ => None
      end
  end.

Fixpoint newEdges (generateEdgeId : nat -> jsstring) (nodeIdMap : properties)
         (copied : list Edge.t) (calls : nat) : option (list Edge.t) :=
  match copied with
  | [] => Some []
  | edge :: rest =>
      match read nodeIdMap (Edge.source edge),
            read nodeIdMap (Edge.target edge),
            newEdges generateEdgeId nodeIdMap rest (S calls) with
      | Some a, Some b, Some l =>
          Some ({| Edge.id := generateEdgeId calls;
                   Edge.source := a; Edge.target := b;
                   Edge.selected := false |} :: l)
      | _, _, _ => None
      end
  end.

(** [pasteSelected]; the result is nothing when a read of [nodeIdMap]
    gives no string, where the model ends. *)
Definition pasteSelected (generateNodeId generateEdgeId : nat -> jsstring)
           (s : flow) : option flow :=
  if Nat.eqb (length (copiedNodes s)) 0 then Some s
  else if negb (reactFlowInstance s) then Some s
  else
    let nodeIdMap := fill generateNodeId (copiedNodes s) 0 [] in
    match newNodes nodeIdMap (copiedNodes s),
          newEdges generateEdgeId nodeIdMap (copiedEdges s) 0 with
    | Some nn, Some ne =>
        Some {| nodes := nodes s ++ nn; edges := edges s ++ ne;
                copiedNodes := copiedNodes s; copiedEdges := copiedEdges s;
                reactFlowInstance := reactFlowInstance s |}
    | _, _ => None
    end.

End CopyPaste.

(** ** Occurrences of a keyword *)

(** Whether the characters [l] occur in [s], at any position. *)
Fixpoint contains (l s : jsstring) : bool :=
  match strip_prefix l s with
  | Some _ => true
  | None =>
      match s with
      | [] => false
      | _ :: s' => contains l s'
      end
  end.

(** Patterns without groups leave the captures as they are. *)
Fixpoint group_free (r : regex) : bool :=
  match r with
  | Grp _ _ => false
  | Opt r1 => group_free r1
  | Seq r1 r2 | Alt r1 r2 => group_free r1 && group_free r2
  | _ => true
  end.

(** A name: one or more word characters. *)
Definition is_name (w : jsstring) : Prop :=
  w <> [] /\ forallb is_word w = true.

(** ** Flows for the instances *)

(** A flow of three nodes in a chain, the first two of them selected. *)
Definition chain_nodes : list Node.t :=
  [ Node.mk (js "1") (Number.of_Z 100, Number.of_Z 100)
            (Flow.node_label (js "1")) true;
    Node.mk (js "2") (Number.of_Z 300, Number.of_Z 100)
            (Flow.node_label (js "2")) true;
    Node.mk (js "3") (Number.of_Z 200, Number.of_Z 250)
            (Flow.node_label (js "3")) false ].

Definition chain_edges : list Edge.t :=
  [ Edge.mk (js "e1-2") (js "1") (js "2") false;
    Edge.mk (js "e2-3") (js "2") (js "3") false ].

Definition second : Node.t :=
  Node.mk (js "2") (Number.of_Z 300, Number.of_Z 100)
          (Flow.node_label (js "2")) true.

Definition numeral (prefix : string) (i : nat) : jsstring :=
  js prefix ++ digits (Z.of_nat i).

(** Where the text goes on with a character outside the class, or ends. *)
Definition stops (p : jschar -> bool) (s : jsstring) : Prop :=
  match s with
  | [] => True
  | c :: _ => p c = false
  end.

(** * Properties *)

(** ** Equality of strings *)

Lemma jseqb_spec (a b : jsstring) : jseqb a b = true <-> a = b.
Proof.
  revert b; induction a as [|x a IH]; intros [|y b]; simpl;
    try (split; [discriminate | discriminate]); try tauto.
  rewrite andb_true_iff, N.eqb_eq, IH.
  split; [intros [-> ->]; reflexivity | intros H; injection H; auto].
Qed.

Lemma jseqb_refl (a : jsstring) : jseqb a a = true.
Proof. apply jseqb_spec; reflexivity. Qed.

Lemma jseqb_neq (a b : jsstring) : jseqb a b = false <-> a <> b.
Proof.
  split.
  - intros H E. apply jseqb_spec in E. congruence.
  - intros H. destruct (jseqb a b) eqn:E; [|reflexivity].
    apply jseqb_spec in E. contradiction.
Qed.


(** ** The rewriter *)

Section RewriterFacts.

(** When the matcher succeeds, its continuation has succeeded. *)
Lemma star_inv R (p : jschar -> bool) (s : jsstring)
      (k : jsstring -> option R) (x : R) :
  star p s k = Some x ->
  exists s', k s' = Some x /\ length s' <= length s.
Proof.
  induction s as [|c s IH]; simpl.
  - intros E. exists []. auto.
  - destruct (p c).
    + destruct (star p s k) as [y|] eqn:E.
      * intros [= <-]. destruct (IH eq_refl) as (s' & K & L).
        exists s'. split; [exact K | lia].
      * intros K. exists (c :: s). auto.
    + intros K. exists (c :: s). auto.
Qed.

Lemma rmatch_inv R (r : regex) :
  forall (s : jsstring) (caps : captures)
         (k : jsstring -> captures -> option R) (x : R),
    rmatch r s caps k = Some x ->
    exists s' caps', k s' caps' = Some x.
Proof.
  induction r as [l|p|p|p|r1 IH1|r1 IH1 r2 IH2|r1 IH1 r2 IH2|i r1 IH1|ml];
    intros s caps k x; simpl.
  - destruct (strip_prefix l s); [eauto | discriminate].
  - destruct s as [|c s]; [discriminate|].
    destruct (p c); [eauto | discriminate].
  - intros E. apply star_inv in E. destruct E as (s' & E & _). eauto.
  - destruct s as [|c s]; [discriminate|].
    destruct (p c); [|discriminate].
    intros E. apply star_inv in E. destruct E as (s' & E & _). eauto.
  - destruct (rmatch r1 s caps k) as [y|] eqn:E.
    + intros [= <-]. eapply IH1; eassumption.
    + eauto.
  - intros E. apply IH1 in E. destruct E as (s1 & c1 & E). eapply IH2; eassumption.
  - destruct (rmatch r1 s caps k) as [y|] eqn:E.
    + intros [= <-]. eapply IH1; eassumption.
    + apply IH2.
  - intros E. apply IH1 in E. destruct E as (s1 & c1 & E). eauto.
  - destruct (at_eol ml s); [eauto | discriminate].
Qed.

Lemma rmatch_seq R (a b : regex) (s : jsstring) (caps : captures)
      (k : jsstring -> captures -> option R) :
  rmatch (Seq a b) s caps k
  = rmatch a s caps (fun s' caps' => rmatch b s' caps' k).
Proof. reflexivity. Qed.

Lemma firstn_not_empty (c : jschar) (rest s' : jsstring) :
  length s' <= length rest ->
  firstn (length (c :: rest) - length s') (c :: rest) <> [].
Proof.
  intros L. change (length (c :: rest)) with (S (length rest)).
  replace (S (length rest) - length s') with (S (length rest - length s'))
    by lia.
  cbn [firstn]. discriminate.
Qed.

(** The name captured by [export default function|const|class Name] has at
    least one character. *)
Lemma declared_name_at (keyword : string) (s : jsstring) (n : nat)
      (m : captures) :
  match_at (re_export_default_decl keyword) s = Some (n, m) ->
  group 1 m <> [].
Proof.
  unfold match_at, re_export_default_decl. intros E.
  do 6 (rewrite rmatch_seq in E; apply rmatch_inv in E;
        destruct E as (? & ? & E)).
  unfold word in E. simpl in E.
  destruct x9 as [|c rest]; [discriminate|].
  destruct (is_word c); [|discriminate].
  apply star_inv in E. destruct E as (s' & E & L).
  injection E as _ <-.
  exact (@firstn_not_empty c rest s' L).
Qed.

Lemma declared_name (keyword : string) (s : jsstring) (m : captures) :
  exec (re_export_default_decl keyword) s = Some m -> group 1 m <> [].
Proof.
  induction s as [|c s IH]; cbn [exec].
  - destruct (match_at (re_export_default_decl keyword) [])
      as [[n m']|] eqn:E; [|discriminate].
    intros [= <-]. eapply declared_name_at; eassumption.
  - destruct (match_at (re_export_default_decl keyword) (c :: s))
      as [[n m']|] eqn:E; [|exact IH].
    intros [= <-]. eapply declared_name_at; eassumption.
Qed.

Lemma truthy_name_some (w : jsstring) : w <> [] -> truthy_name (Some w) = true.
Proof. destruct w; [contradiction | reflexivity]. Qed.

Lemma name_after_decl (keyword : string) (st : rewritten) :
  defaultExportName (exportDefaultDecl keyword st)
  = match exec (re_export_default_decl keyword) (processedCode st) with
    | Some m => Some (group 1 m)
    | None => defaultExportName st
    end.
Proof.
  unfold exportDefaultDecl.
  destruct (exec (re_export_default_decl keyword) (processedCode st));
    reflexivity.
Qed.

Lemma decl_unchanged (keyword : string) (st : rewritten) :
  exec (re_export_default_decl keyword) (processedCode st) = None ->
  exportDefaultDecl keyword st = st.
Proof. intros E. unfold exportDefaultDecl. rewrite E. reflexivity. Qed.

Lemma name_after_expr (st : rewritten) :
  defaultExportName (exportDefaultExpr st)
  = if truthy_name (defaultExportName st) then defaultExportName st
    else match exec (re_export_default_expr false) (processedCode st) with
         | Some m => Some (group 1 m)
         | None => defaultExportName st
         end.
Proof.
  unfold exportDefaultExpr.
  destruct (exec (re_export_default_expr false) (processedCode st));
    destruct (truthy_name (defaultExportName st)); reflexivity.
Qed.

(** C4, counterexample: in [two_defaults] the function pattern matches
    first, in the text and in the order of the steps, and captures [A]; the
    class pattern matches too; the name recorded is [B]. *)
Lemma a_later_default_export_wins :
  option_map (group 1) (exec (re_export_default_decl "function") two_defaults)
  = Some (js "A")
  /\ option_map (group 1) (exec (re_export_default_decl "class") two_defaults)
     = Some (js "B")
  /\ first_recognized two_defaults = Some (js "A")
  /\ defaultExportName (rewrite two_defaults) = Some (js "B")
  /\ processedCode (rewrite two_defaults)
     = js "function A(){}" ++ [10%N] ++ js "class B{}".
Proof. repeat split; vm_compute; reflexivity. Qed.

(** C4, amended: of the three declaration patterns, tried in the order
    function, const, class, each one that matches assigns the name, so that
    the last one that matches determines it; the trailing identifier pattern
    determines the name only when none of the three has matched. *)
Theorem last_declaration_default_wins (processed : jsstring) :
  defaultExportName (rewriteExports processed)
  = match exec (re_export_default_decl "class")
                (processedCode (afterConst processed)) with
    | Some m => Some (group 1 m)
    | None =>
        match exec (re_export_default_decl "const")
                   (processedCode (afterFunction processed)) with
        | Some m => Some (group 1 m)
        | None =>
            match exec (re_export_default_decl "function") processed with
            | Some m => Some (group 1 m)
            | None =>
                match exec (re_export_default_expr false) processed with
                | Some m => Some (group 1 m)
                | None => None
                end
            end
        end
    end.
Proof.
  change (defaultExportName (rewriteExports processed))
    with (defaultExportName (exportDefaultExpr (afterClass processed))).
  rewrite name_after_expr.
  unfold afterClass. rewrite name_after_decl.
  destruct (exec (re_export_default_decl "class")
                 (processedCode (afterConst processed))) as [m3|] eqn:E3.
  { rewrite truthy_name_some by (eapply declared_name; eassumption).
    reflexivity. }
  rewrite (decl_unchanged _ _ E3).
  unfold afterConst. rewrite name_after_decl.
  destruct (exec (re_export_default_decl "const")
                 (processedCode (afterFunction processed))) as [m2|] eqn:E2.
  { rewrite truthy_name_some by (eapply declared_name; eassumption).
    reflexivity. }
  rewrite (decl_unchanged _ _ E2).
  unfold afterFunction. rewrite name_after_decl. cbn [processedCode].
  destruct (exec (re_export_default_decl "function") processed)
    as [m1|] eqn:E1.
  { rewrite truthy_name_some by (eapply declared_name; eassumption).
    reflexivity. }
  rewrite decl_unchanged by exact E1. reflexivity.
Qed.

End RewriterFacts.

(** ** The callback over any host *)

Section Callback.
Variable fn : Type.
Variable H : host fn.
Variable OriginalComponent : value.

Abbreviation recompile := (recompile H OriginalComponent).
Abbreviation step := (step H OriginalComponent).
Abbreviation render := (render H OriginalComponent).
Abbreviation reachable := (reachable H OriginalComponent).
Abbreviation skips := (skips OriginalComponent).
Abbreviation consistent := (@consistent fn OriginalComponent).


Lemma typeof_heap (v : value) (h h' : heap fn) (t : jsstring) :
  typeof fn v h = Return h' t -> h' = h.
Proof.
  destruct v; simpl; unfold ret; try (intros E; injection E; auto; fail).
  destruct (nth_error h a); [|discriminate].
  intros E; injection E; auto.
Qed.


(** The four ways of the callback. *)
Lemma recompile_skipped (code t : jsstring) (h : heap fn) :
  skips code t = true ->
  recompile code t h
  = Return h (Skipped, {| component := OriginalComponent; error := VNull |}).
Proof. intros E. unfold Recompiler.recompile. rewrite E. reflexivity. Qed.

Lemma recompile_succeeded (code t : jsstring) (h h' : heap fn) (c : value) :
  skips code t = false ->
  pipeline H t h = Return h' c ->
  recompile code t h
  = Return h' (Succeeded, {| component := c; error := VNull |}).
Proof.
  intros E P. unfold Recompiler.recompile, try_catch, bind.
  rewrite E, P. reflexivity.
Qed.

Lemma recompile_failed (code t : jsstring) (h h' h'' : heap fn)
      (v m : value) :
  skips code t = false ->
  pipeline H t h = Throw h' v ->
  get_ H v (js "message") h' = Return h'' m ->
  recompile code t h
  = Return h'' (Failed, {| component := OriginalComponent; error := m |}).
Proof.
  intros E P G. unfold Recompiler.recompile, try_catch, bind.
  rewrite E, P, G. reflexivity.
Qed.

Lemma recompile_escapes (code t : jsstring) (h h' h'' : heap fn)
      (v e : value) :
  skips code t = false ->
  pipeline H t h = Throw h' v ->
  get_ H v (js "message") h' = Throw h'' e ->
  recompile code t h = Throw h'' e.
Proof.
  intros E P G. unfold Recompiler.recompile, try_catch, bind.
  rewrite E, P, G. reflexivity.
Qed.

(** In the model a read is the read of a data property and runs no code:
    it throws only on [undefined] and [null].  (The model has no
    accessors; in the engine the read of one can throw on an object.) *)
Lemma get_throws hg (v : value) (k : jsstring) (h h' : heap fn) (e : value) :
  get fn hg v k h = Throw h' e -> v = VUndefined \/ v = VNull.
Proof.
  destruct v; simpl; unfold ret, stuck; auto; try discriminate.
  - destruct (nth_error h a) as [o|]; [|discriminate].
    destruct (call o).
    + destruct (lookup k (props o)); [discriminate|].
      match goal with |- context [if ?b then _ else _] => destruct b end;
        discriminate.
    + discriminate.
  - destruct (hg name k); discriminate.
Qed.

(** When the callback throws, then in the model the pipeline threw
    [undefined] or [null], and the handler threw while it read the
    message. *)
Lemma recompile_throws (code t : jsstring) (h h'' : heap fn) (e : value) :
  recompile code t h = Throw h'' e ->
  exists h' v,
    pipeline H t h = Throw h' v /\ (v = VUndefined \/ v = VNull).
Proof.
  unfold Recompiler.recompile.
  destruct (skips code t); [discriminate|].
  unfold try_catch, bind.
  destruct (pipeline H t h) as [h' c|h' v|] eqn:P; try discriminate.
  destruct (get_ H v (js "message") h') as [h1 m|h1 e1|] eqn:G;
    try discriminate.
  intros _. exists h', v. split; [reflexivity|].
  eapply get_throws; eassumption.
Qed.

Lemma recompile_nullish (code t : jsstring) (h h' : heap fn) (v : value) :
  skips code t = false ->
  pipeline H t h = Throw h' v ->
  v = VUndefined \/ v = VNull ->
  recompile code t h
  = Throw (h' ++ [{| props := [(js "message",
                                VString (type_error_read v (js "message")));
                               (js "name", VString (js "TypeError"))];
                     call := None |}])
          (VObject (length h')).
Proof.
  intros K P N. unfold Recompiler.recompile, try_catch, bind.
  rewrite K, P. destruct N as [-> | ->]; reflexivity.
Qed.

(** The empty text and the loaded text are skipped. *)
Lemma skips_empty (code : jsstring) : skips code [] = true.
Proof.
  unfold Recompiler.skips. simpl. rewrite orb_true_r. reflexivity.
Qed.

Lemma skips_same (code : jsstring) : skips code code = true.
Proof. unfold Recompiler.skips. rewrite jseqb_refl. apply orb_true_r. Qed.

(** *** The session *)

Lemma render_consistent (s s' : session fn) :
  (forall e c r, memo s = Some (e, c, r) ->
                 e = editedCode s -> c = code s -> consistent s) ->
  render s = Rendered s' -> consistent s'.
Proof.
  intros Hs. unfold Recompiler.render.
  assert (Hrec :
    match Recompiler.recompile H OriginalComponent (code s) (editedCode s)
            (store s) with
    | Return h (p, r) =>
        Rendered
          {| store := h; code := code s; editedCode := editedCode s;
             memo := Some (editedCode s, code s, r);
             pipelineRuns := match p with
                             | Skipped => pipelineRuns s
                             | _ => S (pipelineRuns s)
                             end;
             lastSuccess := match p with
                            | Succeeded => Some (editedCode s, component r)
                            | _ => lastSuccess s
                            end |}
    | Throw _ v => Crashed fn v
    | Stuck => Hung fn
    end = Rendered s' -> consistent s').
  { unfold Recompiler.recompile.
    destruct (skips (code s) (editedCode s)) eqn:E.
    - simpl. intros R; injection R as <-. exists (mkResult OriginalComponent VNull).
      simpl. auto.
    - unfold try_catch, bind.
      destruct (pipeline H (editedCode s) (store s)) as [h c|h v|]; simpl.
      + intros R; injection R as <-. eexists; simpl.
        split; [reflexivity|]. split; [congruence | right; reflexivity].
      + destruct (get_ H v (js "message") h) as [h' m|h' e|]; simpl;
          try discriminate.
        intros R; injection R as <-. eexists; simpl.
        split; [reflexivity|]. split; [congruence | left; reflexivity].
      + discriminate. }
  destruct (memo s) as [[[e c] r]|] eqn:M; [|exact Hrec].
  destruct (jseqb e (editedCode s) && jseqb c (code s)) eqn:D; [|exact Hrec].
  apply andb_true_iff in D. destruct D as [D1 D2].
  apply jseqb_spec in D1, D2.
  intros R; injection R as <-. eapply Hs; eauto.
Qed.

Lemma apply_memo (ev : event) (s : session fn) :
  memo (apply ev s) = memo s /\ lastSuccess (apply ev s) = lastSuccess s
  /\ pipelineRuns (apply ev s) = pipelineRuns s /\ store (apply ev s) = store s.
Proof. destruct ev; simpl; auto. Qed.

Lemma reachable_consistent (s : session fn) : reachable s -> consistent s.
Proof.
  induction 1 as [s R | s ev s' R IH S].
  - apply render_consistent with (s := initial fn); [|exact R].
    simpl. discriminate.
  - apply render_consistent with (s := apply ev s); [|exact S].
    destruct IH as (r & M & K & L).
    intros e c r' M' -> ->.
    destruct (apply_memo ev s) as (A1 & A2 & _).
    rewrite A1, M in M'. injection M' as E1 E2 <-.
    exists r. rewrite A1, A2, M, <- E1, <- E2.
    split; [reflexivity|]. split; assumption.
Qed.

(** An edit to a text that is skipped: no run of the pipeline, the original
    component, no error. *)
Lemma step_skipped (s : session fn) (t : jsstring) :
  reachable s ->
  skips (code s) t = true ->
  exists s',
    step (Edited t) s = Rendered s'
    /\ displayed s' = Some {| component := OriginalComponent; error := VNull |}
    /\ pipelineRuns s' = pipelineRuns s.
Proof.
  intros R K. destruct (reachable_consistent R) as (r & M & Kr & _).
  unfold Recompiler.step, Recompiler.render. simpl. rewrite M.
  rewrite recompile_skipped by exact K.
  destruct (jseqb (editedCode s) t && jseqb (code s) (code s)) eqn:D.
  - apply andb_true_iff in D. destruct D as [D _].
    apply jseqb_spec in D. subst t.
    eexists. split; [reflexivity|].
    unfold displayed. simpl. rewrite (Kr K). auto.
  - eexists. split; [reflexivity|]. unfold displayed. simpl. auto.
Qed.

Lemma run_reachable (evs : list event) (s s' : session fn) :
  reachable s ->
  run H OriginalComponent evs s = Rendered s' ->
  reachable s'.
Proof.
  revert s. induction evs as [|ev evs IH]; simpl; intros s R E.
  - injection E as <-. exact R.
  - destruct (Recompiler.step H OriginalComponent ev s) as [s1| |] eqn:S;
      try discriminate.
    apply (IH s1); [|exact E].
    eapply reachable_step; eassumption.
Qed.

Lemma play_reachable (evs : list event) (s : session fn) :
  play H OriginalComponent evs = Rendered s -> reachable s.
Proof.
  unfold play.
  destruct (Recompiler.render H OriginalComponent (initial fn)) as [s0| |] eqn:R;
    try discriminate.
  apply run_reachable. apply reachable_first. exact R.
Qed.

(** An edit to a new text whose pipeline throws a value with a readable
    message. *)
Lemma step_failed (s : session fn) (t : jsstring) (h' h'' : heap fn)
      (v m : value) :
  reachable s ->
  skips (code s) t = false ->
  t <> editedCode s ->
  pipeline H t (store s) = Throw h' v ->
  get_ H v (js "message") h' = Return h'' m ->
  step (Edited t) s
  = Rendered {| store := h''; code := code s; editedCode := t;
                memo := Some (t, code s,
                              {| component := OriginalComponent; error := m |});
                pipelineRuns := S (pipelineRuns s);
                lastSuccess := lastSuccess s |}.
Proof.
  intros R K N P G. destruct (reachable_consistent R) as (r & M & _).
  unfold Recompiler.step, Recompiler.render. simpl. rewrite M.
  assert (D : jseqb (editedCode s) t = false)
    by (apply jseqb_neq; congruence).
  rewrite D. simpl.
  rewrite (recompile_failed _ _ _ K P G). reflexivity.
Qed.

(** An edit to the text of the last render: [useMemo] returns what it
    holds. *)
Lemma step_unchanged (s : session fn) :
  reachable s -> step (Edited (editedCode s)) s = Rendered s.
Proof.
  intros R. destruct (reachable_consistent R) as (r & M & _).
  unfold Recompiler.step, Recompiler.render. simpl. rewrite M.
  rewrite !jseqb_refl. simpl. destruct s; simpl in *. rewrite M. reflexivity.
Qed.

(** [requireFn] on a name that [moduleMap] has not, own or inherited. *)
Lemma requireFn_absent (reactDom : value) (name : jsstring) (h : heap fn) :
  get_property (moduleMap reactDom) name = VUndefined ->
  requireFn (moduleMap reactDom) (VString name) h
  = Throw (h ++ [{| props := [(js "message",
                               VString (js "Cannot find module: " ++ name));
                              (js "name", VString (js "Error"))];
                    call := None |}])
          (VObject (length h)).
Proof.
  intros E. unfold requireFn. simpl. rewrite E. reflexivity.
Qed.

(** Whatever Babel prints for a text with a default export, the statement
    that sets [module.exports.default] follows it. *)
Lemma compile_default_function (h h' : heap fn) (out : jsstring) :
  transform H (js "function Widget(){ return 1 }") h = Return h' out ->
  compile H (js "export default function Widget(){ return 1 }") h
  = Return h' (out ++ exportDefaultStatement (js "Widget")).
Proof.
  intros T. unfold compile, bind.
  assert (R : rewrite (js "export default function Widget(){ return 1 }")
              = {| processedCode := js "function Widget(){ return 1 }";
                   defaultExportName := Some (js "Widget") |})
    by (vm_compute; reflexivity).
  rewrite R. cbn [processedCode defaultExportName]. rewrite T. reflexivity.
Qed.

(** C10: for the empty edited text, and for an edited text equal to the
    loaded text (as it is before any edit), the callback returns the original
    component and no error without entering the [try] block, whatever the
    host; so does the first render; and from every state of a session,
    emptying the editor renders the original component with no error and
    leaves the count of pipeline runs as it was. *)
Theorem empty_text_skips_the_pipeline (code : jsstring) (h : heap fn) :
  recompile code [] h
  = Return h (Skipped, {| component := OriginalComponent; error := VNull |})
  /\ recompile code code h
     = Return h (Skipped, {| component := OriginalComponent; error := VNull |})
  /\ (exists s0,
        render (initial fn) = Rendered s0
        /\ displayed s0
           = Some {| component := OriginalComponent; error := VNull |}
        /\ pipelineRuns s0 = 0)
  /\ (forall s,
        reachable s ->
        exists s',
          step (Edited []) s = Rendered s'
          /\ displayed s'
             = Some {| component := OriginalComponent; error := VNull |}
          /\ pipelineRuns s' = pipelineRuns s).
Proof.
  split; [apply recompile_skipped, skips_empty|].
  split; [apply recompile_skipped, skips_same|].
  split.
  - unfold Recompiler.render. simpl.
    rewrite recompile_skipped by apply skips_empty.
    eexists. split; [reflexivity|]. split; reflexivity.
  - intros s R. apply step_skipped; [exact R | apply skips_empty].
Qed.


(** C5, amended: an edit to the originally loaded text runs no pipeline and
    shows the original component with no error; an edit that leaves the text
    of the last render as it is recomputes nothing and changes nothing. *)
Theorem unchanged_text_is_not_recompiled (s : session fn) :
  reachable s ->
  (exists s',
     step (Edited (code s)) s = Rendered s'
     /\ displayed s' = Some {| component := OriginalComponent; error := VNull |}
     /\ pipelineRuns s' = pipelineRuns s)
  /\ step (Edited (editedCode s)) s = Rendered s.
Proof.
  intros R. split.
  - apply step_skipped; [exact R | apply skips_same].
  - apply step_unchanged, R.
Qed.


End Callback.

(** ** The texts of the specification, on the MiniJS host *)

Section Examples.

Abbreviation host := MiniJS.host.



(** C2, the failing input: the edited text [throw null].  The pipeline
    throws [null]; the handler reads [error.message] of it, which throws a
    TypeError, and this one leaves the callback. *)
Theorem throw_null_escapes_the_callback :
  let o := useMemoCallback host BasicNodes loaded throw_null [] in
  thrown (pipeline host throw_null []) = Some VNull
  /\ thrown o = Some (VObject 4)
  /\ returned (get_ host (VObject 4) (js "message") (heap_after o))
     = Some (VString (js "Cannot read properties of null (reading 'message')")).
Proof. repeat split; vm_compute; reflexivity. Qed.

(** C6, the failing input: from the state after the example is loaded, the
    edit [throw null] makes the render throw: the page gets no component and
    no error to show.  (The defect is that of C2.) *)
Theorem throw_null_crashes_the_render :
  let s := after host BasicNodes [Loaded loaded] in
  play host BasicNodes [Loaded loaded] = Rendered s
  /\ displayed s = Some {| component := BasicNodes; error := VNull |}
  /\ step host BasicNodes (Edited throw_null) s = Crashed MiniJS.func (VObject 4).
Proof. repeat split; vm_compute; reflexivity. Qed.

(** In every state a render has produced, the component shown is the original one or the one the
    last successful run of the pipeline produced from the current text. *)
Lemma shown_component_has_succeeded fn (H : Recompiler.host fn)
      (OriginalComponent : value) (s : session fn) :
  reachable H OriginalComponent s ->
  exists r,
    displayed s = Some r
    /\ (component r = OriginalComponent
        \/ lastSuccess s = Some (editedCode s, component r)).
Proof.
  intros R. destruct (reachable_consistent R) as (r & M & _ & L).
  exists r. unfold displayed. rewrite M. auto.
Qed.

(** C7, the failing input: the module name [constructor] is not in
    [moduleMap], and [requireFn] returns for it what the object literal
    inherits, the function [Object], for every host.  On the MiniJS host, the
    edited text that imports it fails, with the message that the component
    must be a function and not with [Cannot find module: constructor]. *)
Theorem inherited_names_resolve :
  lookup (js "constructor") (moduleMap VNull) = None
  /\ (forall fn (H : Recompiler.host fn) (reactDom : value) (h : heap fn),
        requireFn (moduleMap reactDom) (VString (js "constructor")) h
        = Return h (VHost (js "Object") true))
  /\ returned (recompile host BasicNodes loaded import_constructor [])
     = Some (Failed, {| component := BasicNodes;
                        error := VString not_a_function_message |}).
Proof.
  split; [reflexivity|]. split; [reflexivity|]. vm_compute. reflexivity.
Qed.

(** A name that is neither in [moduleMap] nor inherited: the text that
    imports [nonexistent-module] fails with [Cannot find module:
    nonexistent-module]. *)
Lemma missing_module_diagnostic :
  returned (recompile host BasicNodes loaded missing_module [])
  = Some (Failed,
          {| component := BasicNodes;
             error := VString (js "Cannot find module: nonexistent-module") |}).
Proof. vm_compute. reflexivity. Qed.



(** C9: for the text [export default function Widget(){ return 1 }] the
    rewriter leaves the plain declaration and records the name [Widget]; the
    compiled text is Babel's output followed by the guarded statement that
    assigns [Widget] to [module.exports.default]; the pipeline returns a
    function, and its call returns 1. *)
Theorem default_function_is_captured :
  rewrite widget
  = {| processedCode := js "function Widget(){ return 1 }";
       defaultExportName := Some (js "Widget") |}
  /\ returned (transform host (js "function Widget(){ return 1 }") [])
     = Some (js "function Widget() {" ++ [10%N] ++ js "  return 1;" ++ [10%N]
             ++ js "}")
  /\ returned (compile host widget [])
     = Some (js "function Widget() {" ++ [10%N] ++ js "  return 1;" ++ [10%N]
             ++ js "}" ++ [10%N] ++
             js "if (typeof Widget !== 'undefined') { module.exports.default = Widget; }")
  /\ (let o := pipeline host widget [] in
      returned o = Some (VObject 4)
      /\ returned (typeof MiniJS.func (VObject 4) (heap_after o))
         = Some (js "function")
      /\ returned (MiniJS.call (VObject 4) [] (heap_after o))
         = Some (VNumber 1)).
Proof. repeat split; vm_compute; reflexivity. Qed.

(** C10, witness: a state of a session, after the example is loaded and
    edited, from which the editor is emptied. *)
Lemma empty_text_skips_the_pipeline_witness :
  let s := after host BasicNodes [Loaded loaded; Edited widget] in
  exists s',
    step host BasicNodes (Edited []) s = Rendered s'
    /\ displayed s' = Some {| component := BasicNodes; error := VNull |}
    /\ pipelineRuns s' = pipelineRuns s.
Proof.
  intros s.
  apply (proj2 (proj2 (proj2
           (empty_text_skips_the_pipeline host BasicNodes loaded [])))).
  apply play_reachable with (evs := [Loaded loaded; Edited widget]).
  vm_compute. reflexivity.
Defined.

(** C5, counterexample: [widget] compiles, then [not_a_component] fails;
    the text last successfully compiled is [widget]; an edit back to it runs
    the pipeline a third time and changes what is shown. *)
Lemma last_success_is_compiled_again :
  let s := after host BasicNodes
                 [Loaded loaded; Edited widget; Edited not_a_component] in
  play host BasicNodes [Loaded loaded; Edited widget; Edited not_a_component]
  = Rendered s
  /\ last_success_text s = widget
  /\ pipelineRuns s = 2
  /\ displayed s = Some {| component := BasicNodes;
                           error := VString not_a_function_message |}
  /\ (exists s',
        step host BasicNodes (Edited widget) s = Rendered s'
        /\ pipelineRuns s' = 3
        /\ displayed s' = Some {| component := VObject 14; error := VNull |}).
Proof.
  repeat split; try (vm_compute; reflexivity).
  eexists. split; [vm_compute; reflexivity|]. split; reflexivity.
Qed.

(** C5, witness: the state above is a state of a session. *)
Lemma unchanged_text_is_not_recompiled_witness :
  let s := after host BasicNodes
                 [Loaded loaded; Edited widget; Edited not_a_component] in
  (exists s',
     step host BasicNodes (Edited (code s)) s = Rendered s'
     /\ displayed s' = Some {| component := BasicNodes; error := VNull |}
     /\ pipelineRuns s' = pipelineRuns s)
  /\ step host BasicNodes (Edited (editedCode s)) s = Rendered s.
Proof.
  intros s. apply unchanged_text_is_not_recompiled.
  apply play_reachable
    with (evs := [Loaded loaded; Edited widget; Edited not_a_component]).
  vm_compute. reflexivity.
Defined.

(** C3, counterexample: when the default export of the stub module is
    [null], a falsy value, the rewritten line binds [Foo] to the module
    object (address 0), not to [null] as an import would. *)
Lemma falsy_default_binds_the_module :
  let rho := bindings (processedCode (rewrite mixed_import)) VNull in
  bound "Foo" rho = Some (MiniJS.Bound (VObject 0))
  /\ bound "Foo" rho <> Some (MiniJS.Bound VNull)
  /\ bound "a" rho = Some (MiniJS.Bound (VNumber 1))
  /\ bound "b" rho = Some (MiniJS.Bound (VNumber 2)).
Proof.
  repeat split; try (vm_compute; reflexivity). vm_compute. discriminate.
Qed.

(** C3, amended: the combined import is rewritten into a default binding
    with the fallback and a destructured binding, each from [require('m')];
    run against the stub registry with a truthy default export [X], the line
    binds [Foo] to [X], [a] to 1 and [b] to 2. *)
Theorem mixed_import_bindings (X : value) :
  truthy X = true ->
  processedCode (rewrite mixed_import)
  = js "const Foo = require('m').default || require('m'); const { a, b } = require('m')"
  /\ (let rho := bindings (processedCode (rewrite mixed_import)) X in
      bound "Foo" rho = Some (MiniJS.Bound X)
      /\ bound "a" rho = Some (MiniJS.Bound (VNumber 1))
      /\ bound "b" rho = Some (MiniJS.Bound (VNumber 2))).
Proof.
  intros T. split; [vm_compute; reflexivity|].
  destruct X as [| |[|]|[|n|n]|[|c s]|a|name callable];
    try discriminate T; vm_compute; repeat split; reflexivity.
Qed.

(** C3, witness: a host function as default export is truthy. *)
Lemma mixed_import_bindings_witness :
  let rho := bindings (processedCode (rewrite mixed_import)) BasicNodes in
  bound "Foo" rho = Some (MiniJS.Bound BasicNodes)
  /\ bound "a" rho = Some (MiniJS.Bound (VNumber 1))
  /\ bound "b" rho = Some (MiniJS.Bound (VNumber 2)).
Proof.
  apply (proj2 (mixed_import_bindings BasicNodes eq_refl)).
Defined.

End Examples.

(** ** Texts without declarations, and the recorded name *)

Section RewriterFrame.

Lemma contains_false (l s : jsstring) :
  contains l s = false ->
  strip_prefix l s = None
  /\ match s with [] => True | _ :: s' => contains l s' = false end.
Proof.
  destruct s as [|c s]; simpl; destruct (strip_prefix l _);
    try discriminate; auto.
Qed.

(** A pattern that begins with a keyword matches only where it occurs. *)
Lemma match_at_keyword (l : jsstring) (r : regex) (s : jsstring) :
  strip_prefix l s = None -> match_at (Seq (Str l) r) s = None.
Proof. intros E. unfold match_at. cbn [rmatch]. rewrite E. reflexivity. Qed.

Lemma replace_absent (l : jsstring) (r : regex) (t : template)
      (s : jsstring) :
  contains l s = false -> replace (Seq (Str l) r) t s = s.
Proof.
  unfold replace. induction s as [|c s IH]; intros C;
    destruct (contains_false _ _ C) as [E C']; cbn [replace_from];
    rewrite (match_at_keyword _ _ _ E); [reflexivity|].
  rewrite IH by exact C'. reflexivity.
Qed.

Lemma exec_absent (l : jsstring) (r : regex) (s : jsstring) :
  contains l s = false -> exec (Seq (Str l) r) s = None.
Proof.
  induction s as [|c s IH]; intros C;
    destruct (contains_false _ _ C) as [E C']; cbn [exec];
    rewrite (match_at_keyword _ _ _ E); [reflexivity|].
  apply IH, C'.
Qed.

Lemma rewriteImports_absent (text : jsstring) :
  contains (js "import") text = false -> rewriteImports text = text.
Proof.
  intros C. unfold rewriteImports. cbv zeta.
  unfold re_css, re_mixed, re_namespace, re_named, re_default,
    re_side_effect, kw.
  rewrite !(fun r t => replace_absent _ r t _ C). reflexivity.
Qed.

Lemma rewriteExports_absent (text : jsstring) :
  contains (js "export") text = false ->
  rewriteExports text
  = {| processedCode := text; defaultExportName := None |}.
Proof.
  intros C. unfold rewriteExports, exportDefaultDecl, exportDefaultExpr.
  cbv zeta. cbn [processedCode defaultExportName].
  unfold re_export_default_decl, re_export_default_expr, re_export_named,
    re_export_list, re_export_default, kw.
  repeat (rewrite (fun r => exec_absent _ r _ C);
          cbn [processedCode defaultExportName]).
  rewrite !(fun r t => replace_absent _ r t _ C). reflexivity.
Qed.

(** X1: a text in which neither [import] nor [export] occurs goes through
    steps 0 to 6.7 unchanged, and no default export name is recorded. *)
Theorem rewrite_without_declarations (text : jsstring) :
  contains (js "import") text = false ->
  contains (js "export") text = false ->
  rewrite text = {| processedCode := text; defaultExportName := None |}.
Proof.
  intros I E. unfold rewrite. rewrite rewriteImports_absent by exact I.
  apply rewriteExports_absent, E.
Qed.

(** A greedy run of a class hands over what follows a prefix of the text
    whose characters are all in the class. *)
Lemma star_class R (p : jschar -> bool) (s : jsstring)
      (k : jsstring -> option R) (x : R) :
  star p s k = Some x ->
  exists n,
    k (skipn n s) = Some x /\ n <= length s
    /\ forallb p (firstn n s) = true.
Proof.
  induction s as [|c s IH]; cbn [star].
  - intros E. exists 0. auto.
  - destruct (p c) eqn:P.
    + destruct (star p s k) as [y|] eqn:E.
      * intros [= <-]. destruct (IH eq_refl) as (n & K & L & F).
        exists (S n). cbn [skipn firstn forallb length].
        rewrite P, F. repeat split; [exact K | lia].
      * intros K. exists 0. auto with arith.
    + intros K. exists 0. auto with arith.
Qed.

(** What a group around a repeated class captures. *)
Lemma plus_group R (i : nat) (p : jschar -> bool) (s : jsstring)
      (caps : captures) (k : jsstring -> captures -> option R) (x : R) :
  rmatch (Grp i (Plus p)) s caps k = Some x ->
  exists s' w,
    k s' ((i, w) :: caps) = Some x /\ w <> [] /\ forallb p w = true.
Proof.
  cbn [rmatch]. destruct s as [|c rest]; [discriminate|].
  destruct (p c) eqn:P; [|discriminate].
  intros E. apply star_class in E. destruct E as (n & K & L & F).
  exists (skipn n rest), (c :: firstn n rest).
  replace (length (c :: rest) - length (skipn n rest)) with (S n) in K
    by (rewrite length_skipn; cbn [length]; lia).
  cbn [firstn] in K. cbn [forallb]. rewrite P, F.
  repeat split; [exact K | discriminate].
Qed.

Lemma group_free_inv R (r : regex) :
  group_free r = true ->
  forall (s : jsstring) (caps : captures)
         (k : jsstring -> captures -> option R) (x : R),
    rmatch r s caps k = Some x -> exists s', k s' caps = Some x.
Proof.
  induction r as [l|p|p|p|r1 IH1|r1 IH1 r2 IH2|r1 IH1 r2 IH2|i r1 IH1|ml];
    cbn [group_free]; intros G s caps k x; cbn [rmatch];
    try (apply andb_prop in G; destruct G as [G1 G2]).
  - destruct (strip_prefix l s); [eauto | discriminate].
  - destruct s as [|c s]; [discriminate|].
    destruct (p c); [eauto | discriminate].
  - intros E. apply star_inv in E. destruct E as (s' & E & _). eauto.
  - destruct s as [|c s]; [discriminate|].
    destruct (p c); [|discriminate].
    intros E. apply star_inv in E. destruct E as (s' & E & _). eauto.
  - destruct (rmatch r1 s caps k) as [y|] eqn:E.
    + intros [= <-]. eapply IH1; eassumption.
    + eauto.
  - intros E. apply (IH1 G1) in E. destruct E as (s1 & E).
    eapply IH2; eassumption.
  - destruct (rmatch r1 s caps k) as [y|] eqn:E.
    + intros [= <-]. eapply IH1; eassumption.
    + apply (IH2 G2).
  - discriminate.
  - destruct (at_eol ml s); [eauto | discriminate].
Qed.

Lemma exec_at (r : regex) (s : jsstring) (m : captures) :
  exec r s = Some m -> exists s' n, match_at r s' = Some (n, m).
Proof.
  induction s as [|c s IH]; cbn [exec].
  - destruct (match_at r []) as [[n m']|] eqn:E; [|discriminate].
    intros [= <-]. eauto.
  - destruct (match_at r (c :: s)) as [[n m']|] eqn:E; [|exact IH].
    intros [= <-]. eauto.
Qed.

Lemma decl_name (keyword : string) (s : jsstring) (m : captures) :
  exec (re_export_default_decl keyword) s = Some m -> is_name (group 1 m).
Proof.
  intros E. apply exec_at in E. destruct E as (s' & n & E).
  unfold match_at, re_export_default_decl in E.
  do 6 (rewrite rmatch_seq in E; apply rmatch_inv in E;
        destruct E as (? & ? & E)).
  unfold word in E. apply plus_group in E.
  destruct E as (s'' & w & E & N & W).
  injection E as _ <-. split; assumption.
Qed.

Lemma expr_name (s : jsstring) (m : captures) :
  exec (re_export_default_expr false) s = Some m -> is_name (group 1 m).
Proof.
  intros E. apply exec_at in E. destruct E as (s' & n & E).
  unfold match_at, re_export_default_expr in E.
  do 4 (rewrite rmatch_seq in E; apply rmatch_inv in E;
        destruct E as (? & ? & E)).
  rewrite rmatch_seq in E. unfold word in E. apply plus_group in E.
  destruct E as (s'' & w & E & N & W).
  apply group_free_inv in E; [|reflexivity].
  destruct E as (s3 & E).
  injection E as _ <-. split; assumption.
Qed.

Lemma decl_keeps_name (keyword : string) (st : rewritten) :
  (forall w, defaultExportName st = Some w -> is_name w) ->
  forall w, defaultExportName (exportDefaultDecl keyword st) = Some w ->
            is_name w.
Proof.
  intros I w. rewrite name_after_decl.
  destruct (exec _ _) as [m|] eqn:E; [|apply I].
  intros [= <-]. eapply decl_name, E.
Qed.

(** X2: a default export name, when the preprocessing records one, is one
    or more word characters; so the guard of the appended statement holds
    for every recorded name, and the statement that sets
    [module.exports.default] is appended exactly when a name is recorded. *)
Theorem recorded_name_is_a_word (text out : jsstring) :
  (forall name,
      defaultExportName (rewrite text) = Some name ->
      name <> [] /\ forallb is_word name = true)
  /\ appendDefaultExport out (defaultExportName (rewrite text))
     = match defaultExportName (rewrite text) with
       | Some name => out ++ exportDefaultStatement name
       | None => out
       end.
Proof.
  assert (I : forall name,
             defaultExportName (rewrite text) = Some name -> is_name name).
  { unfold rewrite, rewriteExports. cbv zeta.
    cbn [defaultExportName]. intros name. rewrite name_after_expr.
    set (st := exportDefaultDecl "class" _).
    assert (D : forall w, defaultExportName st = Some w -> is_name w).
    { subst st. do 3 apply decl_keeps_name. discriminate. }
    destruct (truthy_name (defaultExportName st)); [apply D|].
    destruct (exec _ _) as [m|] eqn:E; [|apply D].
    intros [= <-]. eapply expr_name, E. }
  split; [exact I|].
  destruct (defaultExportName (rewrite text)) as [name|] eqn:E;
    [|reflexivity].
  destruct (I name eq_refl) as [N _].
  unfold appendDefaultExport. rewrite (truthy_name_some N). reflexivity.
Qed.

End RewriterFrame.

(** ** What the callback returns, and the reset button *)

Section CallbackResult.
Variable fn : Type.
Variable H : host fn.
Variable OriginalComponent : value.

Lemma exported_function (module c : value) (h h' : heap fn) :
  exported H module h = Return h' c ->
  typeof fn c h' = Return h' (js "function").
Proof.
  unfold exported, bind.
  destruct (get_ H module (js "exports") h) as [h1 me| |]; try discriminate.
  destruct (get_ H me (js "default") h1) as [h2 d| |]; try discriminate.
  set (m := if truthy d then ret d else get_ H module (js "exports")).
  destruct (m h2) as [h3 C| |]; try discriminate.
  destruct (typeof fn C h3) as [h4 type| |] eqn:T; try discriminate.
  pose proof (typeof_heap _ _ T) as ->.
  destruct (jseqb type (js "function")) eqn:J.
  - apply jseqb_spec in J. subst type. unfold ret. intros [= <- <-]. exact T.
  - unfold throw_error, new_error, new_object, alloc, bind, throw.
    discriminate.
Qed.

Lemma pipeline_function (t : jsstring) (c : value) (h h' : heap fn) :
  pipeline H t h = Return h' c ->
  typeof fn c h' = Return h' (js "function").
Proof.
  unfold pipeline, bind.
  destruct (compile H t h) as [h1 text| |]; try discriminate.
  destruct (execute H text h1) as [h2 module| |]; try discriminate.
  apply exported_function.
Qed.

(** X3: whatever the two libraries do, when the callback returns, then on
    the skipped way the heap is untouched and the result is the original
    component without an error; on the failed way the pipeline threw, the
    component is the original one and the error is what the read of
    [message] on the caught value gave; on the successful way the pipeline
    returned the component, there is no error, and the component is a
    function in the heap the callback leaves. *)
Theorem callback_returns_original_or_function
        (code t : jsstring) (h h' : heap fn) (p : path) (r : result) :
  recompile H OriginalComponent code t h = Return h' (p, r) ->
  match p with
  | Skipped =>
      skips OriginalComponent code t = true /\ h' = h
      /\ r = {| component := OriginalComponent; error := VNull |}
  | Failed =>
      skips OriginalComponent code t = false
      /\ component r = OriginalComponent
      /\ exists (h1 : heap fn) (caught : value),
           pipeline H t h = Throw h1 caught
           /\ get_ H caught (js "message") h1 = Return h' (error r)
  | Succeeded =>
      skips OriginalComponent code t = false
      /\ error r = VNull
      /\ pipeline H t h = Return h' (component r)
      /\ typeof fn (component r) h' = Return h' (js "function")
  end.
Proof.
  unfold recompile.
  destruct (skips OriginalComponent code t) eqn:S.
  - unfold ret. intros [= <- <- <-]. auto.
  - unfold try_catch, bind.
    destruct (pipeline H t h) as [h1 c|h1 v|] eqn:P; try discriminate.
    + unfold ret. intros [= <- <- <-]. cbn [error component].
      repeat split. eapply pipeline_function, P.
    + destruct (get_ H v (js "message") h1) as [h2 m| |] eqn:G;
        try discriminate.
      unfold ret. intros [= <- <- <-]. cbn [error component].
      split; [reflexivity|]. split; [reflexivity|].
      exists h1, v. split; [reflexivity | exact G].
Qed.

(** A render leaves the two texts of the page as they are. *)
Lemma render_texts (s s' : session fn) :
  render H OriginalComponent s = Rendered s' ->
  editedCode s' = editedCode s /\ code s' = code s.
Proof.
  unfold render.
  destruct (recompile H OriginalComponent (code s) (editedCode s) (store s))
    as [h1 [p1 r1]| |].
  - destruct (memo s) as [[[e0 c0] r0]|];
      [destruct (jseqb e0 (editedCode s) && jseqb c0 (code s))|];
      intros [= <-]; auto.
  - destruct (memo s) as [[[e0 c0] r0]|];
      [destruct (jseqb e0 (editedCode s) && jseqb c0 (code s))|];
      try discriminate; intros [= <-]; auto.
  - destruct (memo s) as [[[e0 c0] r0]|];
      [destruct (jseqb e0 (editedCode s) && jseqb c0 (code s))|];
      try discriminate; intros [= <-]; auto.
Qed.

(** X4: in every state of a session the reset button changes neither
    what the page shows, nor the count of pipeline runs, nor the text the
    page hands to the viewer; once the edited text is not empty it changes
    nothing at all, so it does not bring back the loaded text. *)
Theorem reset_keeps_the_edited_text (s : session fn) :
  reachable H OriginalComponent s ->
  (editedCode s <> [] ->
   step H OriginalComponent (CodeViewer.handleReset s) s = Rendered s)
  /\ exists s',
       step H OriginalComponent (CodeViewer.handleReset s) s = Rendered s'
       /\ displayed s' = displayed s
       /\ pipelineRuns s' = pipelineRuns s
       /\ CodeViewer.codeProp s' = CodeViewer.codeProp s.
Proof.
  intros R. unfold CodeViewer.handleReset, CodeViewer.codeProp.
  destruct (editedCode s) as [|c e] eqn:E; cbn [truthy].
  - split; [intros N; contradiction|].
    destruct (step_skipped (code s) R (skips_same _ _))
      as (s' & St & D & N).
    exists s'. repeat split; try assumption.
    + rewrite D. destruct (reachable_consistent R) as (r & M & K & _).
      unfold displayed. rewrite M. cbn [option_map snd]. f_equal.
      symmetry. apply K. rewrite E. apply skips_empty.
    + destruct (render_texts _ St) as [-> ->]. cbn [apply editedCode code].
      destruct (code s); reflexivity.
  - rewrite <- E.
    pose proof (step_unchanged R) as U.
    split; [intros _; exact U|].
    exists s. repeat split; [exact U|].
    rewrite E. reflexivity.
Qed.

Lemma recompile_original_or_clean
      (code t : jsstring) (h h' : heap fn) (p : path) (r : result) :
  recompile H OriginalComponent code t h = Return h' (p, r) ->
  component r = OriginalComponent \/ error r = VNull.
Proof.
  unfold recompile.
  destruct (skips OriginalComponent code t).
  - unfold ret. intros [= _ _ <-]. left. reflexivity.
  - unfold try_catch, bind.
    destruct (pipeline H t h) as [h1 c|h1 v|]; try discriminate.
    + unfold ret. intros [= _ _ <-]. right. reflexivity.
    + destruct (get_ H v (js "message") h1) as [h2 m| |];
        try discriminate.
      unfold ret. intros [= _ _ <-]. left. reflexivity.
Qed.

Lemma render_original_or_clean (s s' : session fn) :
  (forall r, displayed s = Some r ->
             component r = OriginalComponent \/ error r = VNull) ->
  render H OriginalComponent s = Rendered s' ->
  forall r, displayed s' = Some r ->
            component r = OriginalComponent \/ error r = VNull.
Proof.
  intros I. unfold render.
  destruct (recompile H OriginalComponent (code s) (editedCode s) (store s))
    as [h1 [p1 r1]| |] eqn:Rc.
  - apply recompile_original_or_clean in Rc.
    destruct (memo s) as [[[e0 c0] r0]|] eqn:M;
      [destruct (jseqb e0 (editedCode s) && jseqb c0 (code s))|];
      intros [= <-]; try exact I;
      unfold displayed; cbn [memo option_map snd]; intros r [= <-];
      exact Rc.
  - destruct (memo s) as [[[e0 c0] r0]|] eqn:M;
      [destruct (jseqb e0 (editedCode s) && jseqb c0 (code s))|];
      try discriminate; intros [= <-]; exact I.
  - destruct (memo s) as [[[e0 c0] r0]|] eqn:M;
      [destruct (jseqb e0 (editedCode s) && jseqb c0 (code s))|];
      try discriminate; intros [= <-]; exact I.
Qed.

(** In every state of a session the value [useMemo] holds has an error
    only together with the original component. *)
Lemma reachable_original_or_clean (s : session fn) :
  reachable H OriginalComponent s ->
  forall r,
    displayed s = Some r ->
    component r = OriginalComponent \/ error r = VNull.
Proof.
  intros R. induction R as [s R0|s ev s' R IH St].
  - apply (@render_original_or_clean (initial fn) s); [|exact R0].
    intros r. discriminate.
  - unfold step in St.
    apply (@render_original_or_clean (apply ev s) s'); [|exact St].
    intros r D. apply IH. rewrite <- D. unfold displayed.
    destruct (apply_memo ev s) as [-> _]. reflexivity.
Qed.

End CallbackResult.

(** ** The banner *)

Section PageFacts.
Import Page.
Variable fn : Type.
Variable H : host fn.
Variable OriginalComponent : value.

Lemma same_value_eq (a b : value) : same_value a b = true -> a = b.
Proof.
  destruct a, b; cbn [same_value]; try discriminate; intros E.
  - reflexivity.
  - reflexivity.
  - apply Bool.eqb_prop in E. congruence.
  - apply Z.eqb_eq in E. congruence.
  - apply jseqb_spec in E. congruence.
  - apply Nat.eqb_eq in E. congruence.
  - apply andb_prop in E. destruct E as [E1 E2].
    apply jseqb_spec in E1. apply Bool.eqb_prop in E2. congruence.
Qed.

(** What a commit leaves: the session of the render, and in the state
    [previewError] the error of the value [useMemo] holds. *)
Lemma commit_copies_the_error (pg pg' : page fn) (s' : session fn)
      (before : view) :
  (forall r, displayed (hooks pg) = Some r ->
             effectDeps pg = Some (error r) /\ previewError pg = error r) ->
  (displayed (hooks pg) = None -> effectDeps pg = None) ->
  commit OriginalComponent pg s' = Committed before pg' ->
  hooks pg' = s'
  /\ exists r',
       displayed s' = Some r'
       /\ effectDeps pg' = Some (error r')
       /\ previewError pg' = error r'
       /\ view_of OriginalComponent r' (previewError pg) = Some before.
Proof.
  intros I N. unfold commit. destruct (displayed s') as [r'|]; [|discriminate].
  cbv zeta. cbn [previewError].
  destruct (view_of OriginalComponent r' (previewError pg)) as [v|] eqn:V;
    [|discriminate].
  match goal with
  | |- match ?x with _ => _ end = _ -> _ => destruct x; [|discriminate]
  end.
  intros [= <- <-]. cbn [hooks effectDeps previewError].
  split; [reflexivity|]. exists r'. split; [reflexivity|].
  unfold effect_runs.
  destruct (displayed (hooks pg)) as [r|].
  - destruct (I r eq_refl) as [D P]. rewrite D.
    destruct (same_value (error r) (error r')) eqn:E; cbn [negb].
    + apply same_value_eq in E.
      split; [congruence | split; [congruence | exact V]].
    + auto.
  - rewrite (N eq_refl). auto.
Qed.

Lemma settled_copies_the_error (pg : page fn) :
  settled H OriginalComponent pg ->
  reachable H OriginalComponent (hooks pg)
  /\ exists r,
       displayed (hooks pg) = Some r
       /\ effectDeps pg = Some (error r)
       /\ previewError pg = error r.
Proof.
  intros S. induction S as [before pg M|pg ev before pg' S IH St].
  - unfold mount, of_rendering in M.
    destruct (render H OriginalComponent (initial fn)) as [s0| |] eqn:R;
      try discriminate.
    apply commit_copies_the_error in M;
      [|intros r; discriminate | reflexivity].
    destruct M as (-> & r' & D & E & P & _).
    split; [apply reachable_first, R | eauto].
  - destruct IH as (Rs & r & D & E & P).
    unfold page_step, of_rendering in St.
    destruct (step H OriginalComponent ev (hooks pg)) as [s'| |] eqn:R;
      try discriminate.
    apply commit_copies_the_error in St.
    + destruct St as (-> & r' & D' & E' & P' & _).
      split; [eapply reachable_step; eassumption | eauto].
    + intros r0 D0. rewrite D in D0. injection D0 as <-. auto.
    + rewrite D. discriminate.
Qed.

(** X19: the banner shows the state [previewError], which the effect sets
    to the error of the value [useMemo] holds after the render is
    committed.  Between two events, whatever the two libraries do, the
    state is that error, so a message is on the page only beside the
    original component, and it is the message the callback caught.  The
    commit that comes first after an event has the component of the new
    value with the banner of the state as it was. *)
Theorem a_message_stands_beside_the_original_component (pg : page fn) :
  settled H OriginalComponent pg ->
  (exists r,
      displayed (hooks pg) = Some r /\ previewError pg = error r)
  /\ (forall (c : value) (text : jsstring),
        shown OriginalComponent pg = Some (Preview c (Some text)) ->
        c = OriginalComponent
        /\ displayed (hooks pg)
           = Some {| component := OriginalComponent;
                     error := VString text |})
  /\ (forall (ev : event) (before : view) (pg' : page fn),
        page_step H OriginalComponent ev pg = Committed before pg' ->
        exists r',
          displayed (hooks pg') = Some r'
          /\ view_of OriginalComponent r' (previewError pg) = Some before).
Proof.
  intros S. destruct (settled_copies_the_error S) as (R & r & D & E & P).
  split; [eauto|]. split.
  - intros c text. unfold shown. rewrite D, P. unfold view_of.
    destruct (truthy OriginalComponent); cbn [negb]; [|discriminate].
    destruct (error r) as [| | | |m| |] eqn:M; cbn [banner]; try discriminate.
    destruct (truthy (VString m)) eqn:T; [|discriminate].
    intros [= <- <-].
    destruct (reachable_original_or_clean R D) as [C|C].
    + split; [exact C|]. destruct r as [c0 e0]. cbn [component error] in *.
      subst. reflexivity.
    + rewrite M in C. discriminate.
  - intros ev before pg' St. unfold page_step, of_rendering in St.
    destruct (step H OriginalComponent ev (hooks pg)) as [s'| |];
      try discriminate.
    apply commit_copies_the_error in St.
    + destruct St as (-> & r' & D' & _ & _ & V). eauto.
    + intros r0 D0. rewrite D in D0. injection D0 as <-. auto.
    + rewrite D. discriminate.
Qed.

Lemma settled_shown (pg : page fn) :
  settled H OriginalComponent pg ->
  exists v, shown OriginalComponent pg = Some v.
Proof.
  assert (C : forall (pg0 : page fn) s' before pg',
             commit OriginalComponent pg0 s' = Committed before pg' ->
             exists v, shown OriginalComponent pg' = Some v).
  { intros pg0 s' before pg'. unfold commit, shown.
    destruct (displayed s') as [r'|] eqn:D; [|discriminate].
    cbv zeta. cbn [previewError].
    destruct (view_of OriginalComponent r' (previewError pg0));
      [|discriminate].
    match goal with
    | |- match ?x with _ => _ end = _ -> _ =>
        destruct x as [after|] eqn:V; [|discriminate]
    end.
    intros [= _ <-]. cbn [hooks previewError]. rewrite D. eauto. }
  intros S. destruct S as [before pg M|pg ev before pg' S St].
  - unfold mount, of_rendering in M.
    destruct (render H OriginalComponent (initial fn)); try discriminate.
    eapply C, M.
  - unfold page_step, of_rendering in St.
    destruct (step H OriginalComponent ev (hooks pg)); try discriminate.
    eapply C, St.
Qed.

(** A failure on the page: when the pipeline run of a newly edited text
    throws a value whose message is a string, then once the effect has run
    the page has the original component, under a banner with that message
    when it is not empty. *)
Lemma a_failure_reaches_the_banner
      (pg : page fn) (t : jsstring) (h' h'' : heap fn) (v : value)
      (message : jsstring) :
  settled H OriginalComponent pg ->
  skips OriginalComponent (code (hooks pg)) t = false ->
  t <> editedCode (hooks pg) ->
  pipeline H t (store (hooks pg)) = Throw h' v ->
  get_ H v (js "message") h' = Return h'' (VString message) ->
  exists (before : view) (pg' : page fn),
    page_step H OriginalComponent (Edited t) pg = Committed before pg'
    /\ previewError pg' = VString message
    /\ shown OriginalComponent pg'
       = Some (Preview OriginalComponent
                       (if truthy (VString message) then Some message
                        else None)).
Proof.
  intros S K N P G.
  destruct (settled_copies_the_error S) as (R & r & D & E & Pe).
  destruct (settled_shown S) as (v0 & V0).
  assert (T : truthy OriginalComponent = true).
  { unfold skips in K. destruct (truthy OriginalComponent);
      [reflexivity | discriminate]. }
  unfold shown in V0. rewrite D in V0. unfold view_of in V0.
  rewrite T in V0. cbn [negb] in V0.
  destruct (banner (previewError pg)) as [b|] eqn:B; [|discriminate].
  unfold page_step. rewrite (step_failed R K N P G).
  cbn [of_rendering]. unfold commit, displayed.
  cbn [memo option_map snd error component]. cbv zeta.
  cbn [previewError effectDeps hooks]. unfold view_of. rewrite T.
  cbn [negb component]. rewrite B.
  unfold effect_runs. rewrite E.
  destruct (same_value (error r) (VString message)) eqn:Q; cbn [negb].
  - apply same_value_eq in Q. rewrite Pe, Q in B. rewrite Pe, Q.
    rewrite B. do 2 eexists. split; [reflexivity|].
    unfold shown, displayed.
    cbn [hooks memo option_map snd previewError].
    split; [reflexivity|]. unfold view_of. rewrite T.
    cbn [negb banner component]. reflexivity.
  - cbn [banner]. do 2 eexists. split; [reflexivity|].
    unfold shown, displayed.
    cbn [hooks memo option_map snd previewError].
    split; [reflexivity|]. unfold view_of. rewrite T.
    cbn [negb banner component]. reflexivity.
Qed.

Lemma page_run_settled (evs : list event) (before before' : view)
      (pg pg' : page fn) :
  settled H OriginalComponent pg ->
  page_run H OriginalComponent evs before pg = Committed before' pg' ->
  settled H OriginalComponent pg'.
Proof.
  revert before pg. induction evs as [|ev evs IH]; intros before pg S;
    cbn [page_run].
  - intros [= _ <-]. exact S.
  - destruct (page_step H OriginalComponent ev pg) as [b1 pg1| |] eqn:St;
      try discriminate.
    apply IH. eapply settled_step; eassumption.
Qed.

Lemma page_play_settled (evs : list event) (before : view) (pg : page fn) :
  page_play H OriginalComponent evs = Committed before pg ->
  settled H OriginalComponent pg.
Proof.
  unfold page_play.
  destruct (mount H OriginalComponent) as [b0 pg0| |] eqn:M; try discriminate.
  apply page_run_settled. eapply settled_mount, M.
Qed.

End PageFacts.


(** ** The width of the code pane *)

Section ResizeFacts.
Import SpecFloat.

Lemma SFcompare_swap (a b : spec_float) :
  SFcompare b a = option_map CompOpp (SFcompare a b).
Proof.
  destruct a as [sa|sa| |sa ma ea], b as [sb|sb| |sb mb eb];
    try reflexivity;
    try (destruct sa; reflexivity); try (destruct sb; reflexivity);
    try (destruct sa, sb; reflexivity).
  cbn [SFcompare option_map].
  rewrite (Z.compare_antisym ea eb).
  pose proof (Pos.compare_cont_antisym ma mb Eq) as P.
  cbn [CompOpp] in P. rewrite <- P.
  destruct sa, sb; cbn [CompOpp]; try reflexivity;
    destruct (ea ?= eb)%Z; cbn [CompOpp]; try reflexivity;
    rewrite ?CompOpp_involutive; reflexivity.
Qed.

(** The clamp of the handler. *)
Lemma clamp_range (x : Number.number) :
  let w := Number.Math_max (Number.of_Z 20)
                           (Number.Math_min (Number.of_Z 80) x) in
  Number.is_nan w = Number.is_nan x
  /\ (Number.is_nan x = false ->
      Number.leq (Number.of_Z 20) w = true
      /\ Number.leq w (Number.of_Z 80) = true).
Proof.
  cbv zeta.
  assert (E80 : Number.of_Z 80 = S754_finite false 5629499534213120 (-46))
    by (vm_compute; reflexivity).
  assert (E20 : Number.of_Z 20 = S754_finite false 5629499534213120 (-48))
    by (vm_compute; reflexivity).
  rewrite E80, E20.
  destruct x as [sx|sx| |sx mx ex].
  - split; [reflexivity | intros _; split; reflexivity].
  - destruct sx; (split; [reflexivity | intros _; split; reflexivity]).
  - split; [reflexivity | discriminate].
  - destruct sx; [split; [reflexivity | intros _; split; reflexivity]|].
    set (x := S754_finite false mx ex).
    set (c80 := S754_finite false 5629499534213120 (-46)).
    set (c20 := S754_finite false 5629499534213120 (-48)).
    pose proof (SFcompare_swap c80 x) as W.
    unfold Number.Math_min.
    destruct (SFcompare c80 x) as [[| |]|] eqn:C.
    + split; [reflexivity | intros _; split; reflexivity].
    + split; [reflexivity | intros _; split; reflexivity].
    + cbn [option_map CompOpp] in W. unfold Number.Math_max.
      destruct (SFcompare c20 x) as [[| |]|] eqn:D.
      * split; [reflexivity | intros _; split; reflexivity].
      * split; [reflexivity|]. intros _. unfold Number.leq, SFleb.
        rewrite D, W. split; reflexivity.
      * split; [reflexivity | intros _; split; reflexivity].
      * discriminate D.
    + discriminate C.
Qed.

Lemma handle_in_range (ev : Resize.event) (s : Resize.panes) :
  Resize.in_range (Resize.codeWidth s) ->
  Resize.in_range (Resize.codeWidth (Resize.handle ev s)).
Proof.
  intros I. destruct ev as [|clientX [r|]|]; cbn [Resize.handle];
    unfold Resize.handleMouseMove, Resize.onMouseDown, Resize.handleMouseUp;
    try exact I.
  - destruct (negb (Resize.isResizing s)); [exact I|].
    cbv zeta. cbn [Resize.codeWidth].
    set (x := Number.mul _ _).
    destruct (clamp_range x) as [N B]. unfold Resize.in_range.
    destruct (Number.is_nan x) eqn:E.
    + left. exact N.
    + right. apply B. reflexivity.
  - destruct (negb (Resize.isResizing s)); exact I.
Qed.

(** X5: whatever the mouse does, the width of the code pane is between 20
    and 80, both included, unless it is [NaN]; and a move of the mouse
    while the separator is held makes it [NaN] exactly when the computed
    width is [NaN]. *)
Theorem code_width_stays_in_range (evs : list Resize.event) :
  (let w := Resize.codeWidth (Resize.run evs Resize.initial) in
   Number.is_nan w = true
   \/ (Number.leq (Number.of_Z 20) w = true
       /\ Number.leq w (Number.of_Z 80) = true))
  /\ (forall clientX r s,
         Number.is_nan
           (Resize.codeWidth
              (Resize.handleMouseMove clientX (Some r) (Resize.onMouseDown s)))
         = Number.is_nan
             (Number.mul
                (Number.div (Number.sub clientX (Resize.left r))
                            (Resize.width r))
                (Number.of_Z 100))).
Proof.
  split.
  - cbv zeta. unfold Resize.run.
    assert (G : forall s, Resize.in_range (Resize.codeWidth s) ->
                Resize.in_range (Resize.codeWidth
                            (fold_left (fun s ev => Resize.handle ev s)
                                       evs s))).
    { induction evs as [|ev evs IH]; intros s I; cbn [fold_left].
      - exact I.
      - apply IH, handle_in_range, I. }
    apply G. right. split; vm_compute; reflexivity.
  - intros clientX r s. unfold Resize.handleMouseMove, Resize.onMouseDown.
    cbn [Resize.isResizing negb]. cbv zeta. cbn [Resize.codeWidth].
    apply clamp_range.
Qed.

(** The width is [NaN] after a move over a container of width 0 whose
    left edge is under the mouse: 0 / 0. *)
Lemma code_width_can_be_nan :
  Resize.codeWidth
    (Resize.run [Resize.MouseDown;
                 Resize.MouseMove (Number.of_Z 8)
                   (Some {| Resize.left := Number.of_Z 8;
                            Resize.width := Number.of_Z 0 |})]
                Resize.initial)
  = S754_nan.
Proof. vm_compute. reflexivity. Qed.

End ResizeFacts.

(** ** The flows of the examples *)

Section FlowFacts.
Import Flow.

Lemma js_inj (a b : String.string) : js a = js b -> a = b.
Proof.
  unfold js. intros E.
  rewrite <- (string_of_list_ascii_of_string a),
          <- (string_of_list_ascii_of_string b).
  f_equal. revert E.
  generalize (list_ascii_of_string a), (list_ascii_of_string b).
  induction l as [|x l IH]; intros [|y l']; cbn [map]; try discriminate.
  - reflexivity.
  - intros [= E1 E2]. f_equal; [|apply IH, E2].
    rewrite <- (ascii_N_embedding x), <- (ascii_N_embedding y), E1.
    reflexivity.
Qed.

Lemma to_int_proper (a : Z) :
  Z.to_int a <> Decimal.Pos Decimal.Nil
  /\ Z.to_int a <> Decimal.Neg Decimal.Nil.
Proof.
  split; intros E;
    pose proof (DecimalZ.of_to a) as H; rewrite E in H; cbn in H;
    subst a; discriminate E.
Qed.

(** Two numbers with the same decimal numeral are the same number. *)
Lemma digits_inj (a b : Z) : digits a = digits b -> a = b.
Proof.
  unfold digits. intros E. apply js_inj in E.
  apply DecimalZ.to_int_inj.
  destruct (to_int_proper a) as [A1 A2], (to_int_proper b) as [B1 B2].
  pose proof (NilZero.isi _ A1 A2) as Ia.
  pose proof (NilZero.isi _ B1 B2) as Ib.
  rewrite E in Ia. rewrite Ia in Ib. injection Ib. auto.
Qed.

Lemma has_In (l : list jsstring) (k : jsstring) :
  has l k = true <-> In k l.
Proof.
  unfold has. rewrite existsb_exists. split.
  - intros (x & I & E). apply jseqb_spec in E. subst. exact I.
  - intros I. exists k. split; [exact I | apply jseqb_refl].
Qed.

Lemma jseqb_false (a b : jsstring) : jseqb a b = false <-> a <> b.
Proof.
  split.
  - intros E -> . rewrite jseqb_refl in E. discriminate.
  - apply jseqb_neq.
Qed.

(** Distinct ids stay distinct when nodes are filtered out. *)
Lemma ids_filter_NoDup (keep : Node.t -> bool) (nodes : list Node.t) :
  NoDup (ids nodes) -> NoDup (ids (filter keep nodes)).
Proof.
  unfold ids. induction nodes as [|node rest IH]; cbn [map filter];
    intros N; [exact N|].
  inversion N as [|? ? Fresh N']; subst.
  destruct (keep node); cbn [map]; [|apply IH, N'].
  constructor; [|apply IH, N'].
  intros I. apply Fresh. apply in_map_iff in I. destruct I as (y & E & I).
  apply filter_In in I. apply in_map_iff. exists y. tauto.
Qed.

Lemma NoDup_map_injective A B (f : A -> B) (l : list A) :
  (forall a b, f a = f b -> a = b) -> NoDup l -> NoDup (map f l).
Proof.
  intros J. induction 1 as [|x l NI N IH]; cbn [map]; constructor.
  - intros I. apply in_map_iff in I. destruct I as (y & E & I).
    apply J in E. subst. contradiction.
  - exact IH.
Qed.

Lemma NoDup_snoc A (l : list A) (x : A) :
  NoDup l -> ~ In x l -> NoDup (l ++ [x]).
Proof.
  induction 1 as [|y l NI N IH]; cbn [app]; intros F.
  - constructor; [intros [] | constructor].
  - constructor.
    + intros I. apply in_app_iff in I. destruct I as [I|[->|[]]].
      * contradiction.
      * apply F. left. reflexivity.
    + apply IH. intros I. apply F. right. exact I.
Qed.

End FlowFacts.

Section InteractiveFlowFacts.
Import Flow InteractiveFlow.

(** X6: deleting the selected node leaves no node with its id and no edge
    from or to it, clears the selection, and when every edge started and
    ended at a node before, so it does afterwards. *)
Theorem delete_selected_node_keeps_edges_attached (s : flow) (sel : Node.t) :
  selectedNode s = Some sel ->
  let s' := deleteSelectedNode s in
  ~ In (Node.id sel) (ids (nodes s'))
  /\ (forall e, In e (edges s') ->
                Edge.source e <> Node.id sel /\ Edge.target e <> Node.id sel)
  /\ selectedNode s' = None
  /\ (closed (nodes s) (edges s) -> closed (nodes s') (edges s')).
Proof.
  intros S. cbv zeta. unfold deleteSelectedNode. rewrite S.
  cbn [nodes edges selectedNode].
  assert (E : forall e,
             In e (filter (fun edge =>
                             negb (jseqb (Edge.source edge) (Node.id sel))
                             && negb (jseqb (Edge.target edge) (Node.id sel)))
                          (edges s)) ->
             In e (edges s)
             /\ Edge.source e <> Node.id sel /\ Edge.target e <> Node.id sel).
  { intros e I. apply filter_In in I. destruct I as [I B].
    apply andb_prop in B. destruct B as [B1 B2].
    apply negb_true_iff in B1, B2. apply jseqb_false in B1, B2. auto. }
  assert (K : forall k,
             In k (ids (nodes s)) -> k <> Node.id sel ->
             In k (ids (filter (fun node =>
                                  negb (jseqb (Node.id node) (Node.id sel)))
                               (nodes s)))).
  { intros k I N. unfold ids in *. apply in_map_iff in I.
    destruct I as (n & <- & I). apply in_map_iff. exists n.
    split; [reflexivity|]. apply filter_In. split; [exact I|].
    apply negb_true_iff, jseqb_false, N. }
  repeat split.
  - unfold ids. intros I. apply in_map_iff in I. destruct I as (n & N & I).
    apply filter_In in I. destruct I as [_ B].
    apply negb_true_iff, jseqb_false in B. contradiction.
  - apply E, H.
  - apply E, H.
  - apply K; [apply (H e), E, H0 | apply E, H0].
  - apply K; [apply (H e), E, H0 | apply E, H0].
Qed.

Lemma numbered_NoDup (s : flow) : numbered s -> NoDup (ids (nodes s)).
Proof.
  unfold numbered. intros ->.
  apply NoDup_map_injective; [|apply seq_NoDup].
  intros a b E. apply digits_inj in E. lia.
Qed.

(** X7: while the ids are the numbers from 1 to the number of nodes, in
    order, as they are at the start, [addNode] keeps them so: the new node
    gets the next number and no two nodes share an id. *)
Theorem add_node_numbers_the_nodes
        (random1 random2 : Number.number) (s : flow) :
  numbered s ->
  let s' := addNode random1 random2 s in
  numbered s'
  /\ ids (nodes s')
     = ids (nodes s) ++ [digits (Z.of_nat (length (nodes s)) + 1)]
  /\ NoDup (ids (nodes s')).
Proof.
  intros N. cbv zeta.
  assert (N' : numbered (addNode random1 random2 s)).
  { unfold numbered, addNode in *. cbn [nodes]. unfold ids in *.
    rewrite map_app, length_app. cbn [map length Node.id].
    rewrite seq_app, map_app, <- N. cbn [seq map]. do 3 f_equal. lia. }
  split; [exact N'|]. split; [|apply numbered_NoDup, N'].
  unfold addNode, ids. cbn [nodes]. rewrite map_app. reflexivity.
Qed.

Lemma filter_out_none (l : list Node.t) (k : jsstring) :
  ~ In k (ids l) ->
  filter (fun node => negb (jseqb (Node.id node) k)) l = l.
Proof.
  unfold ids. induction l as [|y l IH]; cbn [map filter In]; intros F;
    [reflexivity|].
  destruct (jseqb (Node.id y) k) eqn:E.
  - apply jseqb_spec in E. exfalso. apply F. left. exact E.
  - cbn [negb]. f_equal. apply IH. intros I. apply F. right. exact I.
Qed.

Lemma filter_out_one (l : list Node.t) (x : Node.t) :
  NoDup (ids l) -> In x l ->
  S (length (filter (fun node => negb (jseqb (Node.id node) (Node.id x))) l))
  = length l.
Proof.
  unfold ids. induction l as [|y l IH]; cbn [map filter length In];
    intros N I; [contradiction|].
  inversion N as [|? ? NI N']; subst.
  destruct (jseqb (Node.id y) (Node.id x)) eqn:E; cbn [negb length].
  - apply jseqb_spec in E. rewrite filter_out_none; [reflexivity|].
    rewrite <- E. exact NI.
  - f_equal. apply IH; [exact N'|].
    destruct I as [->|I]; [|exact I].
    rewrite jseqb_refl in E. discriminate.
Qed.

(** X8: after a node other than the last numbered one is deleted, the
    next [addNode] gives the new node an id that a node already has. *)
Theorem add_after_delete_repeats_an_id
        (random1 random2 : Number.number) (s : flow) (sel : Node.t) :
  numbered s ->
  selectedNode s = Some sel ->
  In sel (nodes s) ->
  Node.id sel <> digits (Z.of_nat (length (nodes s))) ->
  let s' := addNode random1 random2 (deleteSelectedNode s) in
  exists old,
    In old (nodes (deleteSelectedNode s))
    /\ Node.id old = digits (Z.of_nat (length (nodes s)))
    /\ ids (nodes s') = ids (nodes (deleteSelectedNode s)) ++ [Node.id old]
    /\ ~ NoDup (ids (nodes s')).
Proof.
  intros N S I L. cbv zeta.
  pose proof (numbered_NoDup N) as D.
  pose proof (filter_out_one _ _ D I) as F.
  assert (O : exists old,
             In old (nodes s)
             /\ Node.id old = digits (Z.of_nat (length (nodes s)))).
  { assert (J : In (digits (Z.of_nat (length (nodes s)))) (ids (nodes s))).
    { rewrite N. apply in_map_iff. exists (length (nodes s)).
      split; [reflexivity|]. apply in_seq.
      destruct (nodes s); [contradiction | cbn [length]; lia]. }
    unfold ids in J. apply in_map_iff in J. destruct J as (old & E & J).
    eauto. }
  destruct O as (old & IO & EO).
  unfold deleteSelectedNode. rewrite S. cbn [nodes].
  assert (IO' : In old (filter (fun node =>
                                  negb (jseqb (Node.id node) (Node.id sel)))
                               (nodes s))).
  { apply filter_In. split; [exact IO|].
    apply negb_true_iff, jseqb_false. congruence. }
  assert (A : ids (nodes (addNode random1 random2
                {| nodes := filter (fun node =>
                                      negb (jseqb (Node.id node)
                                                  (Node.id sel))) (nodes s);
                   edges := filter (fun edge =>
                                      negb (jseqb (Edge.source edge)
                                                  (Node.id sel))
                                      && negb (jseqb (Edge.target edge)
                                                     (Node.id sel)))
                                   (edges s);
                   selectedNode := None |}))
              = ids (filter (fun node =>
                               negb (jseqb (Node.id node) (Node.id sel)))
                            (nodes s)) ++ [Node.id old]).
  { unfold addNode, ids. cbn [nodes]. rewrite map_app. cbn [map Node.id].
    do 2 f_equal. rewrite EO. f_equal. lia. }
  exists old. repeat split; try assumption.
  rewrite A. intros ND. apply NoDup_remove_2 in ND.
  rewrite app_nil_r in ND. apply ND. unfold ids. apply in_map_iff.
  exists old. auto.
Qed.

End InteractiveFlowFacts.

(** ** Whole numbers in binary64 *)

Section WholeNumbers.
Import SpecFloat Number.

(** The two iterations, of [SpecFloat] and of [Pos], are one. *)
Lemma iter_pos_iter (A : Type) (f : A -> A) (n : positive) (x : A) :
  iter_pos f n x = Pos.iter f x n.
Proof.
  revert x. induction n as [n IH|n IH|]; intros x; cbn [iter_pos Pos.iter].
  - rewrite !IH, !Pos.iter_swap. reflexivity.
  - rewrite !IH. reflexivity.
  - reflexivity.
Qed.

(** A shift to the left by [n] adds [n] binary digits. *)
Lemma digits_shiftl (p : positive) (n : N) :
  Zpos (digits2_pos (Pos.shiftl p n)) = (Zpos (digits2_pos p) + Z.of_N n)%Z.
Proof.
  destruct n as [|k]; cbn [Pos.shiftl]; [cbn; lia|].
  induction k as [|k IH] using Pos.peano_ind.
  - cbn. lia.
  - rewrite Pos.iter_succ. cbn [digits2_pos]. lia.
Qed.

Lemma shiftl_shiftl (p : positive) (a b : N) :
  Pos.shiftl (Pos.shiftl p a) b = Pos.shiftl p (a + b).
Proof.
  destruct a as [|a], b as [|b]; cbn [Pos.shiftl N.add]; try reflexivity.
  rewrite Pos.add_comm. symmetry. apply Pos.iter_add.
Qed.

Lemma shiftl_value (p : positive) (n : N) :
  Zpos (Pos.shiftl p n) = (Zpos p * 2 ^ Z.of_N n)%Z.
Proof.
  destruct n as [|k]; cbn [Pos.shiftl Z.of_N]; [lia|].
  induction k as [|k IH] using Pos.peano_ind.
  - cbn. lia.
  - rewrite Pos.iter_succ, Pos2Z.inj_succ, Z.pow_succ_r by lia.
    rewrite Pos2Z.inj_xO, IH. lia.
Qed.

(** The alignment of a mantissa to a smaller exponent is a shift to the
    left. *)
Lemma shl_align_shiftl (m : positive) (e e' : Z) :
  shl_align m e e' = (Pos.shiftl m (Z.to_N (e - e')), Z.min e e').
Proof.
  unfold shl_align. destruct (e' - e)%Z as [|d|d] eqn:E.
  - replace (e - e')%Z with 0%Z by lia. cbn. f_equal. lia.
  - replace (Z.to_N (e - e')) with 0%N by lia. cbn. f_equal. lia.
  - replace (e - e')%Z with (Zpos d) by lia. cbn. f_equal. lia.
Qed.

(** A shift to the right takes back a shift to the left, exactly. *)
Lemma shr_shiftl (p : positive) (n : Z) (e : Z) :
  shr {| shr_m := Zpos (Pos.shiftl p (Z.to_N n)); shr_r := false;
         shr_s := false |} e n
  = ({| shr_m := Zpos p; shr_r := false; shr_s := false |},
     (e + Z.max n 0)%Z).
Proof.
  unfold shr. destruct n as [|k|k]; cbn [Z.to_N Pos.shiftl].
  - f_equal. lia.
  - rewrite iter_pos_iter. replace (Z.max (Zpos k) 0) with (Zpos k) by lia.
    f_equal.
    induction k as [|k IH] using Pos.peano_ind.
    + reflexivity.
    + rewrite Pos.iter_succ, Pos.iter_succ, <- Pos.iter_swap. exact IH.
  - f_equal. lia.
Qed.

Lemma fexp_whole (e : Z) :
  (-1021 <= e)%Z -> fexp prec emax e = (e - 53)%Z.
Proof. unfold fexp, emin, prec, emax. lia. Qed.

(** Once the mantissa has 53 digits the rounding changes nothing. *)
Lemma round_aux_tail (mx ex : Z) (lx : location) (m : positive) (t : Z) :
  shr_fexp prec emax mx ex lx
  = ({| shr_m := Zpos m; shr_r := false; shr_s := false |}, t) ->
  Zpos (digits2_pos m) = 53%Z ->
  (-1074 <= t <= 971)%Z ->
  binary_round_aux prec emax false mx ex lx = S754_finite false m t.
Proof.
  intros E D R. unfold binary_round_aux. rewrite E.
  cbn [shr_m loc_of_shr_record round_nearest_even].
  unfold shr_fexp. cbn [Zdigits2 shr_record_of_loc]. rewrite D.
  rewrite fexp_whole by lia.
  replace (53 + t - 53 - t)%Z with 0%Z by lia. cbn [shr shr_m].
  replace (t <=? emax - prec)%Z with true; [reflexivity|].
  symmetry. apply Z.leb_le. unfold emax, prec. lia.
Qed.

(** The rounding of [q * 2^j * 2^e], when [q] has at most 53 digits: the
    mantissa [q * 2^i] of 53 digits, and nothing is lost. *)
Lemma round_exact (q : positive) (i j : N) (e : Z) :
  (Zpos (digits2_pos q) + Z.of_N i = 53)%Z ->
  (-1074 <= e + Z.of_N j - Z.of_N i <= 971)%Z ->
  binary_round prec emax false (Pos.shiftl q j) e
  = S754_finite false (Pos.shiftl q i) (e + Z.of_N j - Z.of_N i).
Proof.
  intros D R. unfold binary_round.
  rewrite digits_shiftl, fexp_whole by lia.
  set (t := (e + Z.of_N j - Z.of_N i)%Z) in *.
  replace (Z.pos (digits2_pos q) + Z.of_N j + e - 53)%Z with t by lia.
  rewrite shl_align_shiftl, shiftl_shiftl.
  assert (Di : Zpos (digits2_pos (Pos.shiftl q i)) = 53%Z)
    by (rewrite digits_shiftl; exact D).
  destruct (N.le_gt_cases i j) as [L|L].
  - replace (Z.to_N (e - t)) with 0%N by lia.
    rewrite N.add_0_r. replace (Z.min e t) with e by lia.
    apply round_aux_tail; [|exact Di | exact R].
    unfold shr_fexp. cbn [Zdigits2 shr_record_of_loc].
    rewrite digits_shiftl, fexp_whole by lia.
    replace (Pos.shiftl q j)
      with (Pos.shiftl (Pos.shiftl q i)
                       (Z.to_N (Z.pos (digits2_pos q) + Z.of_N j + e - 53 - e)))
      by (rewrite shiftl_shiftl; f_equal; lia).
    rewrite shr_shiftl. f_equal. lia.
  - replace (j + Z.to_N (e - t))%N with i by lia.
    replace (Z.min e t) with t by lia.
    apply round_aux_tail; [|exact Di | exact R].
    unfold shr_fexp. cbn [Zdigits2 shr_record_of_loc]. rewrite Di.
    rewrite fexp_whole by lia.
    replace (53 + t - 53 - t)%Z with 0%Z by lia. reflexivity.
Qed.

Lemma digits_lower (q : positive) :
  (2 ^ (Zpos (digits2_pos q) - 1) <= Zpos q)%Z.
Proof.
  induction q as [q IH|q IH|]; cbn [digits2_pos].
  - rewrite Pos2Z.inj_succ.
    replace (Z.succ (Zpos (digits2_pos q)) - 1)%Z
      with (Z.succ (Zpos (digits2_pos q) - 1)) by lia.
    rewrite Z.pow_succ_r by lia. lia.
  - rewrite Pos2Z.inj_succ.
    replace (Z.succ (Zpos (digits2_pos q)) - 1)%Z
      with (Z.succ (Zpos (digits2_pos q) - 1)) by lia.
    rewrite Z.pow_succ_r by lia. lia.
  - cbn. lia.
Qed.

Lemma digits_bound (q : positive) :
  (Zpos q < 2 ^ 53)%Z -> (Zpos (digits2_pos q) <= 53)%Z.
Proof.
  intros B. destruct (Z.le_gt_cases (Zpos (digits2_pos q)) 53) as [L|L];
    [exact L|].
  pose proof (digits_lower q) as D.
  assert (P : (2 ^ 53 <= 2 ^ (Zpos (digits2_pos q) - 1))%Z)
    by (apply Z.pow_le_mono_r; lia).
  lia.
Qed.

(** The binary64 value of a whole number below 2^53. *)
Lemma of_Z_whole (q : positive) :
  (Zpos q < 2 ^ 53)%Z ->
  let i := Z.to_N (53 - Zpos (digits2_pos q)) in
  of_Z (Zpos q) = S754_finite false (Pos.shiftl q i) (- Z.of_N i).
Proof.
  intros B i. pose proof (@digits_bound q B) as D.
  unfold of_Z. cbn [binary_normalize].
  change q with (Pos.shiftl q 0) at 1.
  rewrite (@round_exact q i 0 0) by (unfold i; lia).
  f_equal.
Qed.

Lemma to_Z_whole (q : positive) (i : N) :
  to_Z (S754_finite false (Pos.shiftl q i) (- Z.of_N i)) = Some (Zpos q).
Proof.
  unfold to_Z. rewrite shiftl_value.
  destruct (0 <=? - Z.of_N i)%Z eqn:E.
  - apply Z.leb_le in E. replace (Z.of_N i) with 0%Z by lia.
    cbn [cond_Zopp Z.opp Z.pow]. f_equal. lia.
  - cbv zeta. rewrite Z.opp_involutive.
    rewrite Z.mod_mul by (apply Z.pow_nonzero; lia).
    cbn [Z.eqb cond_Zopp]. rewrite Z.div_mul by (apply Z.pow_nonzero; lia).
    reflexivity.
Qed.

(** Below 2^53 the sum of binary64 with 1 is the next whole number. *)
Lemma add_one_whole (q : positive) :
  (Zpos q + 1 < 2 ^ 53)%Z ->
  add (of_Z (Zpos q)) (of_Z 1) = of_Z (Zpos q + 1).
Proof.
  intros B.
  rewrite (@of_Z_whole q) by lia. cbv zeta.
  replace (Zpos q + 1)%Z with (Zpos (q + 1)) by lia.
  rewrite (@of_Z_whole (q + 1)) by lia. cbv zeta.
  pose proof (@digits_bound q ltac:(lia)) as D.
  pose proof (@digits_bound (q + 1) ltac:(lia)) as D'.
  set (i := Z.to_N (53 - Zpos (digits2_pos q))).
  set (i' := Z.to_N (53 - Zpos (digits2_pos (q + 1)))).
  change (of_Z 1) with (S754_finite false (Pos.shiftl 1 52) (-52)).
  unfold add, SFadd.
  assert (I : (Z.of_N i <= 52)%Z) by (unfold i; lia).
  replace (Z.min (- Z.of_N i) (-52)) with (-52)%Z by lia.
  rewrite !shl_align_shiftl, !shiftl_shiftl. cbn [fst cond_Zopp].
  replace (i + Z.to_N (- Z.of_N i - -52))%N with 52%N by lia.
  replace (52 + Z.to_N (-52 - -52))%N with 52%N by lia.
  replace (Zpos (Pos.shiftl q 52) + Zpos (Pos.shiftl 1 52))%Z
    with (Zpos (Pos.shiftl (q + 1) 52))
    by (rewrite !shiftl_value; lia).
  cbn [binary_normalize].
  rewrite (@round_exact (q + 1) i' 52 (-52)) by (unfold i'; lia).
  f_equal; lia.
Qed.

Lemma add_one_is_the_successor (n : Z) :
  (0 <= n < 2 ^ 53)%Z ->
  to_Z (add (of_Z n) (of_Z 1)) = Some (n + 1)%Z.
Proof.
  intros B. destruct n as [|q|q]; [reflexivity| |lia].
  destruct (Z.eq_dec (Zpos q + 1) (2 ^ 53)) as [E|E].
  - assert (Q : q = 9007199254740991%positive) by lia. subst q.
    vm_compute. reflexivity.
  - rewrite add_one_whole by lia.
    replace (Zpos q + 1)%Z with (Zpos (q + 1)) by lia.
    rewrite (@of_Z_whole (q + 1)) by lia. apply to_Z_whole.
Qed.

(** At 2^53 the sum with 1 is 2^53 again. *)
Lemma add_one_at_two_to_the_53 :
  to_Z (add (of_Z (2 ^ 53)) (of_Z 1)) = Some (2 ^ 53)%Z.
Proof. vm_compute. reflexivity. Qed.

End WholeNumbers.

Section DynamicLayoutFacts.
Import Flow DynamicLayout.

Lemma increment_below (n : Z) :
  (0 <= n < 2 ^ 53)%Z -> increment n = Some (n + 1)%Z.
Proof.
  intros B. unfold increment.
  replace (Z.abs n <=? 2 ^ 53)%Z with true
    by (symmetry; apply Z.leb_le; lia).
  apply add_one_is_the_successor, B.
Qed.

(** X9: while the counter is a whole number from 0 to below 2^53, every
    id is the numeral of a number below the counter and no two nodes share
    an id, [addNode] appends one node, whose id is the numeral of the
    counter and which no node had, the counter goes up by one, and both
    properties hold afterwards; [deleteSelectedNodes] keeps the counter
    and both properties. *)
Theorem node_counter_gives_fresh_ids (s : flow) :
  (0 <= nodeCounter s < 2 ^ 53)%Z ->
  below s ->
  NoDup (ids (nodes s)) ->
  ~ In (digits (nodeCounter s)) (ids (nodes s))
  /\ (exists (s' : flow) (newNode : Node.t),
        addNode s = Some s'
        /\ nodes s' = nodes s ++ [newNode]
        /\ Node.id newNode = digits (nodeCounter s)
        /\ edges s' = edges s
        /\ nodeCounter s' = (nodeCounter s + 1)%Z
        /\ below s'
        /\ NoDup (ids (nodes s')))
  /\ (below (deleteSelectedNodes s)
      /\ NoDup (ids (nodes (deleteSelectedNodes s)))
      /\ nodeCounter (deleteSelectedNodes s) = nodeCounter s).
Proof.
  intros C B N.
  assert (F : ~ In (digits (nodeCounter s)) (ids (nodes s))).
  { unfold ids. intros I. apply in_map_iff in I. destruct I as (n & E & I).
    destruct (B n I) as (k & K & E'). rewrite E' in E.
    apply digits_inj in E. lia. }
  split; [exact F|]. split.
  - unfold addNode. cbv zeta. rewrite (increment_below C).
    do 2 eexists. split; [reflexivity|]. cbn [nodes edges nodeCounter].
    split; [reflexivity|]. split; [reflexivity|]. split; [reflexivity|].
    split; [reflexivity|]. split.
    + unfold below. cbn [nodes nodeCounter].
      intros node I. apply in_app_iff in I. destruct I as [I|[<-|[]]].
      * destruct (B node I) as (k & K & E). exists k. split; [lia | exact E].
      * exists (nodeCounter s). cbn [Node.id]. split; [lia | reflexivity].
    + unfold ids. rewrite map_app. cbn [map Node.id].
      apply NoDup_snoc; [exact N | exact F].
  - unfold deleteSelectedNodes. cbv zeta.
    destruct (Nat.eqb (length (filter Node.selected (nodes s))) 0);
      [auto|].
    unfold below. cbn [nodes nodeCounter]. repeat split.
    + intros node I. apply filter_In in I. apply B, I.
    + apply ids_filter_NoDup, N.
Qed.

(** At 2^53 the counter stands still: a second node gets the id of the
    first. *)
Lemma the_counter_stands_still (s : flow) :
  nodeCounter s = (2 ^ 53)%Z ->
  exists s' s'',
    addNode s = Some s'
    /\ addNode s' = Some s''
    /\ nodeCounter s'' = nodeCounter s
    /\ ~ NoDup (ids (nodes s'')).
Proof.
  intros C.
  assert (I : increment (2 ^ 53) = Some (2 ^ 53)%Z)
    by (unfold increment; cbn [Z.abs Z.leb]; exact add_one_at_two_to_the_53).
  unfold addNode. cbv zeta. rewrite C, I. eexists. eexists.
  split; [reflexivity|]. cbn [nodeCounter nodes]. rewrite I.
  split; [reflexivity|]. cbn [nodeCounter nodes]. split; [reflexivity|].
  unfold ids. rewrite <- app_assoc, map_app. cbn [app map Node.id].
  intros D. apply NoDup_app_remove_l in D.
  inversion D as [|x l A _]. apply A. left. reflexivity.
Qed.

(** X10: [deleteSelectedNodes] leaves no selected node, and when every
    edge started and ended at a node before, so it does afterwards. *)
Theorem delete_selected_nodes_keeps_edges_attached (s : flow) :
  let s' := deleteSelectedNodes s in
  (closed (nodes s) (edges s) -> closed (nodes s') (edges s'))
  /\ (forall node, In node (nodes s') -> Node.selected node = false)
  /\ nodeCounter s' = nodeCounter s.
Proof.
  cbv zeta. unfold deleteSelectedNodes. cbv zeta.
  destruct (Nat.eqb (length (filter Node.selected (nodes s))) 0) eqn:Z.
  - split; [intros C; exact C|]. split; [|reflexivity].
    apply Nat.eqb_eq, length_zero_iff_nil in Z.
    intros node I. destruct (Node.selected node) eqn:S; [|reflexivity].
    assert (J : In node (filter Node.selected (nodes s)))
      by (apply filter_In; auto).
    rewrite Z in J. contradiction.
  - cbn [nodes edges nodeCounter]. split; [intros C|split; [|reflexivity]].
    + assert (K : forall k,
                 In k (ids (nodes s)) ->
                 has (ids (filter Node.selected (nodes s))) k = false ->
                 In k (ids (filter (fun node => negb (Node.selected node))
                                   (nodes s)))).
      { intros k I Hs. unfold ids in *. apply in_map_iff in I.
        destruct I as (n & <- & I). apply in_map_iff. exists n.
        split; [reflexivity|]. apply filter_In. split; [exact I|].
        destruct (Node.selected n) eqn:S; [|reflexivity].
        assert (T : has (map Node.id (filter Node.selected (nodes s)))
                        (Node.id n) = true).
        { apply has_In, in_map, filter_In. auto. }
        unfold ids in Hs. rewrite T in Hs. discriminate. }
      intros e I. apply filter_In in I. destruct I as [I B].
      apply andb_prop in B. destruct B as [B1 B2].
      apply negb_true_iff in B1, B2.
      destruct (C e I) as [C1 C2]. split; apply K; assumption.
    + intros node I. apply filter_In in I. destruct I as [_ S].
      apply negb_true_iff in S. exact S.
Qed.

End DynamicLayoutFacts.

Section CopyPasteFacts.
Import Flow CopyPaste.

Lemma lookup_update (k k' : jsstring) (v : value) (m : properties) :
  lookup k (update k' v m) = if jseqb k k' then Some v else lookup k m.
Proof.
  induction m as [|[k0 v0] m IH]; cbn [update lookup].
  - reflexivity.
  - destruct (jseqb k' k0) eqn:E; cbn [lookup].
    + apply jseqb_spec in E. subst k0.
      destruct (jseqb k k'); reflexivity.
    + rewrite IH. destruct (jseqb k k0) eqn:E0; [|reflexivity].
      apply jseqb_spec in E0. subst k0.
      destruct (jseqb k k') eqn:E1; [|reflexivity].
      apply jseqb_spec in E1. subst k'. rewrite jseqb_refl in E.
      discriminate.
Qed.

(** After the [forEach], [nodeIdMap] holds a string under the id of every
    copied node. *)
Lemma fill_holds (generateNodeId : nat -> jsstring) (copied : list Node.t) :
  (forall node, In node copied -> Node.id node <> js "__proto__") ->
  forall (calls : nat) (m : properties) (k : jsstring),
    In k (ids copied) \/ (exists v, lookup k m = Some (VString v)) ->
    exists v, lookup k (fill generateNodeId copied calls m)
              = Some (VString v).
Proof.
  induction copied as [|node rest IH]; intros P calls m k; cbn [fill].
  - intros [[]|E]. exact E.
  - intros D. apply IH; [intros n I; apply P; right; exact I|].
    unfold assign.
    assert (Q : jseqb (Node.id node) (js "__proto__") = false)
      by (apply jseqb_false, P; left; reflexivity).
    rewrite Q, lookup_update.
    destruct (jseqb k (Node.id node)) eqn:E; [right; eauto|].
    destruct D as [[D|D]|D]; [|left; exact D | right; exact D].
    subst k. rewrite jseqb_refl in E. discriminate.
Qed.








Lemma newNodes_positions (m : properties) (copied nn : list Node.t) :
  newNodes m copied = Some nn ->
  map Node.position nn
  = map (fun node =>
           (Number.add (fst (Node.position node)) PASTE_OFFSET,
            Number.add (snd (Node.position node)) PASTE_OFFSET)) copied.
Proof.
  revert nn. induction copied as [|node rest IH]; intros nn; cbn [newNodes].
  - intros [= <-]. reflexivity.
  - destruct (read m (Node.id node)); [|discriminate].
    destruct (newNodes m rest) as [l|]; [|discriminate].
    intros [= <-]. cbn [map Node.position]. f_equal. apply IH. reflexivity.
Qed.

(** X12: of two pastes in a row, the second puts its nodes exactly where
    the first put its own: each copy is 50 to the right of and 50 below
    the copied node, however often it is pasted. *)
Theorem pasting_twice_lands_on_the_same_place
        (g1 e1 g2 e2 : nat -> jsstring) (s s1 s2 : flow) :
  pasteSelected g1 e1 s = Some s1 ->
  pasteSelected g2 e2 s1 = Some s2 ->
  exists n1 n2,
    nodes s1 = nodes s ++ n1
    /\ nodes s2 = nodes s1 ++ n2
    /\ map Node.position n1 = map Node.position n2
    /\ (copiedNodes s <> [] -> reactFlowInstance s = true ->
        map Node.position n1
        = map (fun node =>
                 (Number.add (fst (Node.position node)) PASTE_OFFSET,
                  Number.add (snd (Node.position node)) PASTE_OFFSET))
              (copiedNodes s)).
Proof.
  unfold pasteSelected.
  destruct (Nat.eqb (length (copiedNodes s)) 0) eqn:Z.
  - intros [= <-]. rewrite Z. intros [= <-]. exists [], [].
    rewrite app_nil_r. repeat split.
    apply Nat.eqb_eq, length_zero_iff_nil in Z. intros N. contradiction.
  - destruct (reactFlowInstance s) eqn:R; cbn [negb].
    + cbv zeta.
      destruct (newNodes (fill g1 (copiedNodes s) 0 []) (copiedNodes s))
        as [nn1|] eqn:N1; [|discriminate].
      destruct (newEdges e1 (fill g1 (copiedNodes s) 0 []) (copiedEdges s) 0)
        as [ne1|]; [|discriminate].
      intros [= <-]. cbn [copiedNodes copiedEdges reactFlowInstance nodes].
      rewrite Z. cbn [negb].
      destruct (newNodes (fill g2 (copiedNodes s) 0 []) (copiedNodes s))
        as [nn2|] eqn:N2; [|discriminate].
      destruct (newEdges e2 (fill g2 (copiedNodes s) 0 []) (copiedEdges s) 0)
        as [ne2|]; [|discriminate].
      intros [= <-]. cbn [nodes]. exists nn1, nn2.
      apply newNodes_positions in N1, N2. rewrite N1, N2.
      repeat split.
    + intros [= <-]. rewrite Z, R. cbn [negb]. intros [= <-].
      exists [], []. rewrite app_nil_r. repeat split. discriminate.
Qed.

End CopyPasteFacts.

(** ** The rewriting of one declaration *)

Section RewriterForms.

(** Word characters are none of the characters the patterns expect
    around a name. *)
Lemma word_char (c : jschar) :
  is_word c = true ->
  is_space c = false /\ is_quote c = false
  /\ (44 =? c)%N = false /\ (42 =? c)%N = false /\ (123 =? c)%N = false.
Proof.
  unfold is_word, is_space, is_quote. intros W.
  rewrite ?orb_true_iff, ?andb_true_iff, ?N.leb_le, ?N.eqb_eq in W.
  repeat split;
    rewrite ?orb_false_iff, ?andb_false_iff, ?N.leb_gt, ?N.eqb_neq; lia.
Qed.

Lemma strip_prefix_app (l s : jsstring) : strip_prefix l (l ++ s) = Some s.
Proof.
  induction l as [|x l IH]; cbn [strip_prefix app]; [reflexivity|].
  rewrite N.eqb_refl. exact IH.
Qed.

Lemma rmatch_str R (l s : jsstring) (caps : captures)
      (k : jsstring -> captures -> option R) :
  rmatch (Str l) (l ++ s) caps k = k s caps.
Proof. cbn [rmatch]. rewrite strip_prefix_app. reflexivity. Qed.

Lemma star_stop R (p : jschar -> bool) (s : jsstring)
      (k : jsstring -> option R) :
  stops p s -> star p s k = k s.
Proof. destruct s as [|c s]; cbn [star stops]; [|intros ->]; reflexivity. Qed.

Lemma star_app R (p : jschar -> bool) (w t : jsstring)
      (k : jsstring -> option R) (x : R) :
  forallb p w = true -> star p t k = Some x -> star p (w ++ t) k = Some x.
Proof.
  induction w as [|c w IH]; cbn [forallb app star]; intros W E; [exact E|].
  apply andb_prop in W. destruct W as [-> W]. rewrite (IH W E). reflexivity.
Qed.

Lemma star_none R (p : jschar -> bool) (w t : jsstring)
      (k : jsstring -> option R) :
  forallb p w = true ->
  (forall c s, p c = true -> k (c :: s) = None) ->
  star p t k = None ->
  star p (w ++ t) k = None.
Proof.
  induction w as [|c w IH]; cbn [forallb app star]; intros W K E; [exact E|].
  apply andb_prop in W. destruct W as [Pc W]. rewrite Pc, (IH W K E).
  apply K, Pc.
Qed.

Lemma firstn_app_length A (w t : list A) :
  firstn (length (w ++ t) - length t) (w ++ t) = w.
Proof.
  rewrite length_app. replace (length w + length t - length t)
    with (length w + 0) by lia.
  rewrite firstn_app_2. cbn [firstn]. apply app_nil_r.
Qed.

Lemma rmatch_star R (p : jschar -> bool) (w t : jsstring) (caps : captures)
      (k : jsstring -> captures -> option R) (x : R) :
  forallb p w = true -> stops p t -> k t caps = Some x ->
  rmatch (Star p) (w ++ t) caps k = Some x.
Proof.
  intros W S E. cbn [rmatch]. apply star_app; [exact W|].
  rewrite star_stop by exact S. exact E.
Qed.

Lemma rmatch_plus R (p : jschar -> bool) (w t : jsstring) (caps : captures)
      (k : jsstring -> captures -> option R) (x : R) :
  w <> [] -> forallb p w = true -> stops p t -> k t caps = Some x ->
  rmatch (Plus p) (w ++ t) caps k = Some x.
Proof.
  destruct w as [|c w]; [contradiction|]. intros _ W S E.
  cbn [forallb] in W. apply andb_prop in W. destruct W as [Pc W].
  cbn [rmatch app]. rewrite Pc. apply star_app; [exact W|].
  rewrite star_stop by exact S. exact E.
Qed.

Lemma rmatch_plus_one R (p : jschar -> bool) (c : jschar) (s : jsstring)
      (caps : captures) (k : jsstring -> captures -> option R) :
  p c = true -> stops p s -> rmatch (Plus p) (c :: s) caps k = k s caps.
Proof.
  intros Pc S. cbn [rmatch]. rewrite Pc. apply star_stop, S.
Qed.

Lemma rmatch_cls R (p : jschar -> bool) (c : jschar) (s : jsstring)
      (caps : captures) (k : jsstring -> captures -> option R) :
  p c = true -> rmatch (Cls p) (c :: s) caps k = k s caps.
Proof. intros Pc. cbn [rmatch]. rewrite Pc. reflexivity. Qed.

Lemma rmatch_group_plus R (i : nat) (p : jschar -> bool) (w t : jsstring)
      (caps : captures) (k : jsstring -> captures -> option R) (x : R) :
  w <> [] -> forallb p w = true -> stops p t ->
  k t ((i, w) :: caps) = Some x ->
  rmatch (Grp i (Plus p)) (w ++ t) caps k = Some x.
Proof.
  intros N W S E. cbn [rmatch].
  change (match w ++ t with
          | [] => None
          | c :: s' =>
              if p c
              then star p s'
                     (fun s'' =>
                        k s'' ((i, firstn (length (w ++ t) - length s'')
                                          (w ++ t)) :: caps))
              else None
          end = Some x).
  destruct w as [|c w]; [contradiction|].
  cbn [forallb] in W. apply andb_prop in W. destruct W as [Pc W].
  cbn [app]. rewrite Pc. apply star_app; [exact W|].
  rewrite star_stop by exact S.
  change (c :: w ++ t) with ((c :: w) ++ t).
  rewrite firstn_app_length. exact E.
Qed.

Lemma replace_from_skip (r : regex) (t : template) (a b : jsstring) :
  replace_from r t (a ++ b) (length a) = replace_from r t b 0.
Proof.
  induction a as [|c a IH]; [reflexivity|].
  cbn [app length replace_from]. exact IH.
Qed.

(** The replacement of a match at the start of the text. *)
Lemma replace_at_start (r : regex) (t : template) (s a b : jsstring)
      (m : captures) :
  s = a ++ b -> a <> [] ->
  match_at r s = Some (length s - length b, m) ->
  replace r t s = expand t m ++ replace r t b.
Proof.
  intros -> N M. unfold replace.
  destruct a as [|c a]; [contradiction|].
  cbn [app replace_from]. cbn [app] in M. rewrite M.
  f_equal.
  replace (length (c :: a ++ b) - length b) with (S (length a))
    by (cbn [length]; rewrite length_app; lia).
  apply replace_from_skip.
Qed.

(** A pattern that begins with a keyword, on a text where the keyword
    occurs at most at the start and the pattern does not match there. *)
Lemma replace_no_match (l : jsstring) (r : regex) (t : template)
      (c : jschar) (s : jsstring) :
  match_at (Seq (Str l) r) (c :: s) = None ->
  contains l s = false ->
  replace (Seq (Str l) r) t (c :: s) = c :: s.
Proof.
  intros M C. unfold replace. cbn [replace_from]. rewrite M. f_equal.
  apply replace_absent, C.
Qed.

Lemma strip_prefix_sep (l a : jsstring) (c : jschar) (b : jsstring) :
  ~ In c l ->
  strip_prefix l (a ++ c :: b)
  = option_map (fun rest => rest ++ c :: b) (strip_prefix l a).
Proof.
  revert a. induction l as [|x l IH]; intros a F; [reflexivity|].
  destruct a as [|y a]; cbn [strip_prefix app].
  - destruct (N.eqb_spec x c) as [->|_]; [|reflexivity].
    exfalso. apply F. left. reflexivity.
  - destruct (N.eqb x y); [|reflexivity].
    apply IH. intros I. apply F. right. exact I.
Qed.

(** An occurrence of [l] does not go over a character that [l] has not. *)
Lemma contains_sep (l a : jsstring) (c : jschar) (b : jsstring) :
  l <> [] -> ~ In c l ->
  contains l (a ++ c :: b) = contains l a || contains l b.
Proof.
  intros N F. induction a as [|y a IH].
  - cbn [app]. destruct l as [|x l]; [contradiction|].
    cbn [contains strip_prefix].
    destruct (N.eqb_spec x c) as [->|_]; [|reflexivity].
    exfalso. apply F. left. reflexivity.
  - cbn [app]. change (contains l (y :: a ++ c :: b))
      with (match strip_prefix l ((y :: a) ++ c :: b) with
            | Some _ => true
            | None => contains l (a ++ c :: b)
            end).
    rewrite strip_prefix_sep by exact F.
    change (contains l (y :: a))
      with (match strip_prefix l (y :: a) with
            | Some _ => true
            | None => contains l a
            end).
    destruct (strip_prefix l (y :: a)); cbn [option_map]; [reflexivity|].
    exact IH.
Qed.

Lemma contains_sep_head (l : jsstring) (c : jschar) (b : jsstring) :
  l <> [] -> ~ In c l -> contains l (c :: b) = contains l b.
Proof.
  intros N F. change (c :: b) with ([] ++ c :: b).
  rewrite contains_sep by assumption.
  destruct l; [contradiction | reflexivity].
Qed.

Lemma quote_sep (q : jschar) :
  is_quote q = true -> ~ In q (js "import") /\ ~ In q (js "export").
Proof.
  unfold is_quote. intros Q.
  split; intros I; cbn in I;
    repeat (destruct I as [<-|I]; [discriminate Q|]); exact I.
Qed.

Lemma quote_char (q : jschar) :
  is_quote q = true -> is_space q = false /\ not_quote q = false.
Proof.
  unfold not_quote. intros Q. rewrite Q. split; [|reflexivity].
  unfold is_quote in Q. apply orb_prop in Q.
  destruct Q as [Q|Q]; apply N.eqb_eq in Q; subst q; reflexivity.
Qed.

Lemma word_stops_space (w t : jsstring) :
  w <> [] -> forallb is_word w = true -> stops is_space (w ++ t).
Proof.
  destruct w as [|c w]; [contradiction|]. intros _ W.
  cbn [forallb] in W. apply andb_prop in W. destruct W as [W _].
  apply (word_char _ W).
Qed.


Lemma word_sep (c : jschar) :
  is_word c = false -> ~ In c (js "import") /\ ~ In c (js "export").
Proof.
  intros W.
  split; intros I; cbn in I;
    repeat (destruct I as [<-|I]; [discriminate W|]); exact I.
Qed.

(** No occurrence goes over the end of a name. *)
Lemma contains_name (l : jsstring) (N rest : jsstring) :
  l = js "import" \/ l = js "export" ->
  stops is_word rest ->
  contains l N = false -> contains l rest = false ->
  contains l (N ++ rest) = false.
Proof.
  intros L S CN CR.
  assert (NE : l <> []) by (destruct L as [-> | ->]; discriminate).
  destruct rest as [|c rest]; [rewrite app_nil_r; exact CN|].
  cbn [stops] in S. destruct (word_sep _ S) as [S1 S2].
  assert (F : ~ In c l) by (destruct L as [-> | ->]; assumption).
  rewrite contains_sep by assumption. rewrite CN.
  rewrite contains_sep_head in CR by assumption. exact CR.
Qed.

Lemma exec_at_start (r : regex) (s : jsstring) (n : nat) (m : captures) :
  match_at r s = Some (n, m) -> exec r s = Some m.
Proof. intros M. destruct s; cbn [exec]; rewrite M; reflexivity. Qed.

Section DefaultExport.
Variables N rest : jsstring.
Hypothesis N_word : forallb is_word N = true.
Hypothesis N_not_empty : N <> [].
Hypothesis rest_stops : stops is_word rest.
Hypothesis N_no_import : contains (js "import") N = false.
Hypothesis N_no_export : contains (js "export") N = false.
Hypothesis rest_no_import : contains (js "import") rest = false.
Hypothesis rest_no_export : contains (js "export") rest = false.

Let text : jsstring := js "export default function " ++ N ++ rest.

Let spaced : jsstring :=
  js "export" ++ 32%N :: js "default" ++ 32%N :: js "function" ++ 32%N
     :: N ++ rest.

Lemma function_text_no_import : contains (js "import") spaced = false.
Proof.
  unfold spaced.
  assert (S : ~ In 32%N (js "import")) by (cbn; intuition discriminate).
  rewrite !contains_sep by (assumption || discriminate).
  rewrite contains_name; auto.
Qed.

Lemma function_declared_no_export :
  contains (js "export") (js "function " ++ N ++ rest) = false.
Proof.
  change (js "function " ++ N ++ rest)
    with (js "function" ++ 32%N :: N ++ rest).
  assert (S : ~ In 32%N (js "export")) by (cbn; intuition discriminate).
  rewrite !contains_sep by (assumption || discriminate).
  rewrite contains_name; auto.
Qed.

Lemma function_matches :
  match_at (re_export_default_decl "function") spaced
  = Some (length spaced - length rest,
          [(0, firstn (length spaced - length rest) spaced); (1, N)]).
Proof.
  unfold match_at, re_export_default_decl, kw, ws1, word.
  fold spaced. unfold spaced at 1.
  rewrite rmatch_seq, rmatch_str, rmatch_seq.
  rewrite rmatch_plus_one by reflexivity.
  cbv beta. rewrite rmatch_seq, rmatch_str, rmatch_seq.
  rewrite rmatch_plus_one by reflexivity.
  cbv beta. rewrite rmatch_seq, rmatch_str, rmatch_seq.
  rewrite rmatch_plus_one
    by (reflexivity || apply word_stops_space; assumption).
  cbv beta.
  apply rmatch_group_plus; [assumption | assumption | assumption |].
  reflexivity.
Qed.

(** X14: a text that begins with the default export of a function
    declaration named [N] loses the two words before [function], and [N]
    is the recorded name. *)
Theorem default_function_export_is_recorded :
  rewrite text
  = {| processedCode := js "function " ++ N ++ rest;
       defaultExportName := Some N |}.
Proof.
  change text with spaced. unfold rewrite.
  rewrite rewriteImports_absent by apply function_text_no_import.
  pose proof function_declared_no_export as D.
  assert (F : exportDefaultDecl "function"
                {| processedCode := spaced; defaultExportName := None |}
              = {| processedCode := js "function " ++ N ++ rest;
                   defaultExportName := Some N |}).
  { unfold exportDefaultDecl. cbn [processedCode].
    rewrite (exec_at_start _ _ function_matches).
    cbn [group Nat.eqb]. f_equal.
    rewrite (@replace_at_start (re_export_default_decl "function")
               (tpl_decl "function") spaced
               (js "export" ++ 32%N :: js "default" ++ 32%N
                   :: js "function" ++ 32%N :: N)
               rest
               [(0, firstn (length spaced - length rest) spaced); (1, N)])
    ; [ | | | apply function_matches ].
    - unfold re_export_default_decl at 1, kw.
      rewrite replace_absent by exact rest_no_export.
      unfold tpl_decl, expand. cbn [flat_map group Nat.eqb].
      rewrite app_nil_r, <- !app_assoc. reflexivity.
    - unfold spaced.
      repeat (rewrite <- app_assoc; cbn [app]). reflexivity.
    - discriminate. }
  unfold rewriteExports. cbv zeta. rewrite F.
  rewrite (@decl_unchanged "const"%string
             {| processedCode := js "function " ++ N ++ rest;
                defaultExportName := Some N |})
    by (unfold re_export_default_decl, kw; apply exec_absent, D).
  rewrite (@decl_unchanged "class"%string
             {| processedCode := js "function " ++ N ++ rest;
                defaultExportName := Some N |})
    by (unfold re_export_default_decl, kw; apply exec_absent, D).
  unfold exportDefaultExpr. cbn [processedCode defaultExportName].
  unfold re_export_default_expr, kw.
  rewrite !(fun r => exec_absent _ r _ D).
  cbn [processedCode defaultExportName].
  unfold re_export_named, re_export_list, re_export_default, kw.
  rewrite !(fun r t => replace_absent _ r t _ D). reflexivity.
Qed.

End DefaultExport.

Lemma rmatch_char R (c : jschar) (s : jsstring) (caps : captures)
      (k : jsstring -> captures -> option R) :
  rmatch (Str [c]) (c :: s) caps k = k s caps.
Proof. apply (rmatch_str [c]). Qed.

(** A pattern that begins with a keyword, after a text without the keyword
    that ends with a character the keyword has not. *)
Lemma strip_prefix_clean (l a : jsstring) (c : jschar) (s : jsstring) :
  l <> [] -> ~ In c l -> contains l a = false ->
  strip_prefix l (a ++ c :: s) = None.
Proof.
  intros NE F C. rewrite strip_prefix_sep by exact F.
  destruct (contains_false _ _ C) as [-> _]. reflexivity.
Qed.

Lemma replace_after (l : jsstring) (r : regex) (t : template)
      (a : jsstring) (c : jschar) (s : jsstring) :
  l <> [] -> ~ In c l -> contains l a = false ->
  replace (Seq (Str l) r) t (a ++ c :: s)
  = a ++ c :: replace (Seq (Str l) r) t s.
Proof.
  intros NE F. unfold replace.
  induction a as [|y a IH]; intros C.
  - cbn [app replace_from].
    rewrite match_at_keyword
      by (apply (@strip_prefix_clean l [] c s); assumption).
    reflexivity.
  - cbn [app replace_from].
    rewrite match_at_keyword
      by (apply (@strip_prefix_clean l (y :: a) c s); assumption).
    f_equal. apply IH. apply (contains_false _ _ C).
Qed.


Ltac split_at_separators :=
  repeat first
    [ rewrite contains_sep by (assumption || discriminate)
    | rewrite contains_sep_head by (assumption || discriminate) ].

(** A line that begins with the keyword, holds it nowhere else, ends with
    a character the keyword has not, and is not matched: the replacement
    goes on after it. *)
Lemma replace_line (l : jsstring) (r : regex) (t : template)
      (c : jschar) (inside : jsstring) (s : jschar) (tail : jsstring) :
  l <> [] -> ~ In s l -> contains l inside = false ->
  match_at (Seq (Str l) r) (c :: inside ++ s :: tail) = None ->
  replace (Seq (Str l) r) t (c :: inside ++ s :: tail)
  = c :: inside ++ s :: replace (Seq (Str l) r) t tail.
Proof.
  intros NE F C M. unfold replace. cbn [replace_from]. rewrite M. f_equal.
  apply replace_after; assumption.
Qed.

Section ImportForms.
Variables m : jsstring.
Variables q1 q2 : jschar.
Hypothesis m_plain : forallb not_quote m = true.
Hypothesis m_not_empty : m <> [].
Hypothesis q1_quote : is_quote q1 = true.
Hypothesis q2_quote : is_quote q2 = true.
Hypothesis m_clean : contains (js "import") m = false.

(** The end of every import pattern, on the quoted module name. *)
Lemma from_module_matches R (i : nat) (tail : jsstring) (caps : captures)
      (k : jsstring -> captures -> option R) (x : R) :
  k tail ((i, m) :: caps) = Some x ->
  rmatch (from_module i) (js "from" ++ 32%N :: q1 :: m ++ q2 :: tail) caps k
  = Some x.
Proof.
  intros K.
  destruct (quote_char _ q1_quote) as [S1 _].
  destruct (quote_char _ q2_quote) as [_ N2].
  unfold from_module, kw, ws1, quote.
  rewrite rmatch_seq, rmatch_str, rmatch_seq.
  rewrite rmatch_plus_one by (reflexivity || exact S1).
  cbv beta. rewrite rmatch_seq, rmatch_cls by exact q1_quote.
  cbv beta. rewrite rmatch_seq.
  apply rmatch_group_plus; [assumption | assumption | exact N2 |].
  rewrite rmatch_cls by exact q2_quote. exact K.
Qed.

(** Step 4, the default import. *)
Section Default.
Variable X : jsstring.
Hypothesis X_word : forallb is_word X = true.
Hypothesis X_not_empty : X <> [].
Hypothesis X_clean : contains (js "import") X = false.

Let inside : jsstring :=
  js "mport" ++ 32%N :: X ++ 32%N :: js "from" ++ 32%N :: q1 :: m.

Let flat (tail : jsstring) : jsstring :=
  js "import" ++ 32%N :: X ++ 32%N :: js "from" ++ 32%N :: q1 :: m
     ++ q2 :: tail.

Let out : jsstring :=
  js "const" ++ 32%N :: X ++ 32%N :: js "=" ++ 32%N :: js "require("
     ++ 39%N :: m ++ 39%N :: js ").default" ++ 32%N :: js "||" ++ 32%N
     :: js "require(" ++ 39%N :: m ++ [39%N].

Lemma default_line (tail : jsstring) :
  flat tail = 105%N :: inside ++ q2 :: tail.
Proof.
  unfold flat, inside.
  change (js "import" ++ 32%N :: X ++ 32%N :: js "from" ++ 32%N :: q1 :: m
             ++ q2 :: tail)
    with (105%N :: js "mport" ++ 32%N :: X ++ 32%N :: js "from" ++ 32%N
             :: q1 :: m ++ q2 :: tail).
  repeat (rewrite <- app_assoc; cbn [app]). reflexivity.
Qed.

Lemma default_inside : contains (js "import") inside = false.
Proof.
  unfold inside.
  destruct (quote_sep _ q1_quote) as [S1 _].
  assert (S : ~ In 32%N (js "import")) by (cbn; intuition discriminate).
  split_at_separators. rewrite X_clean, m_clean. reflexivity.
Qed.

Lemma default_out : contains (js "import") out = false.
Proof.
  unfold out.
  assert (S : ~ In 32%N (js "import")) by (cbn; intuition discriminate).
  assert (Q : ~ In 39%N (js "import")) by (cbn; intuition discriminate).
  split_at_separators. rewrite X_clean, m_clean. reflexivity.
Qed.

Lemma css_fails (tail : jsstring) : match_at re_css (flat tail) = None.
Proof.
  unfold flat. destruct X as [|x0 X0]; [contradiction|].
  cbn [forallb] in X_word. apply andb_prop in X_word.
  destruct X_word as [W0 W].
  destruct (word_char _ W0) as (NS & NQ & NC & NA & NB).
  unfold match_at, re_css, kw, ws1, quote.
  rewrite rmatch_seq, rmatch_str, rmatch_seq.
  rewrite rmatch_plus_one by (reflexivity || exact NS).
  rewrite rmatch_seq. cbn [rmatch app]. rewrite NQ. reflexivity.
Qed.

Lemma namespace_fails (tail : jsstring) :
  match_at re_namespace (flat tail) = None.
Proof.
  unfold flat. destruct X as [|x0 X0]; [contradiction|].
  cbn [forallb] in X_word. apply andb_prop in X_word.
  destruct X_word as [W0 W].
  destruct (word_char _ W0) as (NS & NQ & NC & NA & NB).
  unfold match_at, re_namespace, kw, ws1.
  rewrite rmatch_seq, rmatch_str, rmatch_seq.
  rewrite rmatch_plus_one by (reflexivity || exact NS).
  rewrite rmatch_seq. cbn [rmatch app].
  change (strip_prefix (js "*") (x0 :: X0 ++ 32%N :: js "from" ++ 32%N
                                    :: q1 :: m ++ q2 :: tail))
    with (if (42 =? x0)%N
          then Some (X0 ++ 32%N :: js "from" ++ 32%N :: q1 :: m
                        ++ q2 :: tail)
          else None).
  rewrite NA. reflexivity.
Qed.

Lemma named_fails (tail : jsstring) : match_at re_named (flat tail) = None.
Proof.
  unfold flat. destruct X as [|x0 X0]; [contradiction|].
  cbn [forallb] in X_word. apply andb_prop in X_word.
  destruct X_word as [W0 W].
  destruct (word_char _ W0) as (NS & NQ & NC & NA & NB).
  unfold match_at, re_named, kw, ws1.
  rewrite rmatch_seq, rmatch_str, rmatch_seq.
  rewrite rmatch_plus_one by (reflexivity || exact NS).
  rewrite rmatch_seq. cbn [rmatch app].
  change (strip_prefix (js "{") (x0 :: X0 ++ 32%N :: js "from" ++ 32%N
                                    :: q1 :: m ++ q2 :: tail))
    with (if (123 =? x0)%N
          then Some (X0 ++ 32%N :: js "from" ++ 32%N :: q1 :: m
                        ++ q2 :: tail)
          else None).
  rewrite NB. reflexivity.
Qed.

Lemma mixed_fails (tail : jsstring) : match_at re_mixed (flat tail) = None.
Proof.
  unfold flat. destruct X as [|x0 X0]; [contradiction|].
  cbn [forallb] in X_word. apply andb_prop in X_word.
  destruct X_word as [W0 W].
  destruct (word_char _ W0) as (NS & NQ & NC & NA & NB).
  unfold match_at, re_mixed, kw, ws1, ws0, word.
  rewrite rmatch_seq, rmatch_str, rmatch_seq.
  rewrite rmatch_plus_one by (reflexivity || exact NS).
  rewrite rmatch_seq. cbn [rmatch app]. rewrite W0.
  apply star_none; [exact W| |].
  - intros c s Wc. destruct (word_char _ Wc) as (NSc & _ & NCc & _).
    cbn [rmatch star]. rewrite NSc.
    change (strip_prefix (js ",") (c :: s))
      with (if (44 =? c)%N then Some s else None).
    rewrite NCc. reflexivity.
  - reflexivity.
Qed.

Lemma default_matches (tail : jsstring) :
  match_at re_default (flat tail)
  = Some (length (flat tail) - length tail,
          [(0, firstn (length (flat tail) - length tail) (flat tail));
           (2, m); (1, X)]).
Proof.
  unfold match_at, re_default, kw, ws1, word.
  fold (flat tail). unfold flat at 1.
  rewrite rmatch_seq, rmatch_str, rmatch_seq.
  rewrite rmatch_plus_one
    by (reflexivity || apply word_stops_space; assumption).
  cbv beta. rewrite rmatch_seq.
  apply rmatch_group_plus; [assumption | assumption | reflexivity |].
  rewrite rmatch_seq, rmatch_plus_one by reflexivity.
  cbv beta. apply from_module_matches. reflexivity.
Qed.

(** X13: a default import of a name [X] from a module [m] becomes the
    declaration of [X] from [require], whatever follows it: the
    style-sheet, mixed, namespace and named steps pass over it, step 4
    replaces it, step 5 passes over the result, and the text after it is
    rewritten on its own. *)
Theorem default_import_becomes_require (rest : jsstring) :
  rewriteImports
    (js "import " ++ X ++ js " from " ++ [q1] ++ m ++ [q2] ++ rest)
  = js "const " ++ X ++ js " = require('" ++ m
       ++ js "').default || require('" ++ m ++ js "')"
       ++ rewriteImports rest.
Proof.
  change (js "import " ++ X ++ js " from " ++ [q1] ++ m ++ [q2] ++ rest)
    with (flat rest).
  destruct (quote_sep _ q2_quote) as [S2 _].
  assert (P : ~ In 41%N (js "import")) by (cbn; intuition discriminate).
  assert (NE : js "import" <> []) by discriminate.
  assert (B : forall r t tail,
             match_at (Seq (Str (js "import")) r) (flat tail) = None ->
             replace (Seq (Str (js "import")) r) t (flat tail)
             = flat (replace (Seq (Str (js "import")) r) t tail)).
  { intros r t tail M. rewrite !default_line in *.
    apply replace_line; auto using default_inside. }
  assert (A : forall r t tail,
             replace (Seq (Str (js "import")) r) t (out ++ 41%N :: tail)
             = out ++ 41%N :: replace (Seq (Str (js "import")) r) t tail).
  { intros r t tail. apply replace_after; auto using default_out. }
  assert (E : forall tail,
             replace re_default tpl_default (flat tail)
             = out ++ 41%N :: replace re_default tpl_default tail).
  { intros tail.
    rewrite (@replace_at_start re_default tpl_default (flat tail)
               (105%N :: inside ++ [q2]) tail
               [(0, firstn (length (flat tail) - length tail) (flat tail));
                (2, m); (1, X)]).
    - unfold tpl_default, expand, out. cbn [flat_map group Nat.eqb].
      rewrite app_nil_r.
      repeat (rewrite <- app_assoc; cbn [app]). reflexivity.
    - rewrite default_line. cbn [app]. rewrite <- app_assoc. reflexivity.
    - discriminate.
    - apply default_matches. }
  unfold rewriteImports. cbv zeta.
  set (r0 := replace re_css tpl_css rest).
  set (r1 := replace re_mixed tpl_mixed r0).
  set (r2 := replace re_namespace tpl_namespace r1).
  set (r3 := replace re_named tpl_named r2).
  set (r4 := replace re_default tpl_default r3).
  set (r5 := replace re_side_effect tpl_side_effect r4).
  assert (E0 : replace re_css tpl_css (flat rest) = flat r0)
    by apply B, css_fails.
  assert (E1 : replace re_mixed tpl_mixed (flat r0) = flat r1)
    by apply B, mixed_fails.
  assert (E2 : replace re_namespace tpl_namespace (flat r1) = flat r2)
    by apply B, namespace_fails.
  assert (E3 : replace re_named tpl_named (flat r2) = flat r3)
    by apply B, named_fails.
  assert (E5 : replace re_side_effect tpl_side_effect (out ++ 41%N :: r4)
               = out ++ 41%N :: r5)
    by apply A.
  rewrite E0, E1, E2, E3, (E r3). fold r4. rewrite E5.
  unfold out. repeat (rewrite <- app_assoc; cbn [app]). reflexivity.
Qed.

End Default.

(** Step 3, the named import. *)
Section Named.
Variable names : jsstring.
Hypothesis names_plain : forallb not_rbrace names = true.
Hypothesis names_not_empty : names <> [].
Hypothesis names_clean : contains (js "import") names = false.

Let inside : jsstring :=
  js "mport" ++ 32%N :: 123%N :: names ++ 125%N :: 32%N :: js "from"
     ++ 32%N :: q1 :: m.

Let flat (tail : jsstring) : jsstring :=
  js "import" ++ 32%N :: 123%N :: names ++ 125%N :: 32%N :: js "from"
     ++ 32%N :: q1 :: m ++ q2 :: tail.

Let out : jsstring :=
  js "const" ++ 32%N :: 123%N :: names ++ 125%N :: 32%N :: js "=" ++ 32%N
     :: js "require(" ++ 39%N :: m ++ [39%N].

Lemma named_line (tail : jsstring) :
  flat tail = 105%N :: inside ++ q2 :: tail.
Proof.
  unfold flat, inside.
  change (js "import" ++ 32%N :: 123%N :: names ++ 125%N :: 32%N
             :: js "from" ++ 32%N :: q1 :: m ++ q2 :: tail)
    with (105%N :: js "mport" ++ 32%N :: 123%N :: names ++ 125%N :: 32%N
             :: js "from" ++ 32%N :: q1 :: m ++ q2 :: tail).
  repeat (rewrite <- app_assoc; cbn [app]). reflexivity.
Qed.

Lemma named_inside : contains (js "import") inside = false.
Proof.
  unfold inside.
  destruct (quote_sep _ q1_quote) as [S1 _].
  assert (S : ~ In 32%N (js "import")) by (cbn; intuition discriminate).
  assert (L : ~ In 123%N (js "import")) by (cbn; intuition discriminate).
  assert (B : ~ In 125%N (js "import")) by (cbn; intuition discriminate).
  split_at_separators. rewrite names_clean, m_clean. reflexivity.
Qed.

Lemma named_out : contains (js "import") out = false.
Proof.
  unfold out.
  assert (S : ~ In 32%N (js "import")) by (cbn; intuition discriminate).
  assert (Q : ~ In 39%N (js "import")) by (cbn; intuition discriminate).
  assert (L : ~ In 123%N (js "import")) by (cbn; intuition discriminate).
  assert (B : ~ In 125%N (js "import")) by (cbn; intuition discriminate).
  split_at_separators. rewrite names_clean, m_clean. reflexivity.
Qed.

Lemma named_matches (tail : jsstring) :
  match_at re_named (flat tail)
  = Some (length (flat tail) - length tail,
          [(0, firstn (length (flat tail) - length tail) (flat tail));
           (2, m); (1, names)]).
Proof.
  unfold match_at, re_named, kw, ws1.
  fold (flat tail). unfold flat at 1.
  rewrite rmatch_seq, rmatch_str, rmatch_seq.
  rewrite rmatch_plus_one by reflexivity.
  cbv beta. change (js "{") with [123%N]. change (js "}") with [125%N].
  rewrite rmatch_seq, rmatch_char, rmatch_seq.
  apply rmatch_group_plus; [assumption | assumption | reflexivity |].
  rewrite rmatch_seq, rmatch_char, rmatch_seq.
  rewrite rmatch_plus_one by reflexivity.
  cbv beta. apply from_module_matches. reflexivity.
Qed.

(** X15: a named import becomes a destructuring of [require], whatever
    follows it: the text between the braces is kept as it is, the module
    name is put between single quotes, and the text after it is rewritten
    on its own. *)
Theorem named_import_becomes_require (rest : jsstring) :
  rewriteImports
    (js "import {" ++ names ++ js "} from " ++ [q1] ++ m ++ [q2] ++ rest)
  = js "const {" ++ names ++ js "} = require('" ++ m ++ js "')"
       ++ rewriteImports rest.
Proof.
  change (js "import {" ++ names ++ js "} from " ++ [q1] ++ m ++ [q2]
             ++ rest)
    with (flat rest).
  destruct (quote_sep _ q2_quote) as [S2 _].
  assert (P : ~ In 41%N (js "import")) by (cbn; intuition discriminate).
  assert (NE : js "import" <> []) by discriminate.
  assert (B : forall r t tail,
             match_at (Seq (Str (js "import")) r) (flat tail) = None ->
             replace (Seq (Str (js "import")) r) t (flat tail)
             = flat (replace (Seq (Str (js "import")) r) t tail)).
  { intros r t tail M. rewrite !named_line in *.
    apply replace_line; auto using named_inside. }
  assert (A : forall r t tail,
             replace (Seq (Str (js "import")) r) t (out ++ 41%N :: tail)
             = out ++ 41%N :: replace (Seq (Str (js "import")) r) t tail).
  { intros r t tail. apply replace_after; auto using named_out. }
  assert (E : forall tail,
             replace re_named tpl_named (flat tail)
             = out ++ 41%N :: replace re_named tpl_named tail).
  { intros tail.
    rewrite (@replace_at_start re_named tpl_named (flat tail)
               (105%N :: inside ++ [q2]) tail
               [(0, firstn (length (flat tail) - length tail) (flat tail));
                (2, m); (1, names)]).
    - unfold tpl_named, expand, out. cbn [flat_map group Nat.eqb].
      rewrite app_nil_r.
      repeat (rewrite <- app_assoc; cbn [app]). reflexivity.
    - rewrite named_line. cbn [app]. rewrite <- app_assoc. reflexivity.
    - discriminate.
    - apply named_matches. }
  unfold rewriteImports. cbv zeta.
  set (r0 := replace re_css tpl_css rest).
  set (r1 := replace re_mixed tpl_mixed r0).
  set (r2 := replace re_namespace tpl_namespace r1).
  set (r3 := replace re_named tpl_named r2).
  set (r4 := replace re_default tpl_default r3).
  set (r5 := replace re_side_effect tpl_side_effect r4).
  assert (E0 : replace re_css tpl_css (flat rest) = flat r0)
    by (apply B; reflexivity).
  assert (E1 : replace re_mixed tpl_mixed (flat r0) = flat r1)
    by (apply B; reflexivity).
  assert (E2 : replace re_namespace tpl_namespace (flat r1) = flat r2)
    by (apply B; reflexivity).
  assert (E4 : replace re_default tpl_default (out ++ 41%N :: r3)
               = out ++ 41%N :: r4)
    by apply A.
  assert (E5 : replace re_side_effect tpl_side_effect (out ++ 41%N :: r4)
               = out ++ 41%N :: r5)
    by apply A.
  rewrite E0, E1, E2, (E r2). fold r3. rewrite E4, E5.
  unfold out. repeat (rewrite <- app_assoc; cbn [app]). reflexivity.
Qed.

End Named.

(** Step 2, the namespace import. *)
Section Namespace.
Variable X : jsstring.
Hypothesis X_word : forallb is_word X = true.
Hypothesis X_not_empty : X <> [].
Hypothesis X_clean : contains (js "import") X = false.

Let inside : jsstring :=
  js "mport" ++ 32%N :: 42%N :: 32%N :: js "as" ++ 32%N :: X ++ 32%N
     :: js "from" ++ 32%N :: q1 :: m.

Let flat (tail : jsstring) : jsstring :=
  js "import" ++ 32%N :: 42%N :: 32%N :: js "as" ++ 32%N :: X ++ 32%N
     :: js "from" ++ 32%N :: q1 :: m ++ q2 :: tail.

Let out : jsstring :=
  js "const" ++ 32%N :: X ++ 32%N :: js "=" ++ 32%N :: js "require("
     ++ 39%N :: m ++ [39%N].

Lemma namespace_line (tail : jsstring) :
  flat tail = 105%N :: inside ++ q2 :: tail.
Proof.
  unfold flat, inside.
  change (js "import" ++ 32%N :: 42%N :: 32%N :: js "as" ++ 32%N :: X
             ++ 32%N :: js "from" ++ 32%N :: q1 :: m ++ q2 :: tail)
    with (105%N :: js "mport" ++ 32%N :: 42%N :: 32%N :: js "as" ++ 32%N
             :: X ++ 32%N :: js "from" ++ 32%N :: q1 :: m ++ q2 :: tail).
  repeat (rewrite <- app_assoc; cbn [app]). reflexivity.
Qed.

Lemma namespace_inside : contains (js "import") inside = false.
Proof.
  unfold inside.
  destruct (quote_sep _ q1_quote) as [S1 _].
  assert (S : ~ In 32%N (js "import")) by (cbn; intuition discriminate).
  assert (A : ~ In 42%N (js "import")) by (cbn; intuition discriminate).
  split_at_separators. rewrite X_clean, m_clean. reflexivity.
Qed.

Lemma namespace_out : contains (js "import") out = false.
Proof.
  unfold out.
  assert (S : ~ In 32%N (js "import")) by (cbn; intuition discriminate).
  assert (Q : ~ In 39%N (js "import")) by (cbn; intuition discriminate).
  split_at_separators. rewrite X_clean, m_clean. reflexivity.
Qed.

Lemma namespace_matches (tail : jsstring) :
  match_at re_namespace (flat tail)
  = Some (length (flat tail) - length tail,
          [(0, firstn (length (flat tail) - length tail) (flat tail));
           (2, m); (1, X)]).
Proof.
  unfold match_at, re_namespace, kw, ws1, word.
  fold (flat tail). unfold flat at 1.
  rewrite rmatch_seq, rmatch_str, rmatch_seq.
  rewrite rmatch_plus_one by reflexivity.
  cbv beta. change (js "*") with [42%N].
  rewrite rmatch_seq, rmatch_char, rmatch_seq.
  rewrite rmatch_plus_one by reflexivity.
  cbv beta. rewrite rmatch_seq, rmatch_str, rmatch_seq.
  rewrite rmatch_plus_one
    by (reflexivity || apply word_stops_space; assumption).
  cbv beta. rewrite rmatch_seq.
  apply rmatch_group_plus; [assumption | assumption | reflexivity |].
  rewrite rmatch_seq, rmatch_plus_one by reflexivity.
  cbv beta. apply from_module_matches. reflexivity.
Qed.

(** X16: a namespace import becomes the declaration of the name from
    [require], whatever follows it, and the text after it is rewritten on
    its own. *)
Theorem namespace_import_becomes_require (rest : jsstring) :
  rewriteImports
    (js "import * as " ++ X ++ js " from " ++ [q1] ++ m ++ [q2] ++ rest)
  = js "const " ++ X ++ js " = require('" ++ m ++ js "')"
       ++ rewriteImports rest.
Proof.
  change (js "import * as " ++ X ++ js " from " ++ [q1] ++ m ++ [q2]
             ++ rest)
    with (flat rest).
  destruct (quote_sep _ q2_quote) as [S2 _].
  assert (P : ~ In 41%N (js "import")) by (cbn; intuition discriminate).
  assert (NE : js "import" <> []) by discriminate.
  assert (B : forall r t tail,
             match_at (Seq (Str (js "import")) r) (flat tail) = None ->
             replace (Seq (Str (js "import")) r) t (flat tail)
             = flat (replace (Seq (Str (js "import")) r) t tail)).
  { intros r t tail M. rewrite !namespace_line in *.
    apply replace_line; auto using namespace_inside. }
  assert (A : forall r t tail,
             replace (Seq (Str (js "import")) r) t (out ++ 41%N :: tail)
             = out ++ 41%N :: replace (Seq (Str (js "import")) r) t tail).
  { intros r t tail. apply replace_after; auto using namespace_out. }
  assert (E : forall tail,
             replace re_namespace tpl_namespace (flat tail)
             = out ++ 41%N :: replace re_namespace tpl_namespace tail).
  { intros tail.
    rewrite (@replace_at_start re_namespace tpl_namespace (flat tail)
               (105%N :: inside ++ [q2]) tail
               [(0, firstn (length (flat tail) - length tail) (flat tail));
                (2, m); (1, X)]).
    - unfold tpl_namespace, expand, out. cbn [flat_map group Nat.eqb].
      rewrite app_nil_r.
      repeat (rewrite <- app_assoc; cbn [app]). reflexivity.
    - rewrite namespace_line. cbn [app]. rewrite <- app_assoc.
      reflexivity.
    - discriminate.
    - apply namespace_matches. }
  unfold rewriteImports. cbv zeta.
  set (r0 := replace re_css tpl_css rest).
  set (r1 := replace re_mixed tpl_mixed r0).
  set (r2 := replace re_namespace tpl_namespace r1).
  set (r3 := replace re_named tpl_named r2).
  set (r4 := replace re_default tpl_default r3).
  set (r5 := replace re_side_effect tpl_side_effect r4).
  assert (E0 : replace re_css tpl_css (flat rest) = flat r0)
    by (apply B; reflexivity).
  assert (E1 : replace re_mixed tpl_mixed (flat r0) = flat r1)
    by (apply B; reflexivity).
  assert (E3 : replace re_named tpl_named (out ++ 41%N :: r2)
               = out ++ 41%N :: r3)
    by apply A.
  assert (E4 : replace re_default tpl_default (out ++ 41%N :: r3)
               = out ++ 41%N :: r4)
    by apply A.
  assert (E5 : replace re_side_effect tpl_side_effect (out ++ 41%N :: r4)
               = out ++ 41%N :: r5)
    by apply A.
  rewrite E0, E1, (E r1). fold r2. rewrite E3, E4, E5.
  unfold out. repeat (rewrite <- app_assoc; cbn [app]). reflexivity.
Qed.

End Namespace.

(** Step 1, the mixed import. *)
Section Mixed.
Variables A names : jsstring.
Hypothesis A_word : forallb is_word A = true.
Hypothesis A_not_empty : A <> [].
Hypothesis A_clean : contains (js "import") A = false.
Hypothesis names_plain : forallb not_rbrace names = true.
Hypothesis names_not_empty : names <> [].
Hypothesis names_clean : contains (js "import") names = false.

Let inside : jsstring :=
  js "mport" ++ 32%N :: A ++ 44%N :: 32%N :: 123%N :: names ++ 125%N
     :: 32%N :: js "from" ++ 32%N :: q1 :: m.

Let flat (tail : jsstring) : jsstring :=
  js "import" ++ 32%N :: A ++ 44%N :: 32%N :: 123%N :: names ++ 125%N
     :: 32%N :: js "from" ++ 32%N :: q1 :: m ++ q2 :: tail.

Let out : jsstring :=
  js "const" ++ 32%N :: A ++ 32%N :: js "=" ++ 32%N :: js "require("
     ++ 39%N :: m ++ 39%N :: js ").default" ++ 32%N :: js "||" ++ 32%N
     :: js "require(" ++ 39%N :: m ++ 39%N :: js ");" ++ 32%N :: js "const"
     ++ 32%N :: 123%N :: names ++ 125%N :: 32%N :: js "=" ++ 32%N
     :: js "require(" ++ 39%N :: m ++ [39%N].

Lemma mixed_line (tail : jsstring) :
  flat tail = 105%N :: inside ++ q2 :: tail.
Proof.
  unfold flat, inside.
  change (js "import" ++ 32%N :: A ++ 44%N :: 32%N :: 123%N :: names
             ++ 125%N :: 32%N :: js "from" ++ 32%N :: q1 :: m ++ q2
             :: tail)
    with (105%N :: js "mport" ++ 32%N :: A ++ 44%N :: 32%N :: 123%N
             :: names ++ 125%N :: 32%N :: js "from" ++ 32%N :: q1 :: m
             ++ q2 :: tail).
  repeat (rewrite <- app_assoc; cbn [app]). reflexivity.
Qed.

Lemma mixed_inside : contains (js "import") inside = false.
Proof.
  unfold inside.
  destruct (quote_sep _ q1_quote) as [S1 _].
  assert (S : ~ In 32%N (js "import")) by (cbn; intuition discriminate).
  assert (C : ~ In 44%N (js "import")) by (cbn; intuition discriminate).
  assert (L : ~ In 123%N (js "import")) by (cbn; intuition discriminate).
  assert (B : ~ In 125%N (js "import")) by (cbn; intuition discriminate).
  split_at_separators. rewrite A_clean, names_clean, m_clean. reflexivity.
Qed.

Lemma mixed_out : contains (js "import") out = false.
Proof.
  unfold out.
  assert (S : ~ In 32%N (js "import")) by (cbn; intuition discriminate).
  assert (Q : ~ In 39%N (js "import")) by (cbn; intuition discriminate).
  assert (L : ~ In 123%N (js "import")) by (cbn; intuition discriminate).
  assert (B : ~ In 125%N (js "import")) by (cbn; intuition discriminate).
  split_at_separators. rewrite A_clean, names_clean, m_clean. reflexivity.
Qed.

Lemma mixed_css_fails (tail : jsstring) :
  match_at re_css (flat tail) = None.
Proof.
  unfold flat. destruct A as [|a0 A0]; [contradiction|].
  cbn [forallb] in A_word. apply andb_prop in A_word.
  destruct A_word as [W0 W].
  destruct (word_char _ W0) as (NS & NQ & _).
  unfold match_at, re_css, kw, ws1, quote.
  rewrite rmatch_seq, rmatch_str, rmatch_seq.
  rewrite rmatch_plus_one by (reflexivity || exact NS).
  rewrite rmatch_seq. cbn [rmatch app]. rewrite NQ. reflexivity.
Qed.

Lemma mixed_matches (tail : jsstring) :
  match_at re_mixed (flat tail)
  = Some (length (flat tail) - length tail,
          [(0, firstn (length (flat tail) - length tail) (flat tail));
           (3, m); (2, names); (1, A)]).
Proof.
  unfold match_at, re_mixed, kw, ws1, ws0, word.
  fold (flat tail). unfold flat at 1.
  rewrite rmatch_seq, rmatch_str, rmatch_seq.
  rewrite rmatch_plus_one
    by (reflexivity || apply word_stops_space; assumption).
  cbv beta. rewrite rmatch_seq.
  apply rmatch_group_plus; [assumption | assumption | reflexivity |].
  rewrite rmatch_seq.
  apply (@rmatch_star _ is_space []); [reflexivity | reflexivity |].
  change (js ",") with [44%N]. change (js "{") with [123%N].
  change (js "}") with [125%N].
  rewrite rmatch_seq, rmatch_char, rmatch_seq.
  apply (@rmatch_star _ is_space [32%N]); [reflexivity | reflexivity |].
  rewrite rmatch_seq, rmatch_char, rmatch_seq.
  apply rmatch_group_plus; [assumption | assumption | reflexivity |].
  rewrite rmatch_seq, rmatch_char, rmatch_seq.
  rewrite rmatch_plus_one by reflexivity.
  cbv beta. apply from_module_matches. reflexivity.
Qed.

(** X17: a mixed import becomes two declarations, whatever follows it:
    the default name from the default export or else the module, and the
    destructuring of the names between the braces; the text after it is
    rewritten on its own. *)
Theorem mixed_import_becomes_require (rest : jsstring) :
  rewriteImports
    (js "import " ++ A ++ js ", {" ++ names ++ js "} from " ++ [q1] ++ m
        ++ [q2] ++ rest)
  = js "const " ++ A ++ js " = require('" ++ m
       ++ js "').default || require('" ++ m ++ js "'); const {"
       ++ names ++ js "} = require('" ++ m ++ js "')"
       ++ rewriteImports rest.
Proof.
  change (js "import " ++ A ++ js ", {" ++ names ++ js "} from " ++ [q1]
             ++ m ++ [q2] ++ rest)
    with (flat rest).
  destruct (quote_sep _ q2_quote) as [S2 _].
  assert (P : ~ In 41%N (js "import")) by (cbn; intuition discriminate).
  assert (NE : js "import" <> []) by discriminate.
  assert (B : forall r t tail,
             match_at (Seq (Str (js "import")) r) (flat tail) = None ->
             replace (Seq (Str (js "import")) r) t (flat tail)
             = flat (replace (Seq (Str (js "import")) r) t tail)).
  { intros r t tail M. rewrite !mixed_line in *.
    apply replace_line; auto using mixed_inside. }
  assert (F : forall r t tail,
             replace (Seq (Str (js "import")) r) t (out ++ 41%N :: tail)
             = out ++ 41%N :: replace (Seq (Str (js "import")) r) t tail).
  { intros r t tail. apply replace_after; auto using mixed_out. }
  assert (E : forall tail,
             replace re_mixed tpl_mixed (flat tail)
             = out ++ 41%N :: replace re_mixed tpl_mixed tail).
  { intros tail.
    rewrite (@replace_at_start re_mixed tpl_mixed (flat tail)
               (105%N :: inside ++ [q2]) tail
               [(0, firstn (length (flat tail) - length tail) (flat tail));
                (3, m); (2, names); (1, A)]).
    - unfold tpl_mixed, expand, out. cbn [flat_map group Nat.eqb].
      rewrite app_nil_r.
      repeat (rewrite <- app_assoc; cbn [app]). reflexivity.
    - rewrite mixed_line. cbn [app]. rewrite <- app_assoc. reflexivity.
    - discriminate.
    - apply mixed_matches. }
  unfold rewriteImports. cbv zeta.
  set (r0 := replace re_css tpl_css rest).
  set (r1 := replace re_mixed tpl_mixed r0).
  set (r2 := replace re_namespace tpl_namespace r1).
  set (r3 := replace re_named tpl_named r2).
  set (r4 := replace re_default tpl_default r3).
  set (r5 := replace re_side_effect tpl_side_effect r4).
  assert (E0 : replace re_css tpl_css (flat rest) = flat r0)
    by apply B, mixed_css_fails.
  assert (E2 : replace re_namespace tpl_namespace (out ++ 41%N :: r1)
               = out ++ 41%N :: r2)
    by apply F.
  assert (E3 : replace re_named tpl_named (out ++ 41%N :: r2)
               = out ++ 41%N :: r3)
    by apply F.
  assert (E4 : replace re_default tpl_default (out ++ 41%N :: r3)
               = out ++ 41%N :: r4)
    by apply F.
  assert (E5 : replace re_side_effect tpl_side_effect (out ++ 41%N :: r4)
               = out ++ 41%N :: r5)
    by apply F.
  rewrite E0, (E r0). fold r1. rewrite E2, E3, E4, E5.
  unfold out. repeat (rewrite <- app_assoc; cbn [app]). reflexivity.
Qed.

End Mixed.

End ImportForms.




Section FinalExport.
Variables body N sp : jsstring.
Hypothesis body_no_import : contains (js "import") body = false.
Hypothesis body_no_export : contains (js "export") body = false.
Hypothesis N_word : forallb is_word N = true.
Hypothesis N_not_empty : N <> [].
Hypothesis N_no_import : contains (js "import") N = false.
Hypothesis N_no_export : contains (js "export") N = false.
Hypothesis sp_space : forallb is_space sp = true.

Let text : jsstring := body ++ [10%N] ++ js "export default " ++ N ++ sp.









End FinalExport.

End RewriterForms.

(** ** Instances *)

Section Instances.
Abbreviation host := MiniJS.host.

(** X1, witness: a text without declarations. *)
Lemma rewrite_without_declarations_witness :
  rewrite throw_null
  = {| processedCode := throw_null; defaultExportName := None |}.
Proof.
  apply rewrite_without_declarations; vm_compute; reflexivity.
Defined.

(** X3, witness: the successful way, on the edited text [widget]. *)
Lemma callback_returns_original_or_function_witness :
  let o := recompile host BasicNodes loaded widget [] in
  skips BasicNodes loaded widget = false
  /\ VNull = VNull
  /\ pipeline host widget [] = Return (heap_after o) (VObject 4)
  /\ typeof MiniJS.func (VObject 4) (heap_after o)
     = Return (heap_after o) (js "function").
Proof.
  intros o.
  apply (@callback_returns_original_or_function MiniJS.func host BasicNodes
           loaded widget [] (heap_after o) Succeeded
           {| component := VObject 4; error := VNull |}).
  vm_compute. reflexivity.
Defined.

(** X4, witness: the reset button after an edit to [widget]. *)
Lemma reset_keeps_the_edited_text_witness :
  let s := after host BasicNodes [Loaded loaded; Edited widget] in
  (editedCode s <> [] ->
   step host BasicNodes (CodeViewer.handleReset s) s = Rendered s)
  /\ exists s',
       step host BasicNodes (CodeViewer.handleReset s) s = Rendered s'
       /\ displayed s' = displayed s
       /\ pipelineRuns s' = pipelineRuns s
       /\ CodeViewer.codeProp s' = CodeViewer.codeProp s.
Proof.
  intros s. apply reset_keeps_the_edited_text.
  apply play_reachable with (evs := [Loaded loaded; Edited widget]).
  vm_compute. reflexivity.
Defined.

(** X19, witness: after the failing edit [not_a_component] the page shows
    the message of the failure, beside the original component. *)
Lemma a_message_stands_beside_the_original_component_witness :
  let pg := Page.page_after host BasicNodes
                            [Loaded loaded; Edited not_a_component] in
  Page.settled host BasicNodes pg
  /\ Page.shown BasicNodes pg
     = Some (Page.Preview BasicNodes (Some not_a_function_message))
  /\ BasicNodes = BasicNodes
  /\ displayed (Page.hooks pg)
     = Some {| component := BasicNodes;
               error := VString not_a_function_message |}.
Proof.
  intros pg.
  assert (S : Page.settled host BasicNodes pg).
  { apply page_play_settled
      with (evs := [Loaded loaded; Edited not_a_component])
           (before := Page.Preview BasicNodes None).
    vm_compute. reflexivity. }
  split; [exact S|].
  assert (V : Page.shown BasicNodes pg
              = Some (Page.Preview BasicNodes (Some not_a_function_message)))
    by (vm_compute; reflexivity).
  split; [exact V|].
  exact (proj1 (proj2 (@a_message_stands_beside_the_original_component
                         MiniJS.func host BasicNodes pg S))
               BasicNodes not_a_function_message V).
Defined.

(** After that failing edit the edit [widget] succeeds.  The commit that
    comes first has the new component (the function object at address 9)
    under the message of the failure; once the effect has run the page has
    the new component and no banner. *)
Lemma a_new_component_under_the_previous_message :
  let pg := Page.page_after host BasicNodes
                            [Loaded loaded; Edited not_a_component] in
  exists pg',
    Page.page_step host BasicNodes (Edited widget) pg
    = Page.Committed
        (Page.Preview (VObject 9) (Some not_a_function_message)) pg'
    /\ Page.shown BasicNodes pg' = Some (Page.Preview (VObject 9) None)
    /\ Page.previewError pg' = VNull.
Proof.
  eexists. split; [vm_compute; reflexivity|].
  split; vm_compute; reflexivity.
Qed.


(** X2, witness: the name recorded for [widget]. *)
Lemma recorded_name_is_a_word_witness :
  js "Widget" <> [] /\ forallb is_word (js "Widget") = true.
Proof.
  apply (proj1 (recorded_name_is_a_word widget [])).
  vm_compute. reflexivity.
Defined.

(** X6, witness: the second node of the chain is deleted. *)
Lemma delete_selected_node_keeps_edges_attached_witness :
  let s := {| InteractiveFlow.nodes := chain_nodes;
              InteractiveFlow.edges := chain_edges;
              InteractiveFlow.selectedNode := Some second |} in
  let s' := InteractiveFlow.deleteSelectedNode s in
  ~ In (js "2") (Flow.ids (InteractiveFlow.nodes s'))
  /\ (forall e, In e (InteractiveFlow.edges s') ->
                Edge.source e <> js "2" /\ Edge.target e <> js "2")
  /\ InteractiveFlow.selectedNode s' = None
  /\ (Flow.closed (InteractiveFlow.nodes s) (InteractiveFlow.edges s) ->
      Flow.closed (InteractiveFlow.nodes s') (InteractiveFlow.edges s')).
Proof.
  intros s.
  apply (@delete_selected_node_keeps_edges_attached s second).
  reflexivity.
Defined.

(** X7, witness: the first [addNode] of the example. *)
Lemma add_node_numbers_the_nodes_witness :
  let s' := InteractiveFlow.addNode (Number.of_Z 0) (Number.of_Z 0)
                                    InteractiveFlow.initial in
  InteractiveFlow.numbered s'
  /\ Flow.ids (InteractiveFlow.nodes s')
     = Flow.ids (InteractiveFlow.nodes InteractiveFlow.initial)
       ++ [digits (Z.of_nat (length (InteractiveFlow.nodes
                                       InteractiveFlow.initial)) + 1)]
  /\ NoDup (Flow.ids (InteractiveFlow.nodes s')).
Proof.
  apply add_node_numbers_the_nodes. vm_compute. reflexivity.
Defined.

(** X8, witness: the first node of the example is clicked and deleted,
    then a node is added: two nodes have the id 3. *)
Lemma add_after_delete_repeats_an_id_witness :
  let first := Node.mk (js "1") (Number.of_Z 100, Number.of_Z 100)
                       (Flow.node_label (js "1")) false in
  let s := InteractiveFlow.onNodeClick first InteractiveFlow.initial in
  let d := InteractiveFlow.deleteSelectedNode s in
  let s' := InteractiveFlow.addNode (Number.of_Z 0) (Number.of_Z 0) d in
  exists old,
    In old (InteractiveFlow.nodes d)
    /\ Node.id old = digits (Z.of_nat (length (InteractiveFlow.nodes s)))
    /\ Flow.ids (InteractiveFlow.nodes s')
       = Flow.ids (InteractiveFlow.nodes d) ++ [Node.id old]
    /\ ~ NoDup (Flow.ids (InteractiveFlow.nodes s')).
Proof.
  intros first s.
  apply (@add_after_delete_repeats_an_id
           (Number.of_Z 0) (Number.of_Z 0) s first).
  - vm_compute. reflexivity.
  - reflexivity.
  - left. reflexivity.
  - vm_compute. discriminate.
Defined.

(** X9, witness: the three nodes of the start and the counter 4. *)
Lemma node_counter_gives_fresh_ids_witness :
  let s := {| DynamicLayout.nodes := chain_nodes;
              DynamicLayout.edges := chain_edges;
              DynamicLayout.nodeCounter := 4 |} in
  ~ In (digits 4) (Flow.ids (DynamicLayout.nodes s))
  /\ (exists (s' : DynamicLayout.flow) (newNode : Node.t),
        DynamicLayout.addNode s = Some s'
        /\ DynamicLayout.nodes s' = DynamicLayout.nodes s ++ [newNode]
        /\ Node.id newNode = digits 4
        /\ DynamicLayout.edges s' = DynamicLayout.edges s
        /\ DynamicLayout.nodeCounter s' = 5%Z
        /\ DynamicLayout.below s'
        /\ NoDup (Flow.ids (DynamicLayout.nodes s')))
  /\ (DynamicLayout.below (DynamicLayout.deleteSelectedNodes s)
      /\ NoDup (Flow.ids (DynamicLayout.nodes
                            (DynamicLayout.deleteSelectedNodes s)))
      /\ DynamicLayout.nodeCounter (DynamicLayout.deleteSelectedNodes s)
         = DynamicLayout.nodeCounter s).
Proof.
  intros s. apply (@node_counter_gives_fresh_ids s).
  - cbn. lia.
  - intros node [<-|[<-|[<-|[]]]];
      [exists 1%Z | exists 2%Z | exists 3%Z];
      (split; [cbn; lia | vm_compute; reflexivity]).
  - vm_compute. repeat constructor; cbn [In]; intuition discriminate.
Defined.

(** X10, witness: the two selected nodes of the chain are deleted. *)
Lemma delete_selected_nodes_keeps_edges_attached_witness :
  let s := {| DynamicLayout.nodes := chain_nodes;
              DynamicLayout.edges := chain_edges;
              DynamicLayout.nodeCounter := 4 |} in
  let s' := DynamicLayout.deleteSelectedNodes s in
  Flow.closed (DynamicLayout.nodes s') (DynamicLayout.edges s')
  /\ (forall node, In node (DynamicLayout.nodes s') ->
                   Node.selected node = false)
  /\ DynamicLayout.nodeCounter s' = DynamicLayout.nodeCounter s.
Proof.
  intros s.
  destruct (@delete_selected_nodes_keeps_edges_attached s) as (C & U & K).
  split; [apply C | split; [exact U | exact K]].
  intros e [<-|[<-|[]]]; split; vm_compute; auto.
Defined.


(** X12, witness: the copy of the chain is pasted twice. *)
Lemma pasting_twice_lands_on_the_same_place_witness :
  let s := CopyPaste.copySelected
             {| CopyPaste.nodes := chain_nodes;
                CopyPaste.edges := chain_edges;
                CopyPaste.copiedNodes := [];
                CopyPaste.copiedEdges := [];
                CopyPaste.reactFlowInstance := true |} in
  let paste (g e : string) s :=
    match CopyPaste.pasteSelected (numeral g) (numeral e) s with
    | Some s' => s'
    | None => s
    end in
  let s1 := paste "node_a"%string "edge_a"%string s in
  let s2 := paste "node_b"%string "edge_b"%string s1 in
  exists n1 n2,
    CopyPaste.nodes s1 = CopyPaste.nodes s ++ n1
    /\ CopyPaste.nodes s2 = CopyPaste.nodes s1 ++ n2
    /\ map Node.position n1 = map Node.position n2
    /\ (CopyPaste.copiedNodes s <> [] ->
        CopyPaste.reactFlowInstance s = true ->
        map Node.position n1
        = map (fun node =>
                 (Number.add (fst (Node.position node))
                             CopyPaste.PASTE_OFFSET,
                  Number.add (snd (Node.position node))
                             CopyPaste.PASTE_OFFSET))
              (CopyPaste.copiedNodes s)).
Proof.
  intros s paste s1 s2.
  apply (@pasting_twice_lands_on_the_same_place
           (numeral "node_a") (numeral "edge_a")
           (numeral "node_b") (numeral "edge_b") s s1 s2);
    vm_compute; reflexivity.
Defined.

(** X14, witness: the text [widget]. *)
Lemma default_function_export_is_recorded_witness :
  rewrite (js "export default function " ++ js "Widget"
              ++ js "(){ return 1 }")
  = {| processedCode := js "function " ++ js "Widget" ++ js "(){ return 1 }";
       defaultExportName := Some (js "Widget") |}.
Proof.
  apply default_function_export_is_recorded;
    try reflexivity; discriminate.
Defined.

(** X13, witness: the default import of React before another import. *)
Lemma default_import_becomes_require_witness :
  rewriteImports (js "import " ++ js "React" ++ js " from " ++ [34%N]
                     ++ js "react" ++ [34%N] ++ [10%N] ++ mixed_import)
  = js "const " ++ js "React" ++ js " = require('" ++ js "react"
       ++ js "').default || require('" ++ js "react" ++ js "')"
       ++ rewriteImports ([10%N] ++ mixed_import).
Proof.
  apply default_import_becomes_require;
    try reflexivity; discriminate.
Defined.

(** X15, witness: two names of the flow library. *)
Lemma named_import_becomes_require_witness :
  rewriteImports (js "import {" ++ js " ReactFlow, Background "
                     ++ js "} from " ++ [34%N] ++ js "@xyflow/react"
                     ++ [34%N] ++ [10%N])
  = js "const {" ++ js " ReactFlow, Background " ++ js "} = require('"
       ++ js "@xyflow/react" ++ js "')" ++ rewriteImports [10%N].
Proof.
  apply named_import_becomes_require;
    try reflexivity; discriminate.
Defined.

(** X16, witness: the namespace import of React. *)
Lemma namespace_import_becomes_require_witness :
  rewriteImports (js "import * as " ++ js "React" ++ js " from " ++ [39%N]
                     ++ js "react" ++ [39%N] ++ [])
  = js "const " ++ js "React" ++ js " = require('" ++ js "react"
       ++ js "')" ++ rewriteImports [].
Proof.
  apply namespace_import_becomes_require;
    try reflexivity; discriminate.
Defined.

(** X17, witness: a default name and one other name. *)
Lemma mixed_import_becomes_require_witness :
  rewriteImports (js "import " ++ js "React" ++ js ", {" ++ js " useState "
                     ++ js "} from " ++ [34%N] ++ js "react" ++ [34%N]
                     ++ [10%N])
  = js "const " ++ js "React" ++ js " = require('" ++ js "react"
       ++ js "').default || require('" ++ js "react" ++ js "'); const {"
       ++ js " useState " ++ js "} = require('" ++ js "react" ++ js "')"
       ++ rewriteImports [10%N].
Proof.
  apply mixed_import_becomes_require;
    try reflexivity; discriminate.
Defined.


End Instances.
